(** * deepdive calibration node: a shallow embedding of the calibration
    solver driver (the file that defines [Solve], [LightCallback],
    [CorrectionCallback] and [TriggerCallback]).

    Doubles are IEEE-754 binary64 values (Rocq's primitive floats), the
    [std::map]s are key-ordered association lists, and the libraries the
    node calls (libm, roscpp's time conversions, OpenCV's PnP solver, Eigen,
    Ceres and the helpers of [deepdive.hh]) are the fields of an
    environment record [Env]. [Solve] applies [std::prev] to the first
    entry of a map, which C++ leaves undefined: the environment says, for
    the keys the map holds at that moment, whether the call is supposed to
    hand [begin()] back, and [Solve] has no result when it is not. *)

From Stdlib Require Import ZArith NArith String List Bool Lia Permutation.
From Stdlib Require Import PrimFloat.
From Stdlib Require Uint63 SpecFloat FloatOps.
Import ListNotations.

Set Warnings "-inexact-float".
Local Open Scope bool_scope.

(** ** [std::map] as a key-ordered association list *)

Module StdMap.
Section Ops.
Context {K V : Type} (lt : K -> K -> bool).

(** [m.find(k)]: the keys are visited in increasing order. *)
Fixpoint find (k : K) (m : list (K * V)) : option V :=
  match m with
  | [] => None
  | (k', v) :: r =>
      if lt k k' then None
      else if lt k' k then find k r
      else Some v
  end.

(** [m[k] = v]: insert at the key's place, or overwrite the mapped value. *)
Fixpoint set (k : K) (v : V) (m : list (K * V)) : list (K * V) :=
  match m with
  | [] => [(k, v)]
  | (k', v') :: r =>
      if lt k k' then (k, v) :: m
      else if lt k' k then (k', v') :: set k v r
      else (k', v) :: r
  end.

(** The value [m[k]] designates: a default-constructed one when [k] is new. *)
Definition at_or (d : V) (k : K) (m : list (K * V)) : V :=
  match find k m with Some v => v | None => d end.

(** [f(m[k])] for a mutating [f], e.g. [m[k].push_back(x)]. *)
Definition upd (d : V) (k : K) (f : V -> V) (m : list (K * V)) : list (K * V) :=
  set k (f (at_or d k m)) m.

(** The key of [std::prev(m.find(k))] when [k] has a predecessor in [m]. *)
Fixpoint pred_key (k : K) (m : list (K * V)) : option K :=
  match m with
  | [] => None
  | (k', _) :: r =>
      if lt k' k then
        match pred_key k r with Some p => Some p | None => Some k' end
      else None
  end.

Definition keys (m : list (K * V)) : list K := map fst m.

End Ops.
End StdMap.

(** ** Scalars, time stamps and small arrays *)

(** [ros::Time]: seconds and nanoseconds (32-bit fields, kept as [N]),
    ordered lexicographically. *)
Record Time := mkTime { sec : N; nsec : N }.

Definition time_ltb (a b : Time) : bool :=
  (sec a <? sec b)%N || ((sec a =? sec b)%N && (nsec a <? nsec b)%N).

(** [double x[6]]: three translation and three axis-angle components. *)
Record Pose := mkPose { p0 : float; p1 : float; p2 : float;
                        p3 : float; p4 : float; p5 : float }.

Definition pose_get (p : Pose) (i : nat) : float :=
  match i with
  | 0 => p0 p | 1 => p1 p | 2 => p2 p | 3 => p3 p | 4 => p4 p | _ => p5 p
  end.

Definition pose_build (f : nat -> float) : Pose :=
  mkPose (f 0) (f 1) (f 2) (f 3) (f 4) (f 5).

Definition to_uint8 (n : N) : N := (n mod 256)%N.

Definition pair_ltb (a b : N * N) : bool :=
  (fst a <? fst b)%N || ((fst a =? fst b)%N && (snd a <? snd b)%N).

(** ** Messages (the fields the node reads) *)

Record Pulse := mkPulse { sensor : N; angle : float; duration : float }.

Record Light := mkLight {
  header_frame_id : string;      (* msg->header.frame_id: tracker serial *)
  lighthouse : string;           (* lighthouse serial *)
  axis : N;
  pulses : list Pulse }.

Record Quaternion := mkQuat { qw : float; qx : float; qy : float; qz : float }.

Record TransformStamped := mkTransformStamped {
  ts_frame_id : string;          (* header.frame_id *)
  child_frame_id : string;
  translation : float * float * float;
  rotation : Quaternion }.

Definition TFMessage := list TransformStamped.

(** ** Tables of [deepdive.hh] as the node uses them *)

Record Lighthouse := mkLighthouse {
  vTl : Pose;                    (* lighthouse -> vive *)
  params : list float;           (* NUM_PARAMS * 2 calibration values *)
  lh_ready : bool }.

Record Tracker := mkTracker {
  bTh : Pose;                    (* head -> body *)
  tTh : Pose;                    (* head -> tracking (light) *)
  sensors : list float;          (* NUM_SENSORS * 6 values *)
  tr_ready : bool }.

Record Measurement := mkMeasurement { light : Light }.

Definition LighthouseMap := list (string * Lighthouse).
Definition TrackerMap := list (string * Tracker).
Definition MeasurementMap := list (Time * Measurement).
Definition CorrectionMap := list (Time * TransformStamped).

Record SolverOptions := mkOptions {
  max_solver_time_in_seconds : float;
  max_num_iterations : Z;
  num_threads : Z;
  minimizer_progress_to_stdout : bool }.

(** The globals that are written at start-up only. *)
Record Config := mkConfig {
  perfile_ : string;
  frame_world_ : string;
  frame_vive_ : string;
  frame_body_ : string;
  correct_ : bool;
  res_ : float;
  thresh_count_ : Z;             (* int *)
  thresh_angle_ : float;
  thresh_duration_ : float;
  options_ : SolverOptions;
  refine_registration_ : bool;
  refine_lighthouses_ : bool;
  refine_extrinsics_ : bool;
  refine_sensors_ : bool;
  refine_head_ : bool;
  refine_params_ : bool;
  visualize_ : bool;
  force2d_ : bool;
  smoothing_ : float }.

(** The globals the callbacks and [Solve] read and write. *)
Record Globals := mkGlobals {
  cfg : Config;
  lighthouses_ : LighthouseMap;
  trackers_ : TrackerMap;
  measurements_ : MeasurementMap;
  corrections_ : CorrectionMap;
  recording_ : bool;
  wTv_ : Pose;
  timer_started : bool }.

Definition with_measurements (m : MeasurementMap) (g : Globals) : Globals :=
  mkGlobals (cfg g) (lighthouses_ g) (trackers_ g) m (corrections_ g)
            (recording_ g) (wTv_ g) (timer_started g).

Definition with_corrections (c : CorrectionMap) (g : Globals) : Globals :=
  mkGlobals (cfg g) (lighthouses_ g) (trackers_ g) (measurements_ g) c
            (recording_ g) (wTv_ g) (timer_started g).

Definition with_recording (r : bool) (g : Globals) : Globals :=
  mkGlobals (cfg g) (lighthouses_ g) (trackers_ g) (measurements_ g)
            (corrections_ g) r (wTv_ g) (timer_started g).

Definition with_timer (t : bool) (g : Globals) : Globals :=
  mkGlobals (cfg g) (lighthouses_ g) (trackers_ g) (measurements_ g)
            (corrections_ g) (recording_ g) (wTv_ g) t.

(** ** Message callbacks *)

(** The test of [LightCallback]'s erase loop: both comparisons must hold. *)
Definition rejected (c : Config) (p : Pulse) : bool :=
  PrimFloat.ltb (thresh_angle_ c / 57.2958) (angle p) &&
  PrimFloat.ltb (duration p) (thresh_duration_ c / 1e-6).

(** [v.erase(v.begin() + i)]. *)
Definition erase (i : nat) (v : list Pulse) : list Pulse :=
  firstn i v ++ skipn (S i) v.

(** [while (it-- > data.pulses.begin())]: [it] is the index the iterator
    stands at before the test; [erase] hands back the erased position. The
    last test leaves the iterator one before [begin()]; it is not used
    again. *)
Fixpoint erase_loop (c : Config) (it : nat) (v : list Pulse) (deleted : nat)
  : list Pulse * nat :=
  match it with
  | O => (v, deleted)
  | S i =>
      match nth_error v i with
      | Some p =>
          if rejected c p then erase_loop c i (erase i v) (S deleted)
          else erase_loop c i v deleted
      | None => (v, deleted)
      end
  end.

(** [size_t < int]: the [int] is converted to the unsigned 64-bit type. *)
Definition size_lt_int (n : nat) (i : Z) : bool :=
  (Z.of_nat n <? i mod 2 ^ 64)%Z.

Definition is_ready_tracker (serial : string) (m : TrackerMap) : bool :=
  match StdMap.find String.ltb serial m with
  | Some t => tr_ready t
  | None => false
  end.

Definition is_ready_lighthouse (serial : string) (m : LighthouseMap) : bool :=
  match StdMap.find String.ltb serial m with
  | Some l => lh_ready l
  | None => false
  end.

(** [now] is the value of [ros::Time::now()] at the store. *)
Definition LightCallback (msg : Light) (now : Time) (g0 : Globals) : Globals :=
  let g := with_timer true g0 in              (* timer_.stop(); timer_.start() *)
  if negb (recording_ g)
     || negb (is_ready_tracker (header_frame_id msg) (trackers_ g))
     || negb (is_ready_lighthouse (lighthouse msg) (lighthouses_ g))
  then g
  else
    let '(kept, _) := erase_loop (cfg g) (length (pulses msg)) (pulses msg) 0 in
    if size_lt_int (length kept) (thresh_count_ (cfg g)) then g
    else
      let data := mkLight (header_frame_id msg) (lighthouse msg) (axis msg) kept in
      with_measurements
        (StdMap.set time_ltb now (mkMeasurement data) (measurements_ g)) g.

(** The test on a transform of a TF message. *)
Definition world_to_body (c : Config) (t : TransformStamped) : bool :=
  String.eqb (ts_frame_id t) (frame_world_ c) &&
  String.eqb (child_frame_id t) (frame_body_ c).

(** [now i] is the value of [ros::Time::now()] while the [i]-th transform of
    the message is visited. *)
Fixpoint correction_loop (now : nat -> Time) (i : nat)
  (ts : list TransformStamped) (g : Globals) : Globals :=
  match ts with
  | [] => g
  | t :: r =>
      let g' :=
        if world_to_body (cfg g) t
        then with_corrections (StdMap.set time_ltb (now i) t (corrections_ g)) g
        else g in
      correction_loop now (S i) r g'
  end.

Definition CorrectionCallback (msg : TFMessage) (now : nat -> Time)
  (g : Globals) : Globals :=
  if negb (recording_ g) then g else correction_loop now 0 msg g.

(** ** The Ceres problem *)

(** A parameter block is the address handed to [AddResidualBlock]: a whole
    array of a table entry, or one of the four slices of an epoch's
    [wTb[t]] ([&wTb[t][0]], [&wTb[t][2]], [&wTb[t][3]], [&wTb[t][5]]). *)
Inductive Block :=
| B_wTv
| B_vTl (l : string)
| B_params (l : string)
| B_bTh (t : string)
| B_tTh (t : string)
| B_sensors (t : string)
| B_pos_xy (e : Time)
| B_pos_z (e : Time)
| B_rot_xy (e : Time)
| B_rot_z (e : Time).

Definition time_eqb (a b : Time) : bool :=
  (sec a =? sec b)%N && (nsec a =? nsec b)%N.

Definition Block_eqb (a b : Block) : bool :=
  match a, b with
  | B_wTv, B_wTv => true
  | B_vTl x, B_vTl y | B_params x, B_params y | B_bTh x, B_bTh y
  | B_tTh x, B_tTh y | B_sensors x, B_sensors y => String.eqb x y
  | B_pos_xy x, B_pos_xy y | B_pos_z x, B_pos_z y
  | B_rot_xy x, B_rot_xy y | B_rot_z x, B_rot_z y => time_eqb x y
  | _, _ => false
  end.

Definition mem_block (b : Block) (l : list Block) : bool :=
  existsb (Block_eqb b) l.

(** [typedef std::map<std::pair<uint16_t, uint8_t>, double> Group]. *)
Definition Group := list ((N * N) * float).

Inductive Cost :=
| GroupCost (group : Group)      (* group.size() residuals *)
| MotionCost.                    (* 6 residuals *)

(** A residual block; every one is added with [HuberLoss(1.0)]. *)
Record ResidualBlock := mkResidual { cost : Cost; blocks : list Block }.

Record Problem := mkProblem {
  residual_blocks : list ResidualBlock;
  constant_blocks : list Block }.

Definition AddResidualBlock (c : Cost) (bs : list Block) (p : Problem) : Problem :=
  mkProblem (residual_blocks p ++ [mkResidual c bs]) (constant_blocks p).

(** The request is recorded whether or not a residual block has brought
    the block into the problem. *)
Definition SetParameterBlockConstant (b : Block) (p : Problem) : Problem :=
  mkProblem (residual_blocks p) (b :: constant_blocks p).

(** The parameter blocks the problem knows: those of its residual blocks. *)
Definition parameter_blocks (p : Problem) : list Block :=
  flat_map blocks (residual_blocks p).

(** The value of every element of every block. *)
Definition Values := Block -> nat -> float.

(** [MotionCost::operator()] at [T = double]. *)
Definition MotionCost_eval (smoothing : float)
  (prev_pos_xy : float * float) (prev_pos_z : float)
  (prev_rot_xy : float * float) (prev_rot_z : float)
  (next_pos_xy : float * float) (next_pos_z : float)
  (next_rot_xy : float * float) (next_rot_z : float) : list float :=
  let residual :=
    [ fst prev_pos_xy - fst next_pos_xy;
      snd prev_pos_xy - snd next_pos_xy;
      prev_pos_z - next_pos_z;
      fst prev_rot_xy - fst next_rot_xy;
      snd prev_rot_xy - snd next_rot_xy;
      prev_rot_z - next_rot_z ]%float in
  map (fun r => (r * smoothing)%float) residual.

(** ** The libraries behind the node *)

Record Env := mkEnv {
  NUM_SENSORS : nat;                              (* deepdive.hh *)
  round : float -> float;                         (* libm *)
  tan : float -> float;
  toSec : Time -> float;                          (* ros::Time::toSec *)
  fromSec : float -> Time;                        (* ros::Time(double) *)
  Statistic : Type;                               (* deepdive.hh *)
  Statistic_new : Statistic;
  Feed : Statistic -> float -> Statistic;
  Statistic_Mean : Statistic -> float;
  Correct : list float -> float * float -> bool -> float * float;
  (* Eigen::AngleAxisd of a quaternion, as angle * axis *)
  toAngleAxis : Quaternion -> float * float * float;
  (* Eigen::Quaterniond of the angle-axis vector of a published pose *)
  toQuaternion : float -> float -> float -> Quaternion;
  (* cv::solvePnPRansac on the object and image points (narrowed to single
     precision inside) with the focal length; [Some (rvec, tvec)] on success *)
  solvePnPRansac : list (float * float * float) -> list (float * float) -> float ->
                   option ((float * float * float) * (float * float * float));
  (* wTv * vTl * lTt * tTh * inverse(bTh), as translation and angle * axis *)
  compose_chain : Pose -> Pose -> (float * float * float) * (float * float * float) ->
                  Pose -> Pose -> Pose;
  (* ceres::Solve: the values it leaves in the blocks, and IsSolutionUsable *)
  ceres_Solve : SolverOptions -> Problem -> Values -> Values * bool;
  (* std::ofstream::is_open after opening the performance file *)
  is_open : string -> bool;
  (* what std::prev does at wTb.begin(), which C++ leaves undefined, asked
     with the keys wTb has at that moment. [true]: it hands begin() back,
     as the guard [p != c] of Solve supposes, and no motion block is added.
     [false]: nothing is supposed about it. An implementation is described
     by saying [true] only where it does hand begin() back: libstdc++ does
     so while the first entry is the root of its tree (a map of one entry;
     of two when the smaller key was inserted first) and yields end() once
     the map has three entries, where the guard passes and the motion block
     is built on addresses outside wTb; its description says [false]
     there. *)
  prev_of_begin_is_begin : list Time -> bool }.

(** Ceres leaves a parameter block that was set constant as it found it. *)
Definition honours_constant (E : Env) : Prop :=
  forall o p v b i, In b (constant_blocks p) -> fst (ceres_Solve E o p v) b i = v b i.

(** Modelled from the spec: [Mean] of deepdive.hh, which is not part of the
    sources at hand. It fails on an empty sample list ("if both axes have
    at least one sample") and otherwise yields the arithmetic mean. *)
Definition Mean (v : list float) : option float :=
  match v with
  | [] => None
  | _ => Some (fold_left PrimFloat.add v 0 /
               PrimFloat.of_uint63 (Uint63.of_Z (Z.of_nat (List.length v))))%float
  end.

(** ** Bundling *)

Definition AxisMap := list (N * list float).
Definition SensorMap := list (N * AxisMap).
Definition Bundle := list (Time * SensorMap).
Definition BundleTable := list (string * list (string * Bundle)).

(** The time unit a stamp falls in. *)
Definition epoch (E : Env) (res : float) (t : Time) : Time :=
  fromSec E (round E (toSec E t / res) * res)%float.

(** [bundle[tserial][lserial][t][sensor][a].push_back(x)]. *)
Definition push_sample (tserial lserial : string) (t : Time) (s a : N)
  (x : float) (b : BundleTable) : BundleTable :=
  StdMap.upd String.ltb [] tserial
    (StdMap.upd String.ltb [] lserial
      (StdMap.upd time_ltb [] t
        (StdMap.upd N.ltb [] s
          (StdMap.upd N.ltb [] a (fun v => v ++ [x]))))) b.

Definition bundle_measurement (E : Env) (res : float) (b : BundleTable)
  (mt : Time * Measurement) : BundleTable :=
  let l := light (snd mt) in
  let t := epoch E res (fst mt) in
  fold_left
    (fun b pt => push_sample (header_frame_id l) (lighthouse l) t
                   (to_uint8 (sensor pt)) (to_uint8 (axis l)) (angle pt) b)
    (pulses l) b.

Definition bundle_measurements (E : Env) (res : float) (m : MeasurementMap)
  : BundleTable :=
  fold_left (bundle_measurement E res) m [].

Definition bundle_correction (E : Env) (res : float) (corr : list (Time * Pose))
  (ct : Time * TransformStamped) : list (Time * Pose) :=
  let t := epoch E res (fst ct) in
  let '(x, y, z) := translation (snd ct) in
  let '(a0, a1, a2) := toAngleAxis E (rotation (snd ct)) in
  StdMap.set time_ltb t (mkPose x y z a0 a1 a2) corr.

Definition bundle_corrections (E : Env) (res : float) (c : CorrectionMap)
  : list (Time * Pose) :=
  fold_left (bundle_correction E res) c [].

(** ** Bootstrapping: one PnP solve per lighthouse, tracker and epoch *)

Record Correspondences := mkCorr {
  obj : list (float * float * float);
  img : list (float * float);
  group : Group }.

(** [bundle[tracker][lighthouse][epoch][s][a]] inside one epoch. *)
Definition samples (sm : SensorMap) (s a : N) : list float :=
  StdMap.at_or N.ltb [] a (StdMap.at_or N.ltb [] s sm).

(** One turn of [for (uint8_t s = 0; s < NUM_SENSORS; s++)]. *)
Definition add_sensor (E : Env) (c : Config) (lh : Lighthouse) (tr : Tracker)
  (sm : SensorMap) (z : float) (acc : Correspondences) (s : nat)
  : Correspondences :=
  let sn := N.of_nat s in
  match Mean (samples sm sn 0), Mean (samples sm sn 1) with
  | Some a0, Some a1 =>
      let g := StdMap.set pair_ltb (sn, 1%N) a1
                 (StdMap.set pair_ltb (sn, 0%N) a0 (group acc)) in
      let '(c0, c1) := Correct E (params lh) (a0, a1) (correct_ c) in
      mkCorr
        (obj acc ++ [(nth (s * 6 + 0) (sensors tr) 0%float,
                      nth (s * 6 + 1) (sensors tr) 0%float,
                      nth (s * 6 + 2) (sensors tr) 0%float)])
        (img acc ++ [(z * tan E c0, z * tan E c1)%float])
        g
  | _, _ => acc
  end.

Definition correspondences (E : Env) (c : Config) (lh : Lighthouse)
  (tr : Tracker) (sm : SensorMap) (z : float) : Correspondences :=
  fold_left (add_sensor E c lh tr sm z) (seq 0 (NUM_SENSORS E)) (mkCorr [] [] []).

(** A call of [cv::solvePnPRansac]. *)
Record PnPAttempt := mkAttempt {
  at_lighthouse : string;
  at_tracker : string;
  at_epoch : Time;
  at_points : nat }.

(** The locals of the bootstrapping block. [b_attempts] and [b_fed] record
    the PnP calls made and the heights given to [height.Feed]; [b_undefined]
    is raised when [std::prev] is applied to [wTb.begin()] and nothing is
    supposed about the result. *)
Record Builder (E : Env) := mkBuilder {
  b_wTb : list (Time * Pose);
  b_problem : Problem;
  b_height : Statistic E;
  b_count : N;
  b_attempts : list PnPAttempt;
  b_fed : list float;
  b_undefined : bool }.

Arguments mkBuilder {E}.
Arguments b_wTb {E}.
Arguments b_problem {E}.
Arguments b_height {E}.
Arguments b_count {E}.
Arguments b_attempts {E}.
Arguments b_fed {E}.
Arguments b_undefined {E}.

Definition group_blocks (lk tk : string) (t : Time) : list Block :=
  [B_wTv; B_vTl lk; B_pos_xy t; B_pos_z t; B_rot_xy t; B_rot_z t;
   B_bTh tk; B_tTh tk; B_sensors tk; B_params lk].

Definition motion_blocks (p c : Time) : list Block :=
  [B_pos_xy p; B_pos_z p; B_rot_xy p; B_rot_z p;
   B_pos_xy c; B_pos_z c; B_rot_xy c; B_rot_z c].

(** The body of [if (cv::solvePnPRansac(...))]. *)
Definition seed_epoch {E : Env} (g : Globals) (lk : string) (lh : Lighthouse)
  (tk : string) (tr : Tracker) (t : Time) (cs : Correspondences)
  (rt : (float * float * float) * (float * float * float)) (b : Builder E)
  : Builder E :=
  let obs := compose_chain E (wTv_ g) (vTl lh) rt (tTh tr) (bTh tr) in
  let wTb1 := StdMap.set time_ltb t obs (b_wTb b) in
  let height := Feed E (b_height b) (p2 obs) in
  let pr1 := AddResidualBlock (GroupCost (group cs)) (group_blocks lk tk t)
               (b_problem b) in
  let wTb2 :=
    if force2d_ (cfg g)
    then StdMap.set time_ltb t
           (mkPose (p0 obs) (p1 obs) (p2 obs) 0 0 (p5 obs)) wTb1
    else wTb1 in
  let pr2 :=
    if force2d_ (cfg g)
    then SetParameterBlockConstant (B_rot_xy t)
           (SetParameterBlockConstant (B_pos_z t) pr1)
    else pr1 in
  if PrimFloat.ltb 0 (smoothing_ (cfg g)) then
    (* c = wTb.find(t) is the entry just written; p = std::prev(c) *)
    match StdMap.pred_key time_ltb t wTb2 with
    | Some p =>
        mkBuilder wTb2 (AddResidualBlock MotionCost (motion_blocks p t) pr2)
          height (b_count b) (b_attempts b) (b_fed b ++ [p2 obs]) (b_undefined b)
    | None =>
        (* c is wTb.begin(): p == c where std::prev hands begin() back *)
        mkBuilder wTb2 pr2 height (b_count b) (b_attempts b)
          (b_fed b ++ [p2 obs])
          (b_undefined b || negb (prev_of_begin_is_begin E (StdMap.keys wTb2)))
    end
  else
    mkBuilder wTb2 pr2 height (b_count b) (b_attempts b)
      (b_fed b ++ [p2 obs]) (b_undefined b).

(** One turn of the loop over the epochs of [bundle[tracker][lighthouse]]. *)
Definition bootstrap_epoch {E : Env} (g : Globals) (lk : string)
  (lh : Lighthouse) (tk : string) (tr : Tracker) (z : float)
  (b : Builder E) (bt : Time * SensorMap) : Builder E :=
  let cs := correspondences E (cfg g) lh tr (snd bt) z in
  if (3 <? List.length (obj cs))%nat then
    let b1 := mkBuilder (b_wTb b) (b_problem b) (b_height b) (b_count b)
                (b_attempts b ++ [mkAttempt lk tk (fst bt) (List.length (obj cs))])
                (b_fed b) (b_undefined b) in
    let b2 :=
      match solvePnPRansac E (obj cs) (img cs) z with
      | Some rt => seed_epoch g lk lh tk tr (fst bt) cs rt b1
      | None => b1
      end in
    mkBuilder (b_wTb b2) (b_problem b2) (b_height b2)
      ((b_count b2 + 1) mod 2 ^ 32)%N (b_attempts b2) (b_fed b2) (b_undefined b2)
  else b.

Definition set_constant {E : Env} (flag : bool) (blk : Block) (b : Builder E)
  : Builder E :=
  if flag
  then mkBuilder (b_wTb b) (SetParameterBlockConstant blk (b_problem b))
         (b_height b) (b_count b) (b_attempts b) (b_fed b) (b_undefined b)
  else b.

(** One turn of the loop over the trackers. *)
Definition bootstrap_tracker {E : Env} (g : Globals) (bundle : BundleTable)
  (lk : string) (lh : Lighthouse) (z : float) (b : Builder E)
  (tt : string * Tracker) : Builder E :=
  let epochs := StdMap.at_or String.ltb [] lk
                  (StdMap.at_or String.ltb [] (fst tt) bundle) in
  let b1 := fold_left (bootstrap_epoch g lk lh (fst tt) (snd tt) z) epochs b in
  let b2 := set_constant (negb (refine_extrinsics_ (cfg g))) (B_bTh (fst tt)) b1 in
  let b3 := set_constant (negb (refine_head_ (cfg g))) (B_tTh (fst tt)) b2 in
  set_constant (negb (refine_sensors_ (cfg g))) (B_sensors (fst tt)) b3.

(** One turn of the loop over the lighthouses; [first] says whether
    [lt == lighthouses_.begin()]. *)
Definition bootstrap_lighthouse {E : Env} (g : Globals) (bundle : BundleTable)
  (z : float) (first : bool) (b : Builder E) (lt : string * Lighthouse)
  : Builder E :=
  let b1 := fold_left (bootstrap_tracker g bundle (fst lt) (snd lt) z)
              (trackers_ g) b in
  let b2 := set_constant (negb (refine_lighthouses_ (cfg g)) || first)
              (B_vTl (fst lt)) b1 in
  set_constant (negb (refine_params_ (cfg g))) (B_params (fst lt)) b2.

Definition bootstrap {E : Env} (g : Globals) (bundle : BundleTable)
  : Builder E :=
  let fov := 2.0944%float in
  let w := 1.0%float in
  let z := (w / (2.0 * tan E (fov / 2.0)))%float in
  let b0 := mkBuilder [] (mkProblem [] []) (Statistic_new E) 0%N [] [] false in
  let b1 :=
    match lighthouses_ g with
    | [] => b0
    | lt :: rest =>
        fold_left (bootstrap_lighthouse g bundle z false) rest
          (bootstrap_lighthouse g bundle z true b0 lt)
    end in
  set_constant (negb (refine_registration_ (cfg g))) B_wTv b1.

(** ** Reading and writing the memory behind the parameter blocks *)

Definition lighthouse_at (g : Globals) (l : string) : Lighthouse :=
  StdMap.at_or String.ltb (mkLighthouse (pose_build (fun _ => 0%float)) [] false)
    l (lighthouses_ g).

Definition tracker_at (g : Globals) (t : string) : Tracker :=
  StdMap.at_or String.ltb
    (mkTracker (pose_build (fun _ => 0%float)) (pose_build (fun _ => 0%float)) [] false)
    t (trackers_ g).

Definition wTb_at (wTb : list (Time * Pose)) (e : Time) : Pose :=
  StdMap.at_or time_ltb (pose_build (fun _ => 0%float)) e wTb.

Definition read_values (g : Globals) (wTb : list (Time * Pose)) : Values :=
  fun b i =>
    match b with
    | B_wTv => pose_get (wTv_ g) i
    | B_vTl l => pose_get (vTl (lighthouse_at g l)) i
    | B_params l => nth i (params (lighthouse_at g l)) 0%float
    | B_bTh t => pose_get (bTh (tracker_at g t)) i
    | B_tTh t => pose_get (tTh (tracker_at g t)) i
    | B_sensors t => nth i (sensors (tracker_at g t)) 0%float
    | B_pos_xy e => pose_get (wTb_at wTb e) i
    | B_pos_z e => pose_get (wTb_at wTb e) (2 + i)
    | B_rot_xy e => pose_get (wTb_at wTb e) (3 + i)
    | B_rot_z e => pose_get (wTb_at wTb e) (5 + i)
    end.

(** What a block holds after [ceres::Solve]: the solver writes through the
    addresses of the problem's parameter blocks and nowhere else. *)
Definition solved_values (p : Problem) (old new : Values) : Values :=
  fun b i => if mem_block b (parameter_blocks p) then new b i else old b i.

Definition array_of (v : nat -> float) (old : list float) : list float :=
  map v (seq 0 (List.length old)).

Definition write_lighthouse (v : Values) (kl : string * Lighthouse)
  : string * Lighthouse :=
  (fst kl,
   mkLighthouse (pose_build (v (B_vTl (fst kl))))
     (array_of (v (B_params (fst kl))) (params (snd kl)))
     (lh_ready (snd kl))).

Definition write_tracker (v : Values) (kt : string * Tracker)
  : string * Tracker :=
  (fst kt,
   mkTracker (pose_build (v (B_bTh (fst kt)))) (pose_build (v (B_tTh (fst kt))))
     (array_of (v (B_sensors (fst kt))) (sensors (snd kt)))
     (tr_ready (snd kt))).

Definition write_wTb (v : Values) (ep : Time * Pose) : Time * Pose :=
  (fst ep,
   mkPose (v (B_pos_xy (fst ep)) 0) (v (B_pos_xy (fst ep)) 1)
          (v (B_pos_z (fst ep)) 0)
          (v (B_rot_xy (fst ep)) 0) (v (B_rot_xy (fst ep)) 1)
          (v (B_rot_z (fst ep)) 0)).

Definition write_globals (v : Values) (g : Globals) : Globals :=
  mkGlobals (cfg g) (map (write_lighthouse v) (lighthouses_ g))
    (map (write_tracker v) (trackers_ g)) (measurements_ g) (corrections_ g)
    (recording_ g) (pose_build (v B_wTv)) (timer_started g).

(** ** What a solve hands to the rest of the system *)

Record PoseStamped := mkPoseStamped {
  ps_stamp : Time;
  ps_frame_id : string;
  ps_position : float * float * float;
  ps_orientation : Quaternion }.

Record Path := mkPath {
  path_stamp : Time;
  path_frame_id : string;
  poses : list PoseStamped }.

(** A line of the performance file. *)
Record PerfRow := mkPerfRow { row_time : float; row_solved : Pose; row_truth : Pose }.

(** The arguments of [SendTransforms]. *)
Record Transforms := mkTransforms {
  tf_world : string; tf_vive : string; tf_body : string;
  tf_wTv : Pose; tf_lighthouses : LighthouseMap; tf_trackers : TrackerMap }.

Record Outputs := mkOutputs {
  pub_path_ : option Path;
  performance : option (list PerfRow);
  pub_ekf_ : option Path;
  sent_transforms : option Transforms }.

Definition no_outputs : Outputs := mkOutputs None None None None.

Definition stamped (E : Env) (frame : string) (ep : Time * Pose) : PoseStamped :=
  mkPoseStamped (fst ep) frame (p0 (snd ep), p1 (snd ep), p2 (snd ep))
    (toQuaternion E (p3 (snd ep)) (p4 (snd ep)) (p5 (snd ep))).

(** The entries of [wTb] that have a correction, each with it. *)
Definition with_truth (wTb corr : list (Time * Pose))
  : list ((Time * Pose) * (Time * Pose)) :=
  flat_map (fun it => match StdMap.find time_ltb (fst it) corr with
                      | Some c => [(it, (fst it, c))]
                      | None => []
                      end) wTb.

Definition perf_row (E : Env) (t0 : Time) (r : (Time * Pose) * (Time * Pose))
  : PerfRow :=
  mkPerfRow (toSec E (fst (fst r)) - toSec E t0)%float (snd (fst r)) (snd (snd r)).

Definition publish (E : Env) (now : nat -> Time) (g : Globals)
  (wTb corr : list (Time * Pose)) : Outputs :=
  let world := frame_world_ (cfg g) in
  let t0 := match wTb with ep :: _ => fst ep | [] => mkTime 0 0 end in
  let file := is_open E (perfile_ (cfg g)) in
  mkOutputs
    (if visualize_ (cfg g)
     then Some (mkPath (now 0) world (map (stamped E world) wTb)) else None)
    (if file then Some (map (perf_row E t0) (with_truth wTb corr)) else None)
    (if file
     then Some (mkPath (now 1) world
                  (map (fun r => stamped E world (snd r)) (with_truth wTb corr)))
     else None)
    (Some (mkTransforms world (frame_vive_ (cfg g)) (frame_body_ (cfg g))
             (wTv_ g) (lighthouses_ g) (trackers_ g))).

(** ** [Solve] *)

Record SolveResult := mkResult {
  ret : bool;                          (* the value returned *)
  globals_after : Globals;
  outputs : Outputs;
  (* the locals at the return: *)
  problem_built : Problem;
  wTb_after : list (Time * Pose);
  heights_fed : list float;
  pnp_attempts : list PnPAttempt }.

Inductive Outcome :=
| Returned (r : SolveResult)
| Undefined.         (* std::prev at wTb.begin(), nothing supposed about it *)

(** [it->second[2] = height.Mean()] for every entry of [wTb]. *)
Definition flatten (h : float) (ep : Time * Pose) : Time * Pose :=
  (fst ep, mkPose (p0 (snd ep)) (p1 (snd ep)) h
                  (p3 (snd ep)) (p4 (snd ep)) (p5 (snd ep))).

Definition Solve (E : Env) (now : nat -> Time) (g : Globals) : Outcome :=
  match measurements_ g with
  | [] => Returned (mkResult false g no_outputs (mkProblem [] []) [] [] [])
  | _ :: _ =>
      let bundle := bundle_measurements E (res_ (cfg g)) (measurements_ g) in
      let corr := bundle_corrections E (res_ (cfg g)) (corrections_ g) in
      let b : Builder E := bootstrap g bundle in
      if b_undefined b then Undefined
      else
        let wTb :=
          if force2d_ (cfg g)
          then map (flatten (Statistic_Mean E (b_height b))) (b_wTb b)
          else b_wTb b in
        let old := read_values g wTb in
        let '(new, usable) := ceres_Solve E (options_ (cfg g)) (b_problem b) old in
        let v := solved_values (b_problem b) old new in
        let g' := write_globals v g in
        let wTb' := map (write_wTb v) wTb in
        Returned (mkResult usable g'
                    (if usable then publish E now g' wTb' corr else no_outputs)
                    (b_problem b) wTb' (b_fed b) (b_attempts b))
  end.

(** ** The trigger service and the event loop *)

Record Response := mkResponse { success : bool; message : string }.

Inductive Triggered :=
| Done (res : Response) (out : Outputs) (g : Globals)
| Unknown.                             (* [Solve] was undefined *)

Definition clear (g : Globals) : Globals :=
  with_corrections [] (with_measurements [] g).

Definition TriggerCallback (E : Env) (now : nat -> Time) (g : Globals)
  : Triggered :=
  if recording_ g then
    match Solve E now g with
    | Returned r =>
        Done (mkResponse (ret r)
                (if ret r then "Recording stopped. Solution found."
                 else "Recording stopped. Solution not found.")%string)
             (outputs r)
             (with_recording false (clear (globals_after r)))
    | Undefined => Unknown
    end
  else
    Done (mkResponse true "Recording started."%string) no_outputs
         (with_recording true g).

(** Where the single-threaded event loop ([ros::spin]) stands: between two
    callbacks, or inside [TriggerCallback] at its call of [Solve]. *)
Inductive Phase := Spinning | Solving.

Record Node := mkNode { phase : Phase; globals : Globals }.

Inductive step (E : Env) : Node -> Node -> Prop :=
| step_light msg now g :
    step E (mkNode Spinning g) (mkNode Spinning (LightCallback msg now g))
| step_correction msg now g :
    step E (mkNode Spinning g) (mkNode Spinning (CorrectionCallback msg now g))
| step_trigger_start g :
    recording_ g = false ->
    step E (mkNode Spinning g) (mkNode Spinning (with_recording true g))
| step_trigger_solve g :
    recording_ g = true ->
    step E (mkNode Spinning g) (mkNode Solving g)
| step_solve_returns now g r :
    Solve E now g = Returned r ->
    step E (mkNode Solving g)
           (mkNode Spinning (with_recording false (clear (globals_after r)))).

(** The states the node reaches from its start ([recording_ = offline_]). *)
Inductive reachable (E : Env) : Node -> Prop :=
| reach_start g :
    measurements_ g = [] -> corrections_ g = [] ->
    reachable E (mkNode Spinning g)
| reach_step n n' : reachable E n -> step E n n' -> reachable E n'.

(** [TimerCallback] fakes a trigger and drops the response. *)
Definition TimerCallback (E : Env) (now : nat -> Time) (g : Globals)
  : Triggered :=
  TriggerCallback E now g.

(** ** Readings of the specification used in the statements below *)

(** Removal as the specification words it: the angle is too large, or the
    duration too short. *)
Definition spec_removed (c : Config) (p : Pulse) : bool :=
  PrimFloat.ltb (thresh_angle_ c / 57.2958) (angle p) ||
  PrimFloat.ltb (duration p) (thresh_duration_ c / 1e-6).

(** A sensor with at least one sample on both sweep axes in an epoch. *)
Definition valid_sensor (sm : SensorMap) (s : nat) : bool :=
  match samples sm (N.of_nat s) 0, samples sm (N.of_nat s) 1 with
  | _ :: _, _ :: _ => true
  | _, _ => false
  end.

Definition valid_count (E : Env) (sm : SensorMap) : nat :=
  List.length (filter (valid_sensor sm) (seq 0 (NUM_SENSORS E))).

(** The epoch keys present anywhere in a bundle table. *)
Definition epochs_of (b : BundleTable) : list Time :=
  flat_map (fun tr => flat_map (fun lh => StdMap.keys (snd lh)) (snd tr)) b.

(** The samples of [bundle[tr][lh][e][s][a]]. *)
Definition bucket (b : BundleTable) (tr lh : string) (e : Time) (s a : N)
  : list float :=
  samples (StdMap.at_or time_ltb [] e
             (StdMap.at_or String.ltb [] lh (StdMap.at_or String.ltb [] tr b)))
          s a.

(** The angles an observation stamped [fst mt] brings to that bucket, in
    the order of its pulses: all of them when the bucket is that of its
    tracker, lighthouse and axis, of the sensor of the pulse, and of the
    time [round(t / r) * r] for its stamp [t]; none otherwise. *)
Definition brought (E : Env) (r : float) (tr lh : string) (e : Time) (s a : N)
  (mt : Time * Measurement) : list float :=
  let l := light (snd mt) in
  if String.eqb tr (header_frame_id l) && String.eqb lh (lighthouse l) &&
     time_eqb e (fromSec E (round E (toSec E (fst mt) / r) * r)%float) &&
     (a =? to_uint8 (axis l))%N
  then map angle (filter (fun pt => (s =? to_uint8 (sensor pt))%N) (pulses l))
  else [].

(** [measurements_] after the observations of [arrivals] were stored in
    the order of the list. *)
Definition stored_in_order (arrivals : list (Time * Measurement))
  : MeasurementMap :=
  fold_left (fun m a => StdMap.set time_ltb (fst a) (snd a) m) arrivals [].

(** The triples the three loops of the bootstrap visit, in their order:
    every lighthouse of the table, with every tracker of the table, with
    every epoch of [bundle[tracker][lighthouse]]. *)
Definition Triple : Type :=
  (string * Lighthouse) * (string * Tracker) * (Time * SensorMap).

Definition triples (g : Globals) (bundle : BundleTable) : list Triple :=
  flat_map
    (fun lt =>
       flat_map
         (fun tt =>
            map (fun bt => (lt, tt, bt))
              (StdMap.at_or String.ltb [] (fst lt)
                 (StdMap.at_or String.ltb [] (fst tt) bundle)))
         (trackers_ g))
    (lighthouses_ g).

(** The principal distance [z = w / (2 tan(fov / 2))] of [Solve]. *)
Definition principal_distance (E : Env) : float :=
  (1.0 / (2.0 * tan E (2.0944 / 2.0)))%float.

(** The object and image points and the group [Solve] collects for a
    triple. *)
Definition points (E : Env) (g : Globals) (x : Triple) : Correspondences :=
  correspondences E (cfg g) (snd (fst (fst x))) (snd (snd (fst x)))
    (snd (snd x)) (principal_distance E).

Definition is_vTl (b : Block) : bool :=
  match b with B_vTl _ => true | _ => false end.

Definition is_motion (r : ResidualBlock) : bool :=
  match cost r with MotionCost => true | GroupCost _ => false end.

(** Strictly increasing keys: the shape of a [std::map]. *)
Fixpoint sorted {K V : Type} (lt : K -> K -> bool) (m : list (K * V)) : Prop :=
  match m with
  | [] => True
  | kv :: r => Forall (fun e => lt (fst kv) (fst e) = true) r /\ sorted lt r
  end.

(** [b'] holds the constant blocks of [b] and, before them, blocks that
    all satisfy [Q]. *)
Definition extends {E : Env} (Q : Block -> Prop) (b b' : Builder E) : Prop :=
  exists extra,
    constant_blocks (b_problem b') = extra ++ constant_blocks (b_problem b) /\
    Forall Q extra.

(** The blocks of an epoch's pose. *)
Definition pose_block (x : Block) : Prop :=
  match x with B_pos_z _ | B_rot_xy _ => True | _ => False end.

(** The blocks of a tracker. *)
Definition tracker_block (x : Block) : Prop :=
  match x with B_bTh _ | B_tTh _ | B_sensors _ => True | _ => False end.

(** What the bootstrapping keeps true of its locals under [force2d_]. *)
Definition planar {E : Env} (b : Builder E) : Prop :=
  sorted time_ltb (b_wTb b) /\
  b_height b = fold_left (Feed E) (b_fed b) (Statistic_new E) /\
  forall e p, In (e, p) (b_wTb b) ->
    p3 p = 0%float /\ p4 p = 0%float /\
    In (B_pos_z e) (constant_blocks (b_problem b)) /\
    In (B_rot_xy e) (constant_blocks (b_problem b)).

(** No motion block among the residual blocks built so far. *)
Definition motion_free {E : Env} (b : Builder E) : Prop :=
  Forall (fun rb => is_motion rb = false) (residual_blocks (b_problem b)).

(** ** A concrete environment to run the model on examples

    Stand-ins for the libraries: exact where that is short (time
    conversions, rounding), simple otherwise. *)

Module Demo.

Definition of_Z (z : Z) : float :=
  if (z <? 0)%Z then (- PrimFloat.of_uint63 (Uint63.of_Z (- z)))%float
  else PrimFloat.of_uint63 (Uint63.of_Z z).

(** The integer nearest to a finite double, halves away from zero
    ([up = true]), or its magnitude rounded down ([up = false]). *)
Definition to_Z (up : bool) (x : float) : Z :=
  match FloatOps.Prim2SF x with
  | SpecFloat.S754_finite s m e =>
      let mag :=
        if (0 <=? e)%Z then (Zpos m * 2 ^ e)%Z
        else
          let d := (2 ^ (- e))%Z in
          let q := (Zpos m / d)%Z in
          if up && (d <=? 2 * (Zpos m mod d))%Z then (q + 1)%Z else q in
      if s then (- mag)%Z else mag
  | _ => 0%Z
  end.

Definition round (x : float) : float := of_Z (to_Z true x).

Definition toSec (t : Time) : float :=
  (of_Z (Z.of_N (sec t)) + 1e-9 * of_Z (Z.of_N (nsec t)))%float.

Definition fromSec (x : float) : Time :=
  let s := to_Z false x in
  mkTime (Z.to_N s) (Z.to_N (to_Z true ((x - of_Z s) * 1e9)%float)).

(** A truncated series, good enough near zero. *)
Definition tan (x : float) : float :=
  (x + x * x * x / 3.0 + 2.0 * x * x * x * x * x / 15.0)%float.

(** A running mean: the number of values fed and their mean. *)
Definition Feed (s : float * float) (x : float) : float * float :=
  let n := (fst s + 1.0)%float in (n, (snd s + (x - snd s) / n)%float).

Definition solver (o : SolverOptions) (p : Problem) (v : Values)
  : Values * bool :=
  (fun b i => if mem_block b (constant_blocks p) then v b i
              else (v b i + 1.0)%float, true).

Definition chain (w l : Pose)
  (rt : (float * float * float) * (float * float * float)) (t b : Pose) : Pose :=
  let '((r0, r1, r2), (t0, t1, t2)) := rt in
  mkPose (p0 w + p0 l + t0) (p1 w + p1 l + t1) (p2 w + p2 l + t2) r0 r1 r2.

Definition pnp (obj : list (float * float * float)) (img : list (float * float))
  (z : float) : option ((float * float * float) * (float * float * float)) :=
  match img with
  | (u, v) :: _ => Some ((0.1, 0.2, 0.3)%float, (u, v, 2.0)%float)
  | [] => None
  end.

Definition env_with (prev_of_begin : list Time -> bool) : Env :=
  mkEnv 32 round tan toSec fromSec
    (float * float) (0.0, 0.0)%float Feed snd
    (fun _ a _ => a)
    (fun q => (2.0 * qx q, 2.0 * qy q, 2.0 * qz q)%float)
    (fun x y z => mkQuat 1.0 (x / 2.0) (y / 2.0) (z / 2.0))
    pnp chain solver (fun _ => true) prev_of_begin.

(** Nothing supposed about [std::prev] at [begin()]. *)
Definition env : Env := env_with (fun _ => false).

(** [std::prev] hands [begin()] back in a map of one or two entries, as
    libstdc++ does when the keys were inserted in increasing order (the
    order in which the examples below insert them); nothing is supposed
    once the map has three entries. *)
Definition env_lenient : Env :=
  env_with (fun keys => (List.length keys <? 3)%nat).

Definition now (i : nat) : Time := mkTime 100 (N.of_nat i).

Definition options : SolverOptions := mkOptions 60.0 100 1 false.

(** The defaults of the node, with the given switches. *)
Definition config (lighthouses registration force2d : bool) (smoothing : float)
  : Config :=
  mkConfig "/tmp/performance.csv" "world" "vive" "body" false 0.1 4 60.0 1.0
    options registration lighthouses false false false false true force2d
    smoothing.

Definition zero : Pose := pose_build (fun _ => 0%float).

Definition lh (x : float) : Lighthouse :=
  mkLighthouse (mkPose x 0 0 0 0 0) (repeat 0%float 10) true.

Definition tracker : Tracker :=
  mkTracker zero zero (map (fun i => of_Z (Z.of_nat i)) (seq 0 192)) true.

(** Sensors 0..4 seen at small angles, long pulses. *)
Definition sweep (lighthouse : string) (axis : N) : Light :=
  mkLight "T1" lighthouse axis
    (map (fun s => mkPulse (N.of_nat s) 0.1 2e6) (seq 0 5)).

Definition globals (c : Config) (m : MeasurementMap) : Globals :=
  mkGlobals c [("L1"%string, lh 1.0); ("L2"%string, lh 2.0)]
    [("T1"%string, tracker)] m [] true (mkPose 0.5 0 0 0 0 0) false.

(** One epoch seen by both lighthouses on both axes. *)
Definition one_epoch : MeasurementMap :=
  [(mkTime 10 0, mkMeasurement (sweep "L1" 0));
   (mkTime 10 1000, mkMeasurement (sweep "L1" 1));
   (mkTime 10 2000, mkMeasurement (sweep "L2" 0));
   (mkTime 10 3000, mkMeasurement (sweep "L2" 1))].

(** Two epochs, 0.1 s apart, seen by the first lighthouse. *)
Definition two_epochs : MeasurementMap :=
  [(mkTime 10 0, mkMeasurement (sweep "L1" 0));
   (mkTime 10 1000, mkMeasurement (sweep "L1" 1));
   (mkTime 10 100000000, mkMeasurement (sweep "L1" 0));
   (mkTime 10 100001000, mkMeasurement (sweep "L1" 1))].

(** The same two epochs, seen by both lighthouses. *)
Definition two_epochs_both : MeasurementMap :=
  [(mkTime 10 0, mkMeasurement (sweep "L1" 0));
   (mkTime 10 1000, mkMeasurement (sweep "L1" 1));
   (mkTime 10 2000, mkMeasurement (sweep "L2" 0));
   (mkTime 10 3000, mkMeasurement (sweep "L2" 1));
   (mkTime 10 100000000, mkMeasurement (sweep "L1" 0));
   (mkTime 10 100001000, mkMeasurement (sweep "L1" 1));
   (mkTime 10 100002000, mkMeasurement (sweep "L2" 0));
   (mkTime 10 100003000, mkMeasurement (sweep "L2" 1))].

(** A third epoch, 0.1 s later, seen by both lighthouses too. *)
Definition three_epochs_both : MeasurementMap :=
  two_epochs_both ++
  [(mkTime 10 200000000, mkMeasurement (sweep "L1" 0));
   (mkTime 10 200001000, mkMeasurement (sweep "L1" 1));
   (mkTime 10 200002000, mkMeasurement (sweep "L2" 0));
   (mkTime 10 200003000, mkMeasurement (sweep "L2" 1))].

End Demo.

(** ** The cost of a group of light measurements *)

Section Costs.
(* ceres::AngleAxisRotatePoint *)
Variable AngleAxisRotatePoint :
  float * float * float -> float * float * float -> float * float * float.
(* Predict of deepdive.hh: the two angles of a point in the lighthouse frame *)
Variable Predict : list float -> float * float * float -> bool -> float * float.

(** [b = Ra + t]. *)
Definition TransformInPlace (transform : Pose) (x : float * float * float)
  : float * float * float :=
  let '(t0, t1, t2) :=
    AngleAxisRotatePoint (p3 transform, p4 transform, p5 transform) x in
  (t0 + p0 transform, t1 + p1 transform, t2 + p2 transform)%float.

(** [a = R'(b - t)]. *)
Definition InverseTransformInPlace (transform : Pose) (x : float * float * float)
  : float * float * float :=
  let '(x0, x1, x2) := x in
  let tmp := (x0 - p0 transform, x1 - p1 transform, x2 - p2 transform)%float in
  AngleAxisRotatePoint
    (- p3 transform, - p4 transform, - p5 transform)%float tmp.

(** One turn of the loop of [GroupCost::operator()] at [T = double]: the
    residual of one entry of the group. [sensors] is read at [6*s+0..2] and
    [angle], an array of two, at [a]; a read outside either array has no
    defined value. *)
Definition GroupCost_residual (correct : bool)
  (wTv vTl wTb bTh tTh : Pose) (sensors params : list float)
  (gt : (N * N) * float) : option float :=
  let s := N.to_nat (fst (fst gt)) in
  let a := N.to_nat (snd (fst gt)) in
  if (6 * s + 2 <? List.length sensors)%nat && (a <? 2)%nat then
    let x := (nth (6 * s + 0) sensors 0%float,
              nth (6 * s + 1) sensors 0%float,
              nth (6 * s + 2) sensors 0%float) in
    let x := InverseTransformInPlace tTh x in   (* light -> head *)
    let x := TransformInPlace bTh x in          (* head -> body *)
    let x := TransformInPlace wTb x in          (* body -> world *)
    let x := InverseTransformInPlace wTv x in   (* world -> vive *)
    let x := InverseTransformInPlace vTl x in   (* vive -> lighthouse *)
    let angle := Predict params x correct in
    Some (nth a [fst angle; snd angle] 0 - snd gt)%float
  else None.

(** [GroupCost::operator()]: one residual per entry of the group, in the
    order of its keys. *)
Definition GroupCost_eval (correct : bool) (group : Group)
  (wTv vTl : Pose) (wTb_pos_xy : float * float) (wTb_pos_z : float)
  (wTb_rot_xy : float * float) (wTb_rot_z : float)
  (bTh tTh : Pose) (sensors params : list float) : option (list float) :=
  let wTb := mkPose (fst wTb_pos_xy) (snd wTb_pos_xy) wTb_pos_z
                    (fst wTb_rot_xy) (snd wTb_rot_xy) wTb_rot_z in
  fold_right
    (fun gt rest =>
       match GroupCost_residual correct wTv vTl wTb bTh tTh sensors params gt,
             rest with
       | Some r, Some rs => Some (r :: rs)
       | _, _ => None
       end)
    (Some []) group.

End Costs.

(** ** The tables [main] builds from the parameter server *)

(** What [nh.getParam] found for one configured lighthouse or tracker:
    [None] where the parameter is missing, which leaves the local variable
    as it was declared (an empty string, an empty vector). *)
Record Configured := mkConfigured {
  cf_serial : option string;
  cf_transform : option (list float) }.

Section Configuration.
(* Eigen::AngleAxisd of a quaternion, as angle * axis *)
Variable AngleAxis : Quaternion -> float * float * float.
(* a value-initialised entry of the table *)
Variable new_lighthouse : Lighthouse.
Variable new_tracker : Tracker.

Definition configured_pose (t : list float) : Pose :=
  let q := mkQuat (nth 6 t 0%float) (nth 3 t 0%float) (nth 4 t 0%float)
                  (nth 5 t 0%float) in
  let '(a0, a1, a2) := AngleAxis q in
  mkPose (nth 0 t 0%float) (nth 1 t 0%float) (nth 2 t 0%float) a0 a1 a2.

(** One turn of the loop over the configured lighthouses. *)
Definition configure_lighthouse (m : LighthouseMap) (c : Configured)
  : LighthouseMap :=
  let serial := match cf_serial c with Some s => s | None => ""%string end in
  let transform := match cf_transform c with Some t => t | None => [] end in
  if negb (List.length transform =? 7)%nat then m      (* continue *)
  else
    StdMap.upd String.ltb new_lighthouse serial
      (fun l => mkLighthouse (configured_pose transform) (params l) false) m.

(** One turn of the loop over the configured trackers. *)
Definition configure_tracker (m : TrackerMap) (c : Configured) : TrackerMap :=
  let serial := match cf_serial c with Some s => s | None => ""%string end in
  let extrinsics := match cf_transform c with Some t => t | None => [] end in
  if negb (List.length extrinsics =? 7)%nat then m     (* continue *)
  else
    StdMap.upd String.ltb new_tracker serial
      (fun t => mkTracker (configured_pose extrinsics) (tTh t) (sensors t) false) m.

Definition configure_lighthouses (cs : list Configured) : LighthouseMap :=
  fold_left configure_lighthouse cs [].

Definition configure_trackers (cs : list Configured) : TrackerMap :=
  fold_left configure_tracker cs [].

End Configuration.

(** ** The filter node (deepdive_filter.cc)

    One node per tracker: light messages of the tracker drive an unscented
    Kalman filter, a timer broadcasts its pose. The filter itself is the
    UKF library's. *)

Module FilterNode.

(** The fields of [deepdive_ros::Tracker] the node reads. *)
Record TrackerInfo := mkTrackerInfo {
  serial : string;
  positions : list (float * float * float);   (* sensors[i].position *)
  acc_bias : float * float * float;
  acc_scale : float * float * float;
  gyr_bias : float * float * float;
  gyr_scale : float * float * float }.

(** The globals the measurement model reads. *)
Record Model := mkModel {
  gravity_ : float * float * float;
  extrinsics_ : float * float * float;
  lh_att_ : Quaternion;
  lh_pos_ : float * float * float;
  axis_ : N }.

Inductive Measured :=
| Angle (a : float)
| Inertial (acc gyr : float * float * float).

(** [UKF::Core] and the clock. *)
Record Lib := mkLib {
  Filter : Type;
  a_priori_step : float -> Model -> Filter -> Filter;
  innovation_step : Measured -> Model -> Filter -> Filter;
  a_posteriori_step : Model -> Filter -> Filter;
  position : Filter -> float * float * float;   (* state.get_field<Position>() *)
  attitude : Filter -> Quaternion;              (* state.get_field<Attitude>() *)
  seconds : Time -> Time -> float }.            (* (a - b).toSec() *)

Record Globals (L : Lib) := mkGlobals {
  model : Model;
  serial_ : string;
  tracker_ : TrackerInfo;
  frame_ : string;
  filter_ : Filter L;
  last_ : Time;
  ready_ : bool;
  initialized_ : bool }.

Arguments mkGlobals {L}.
Arguments model {L}.
Arguments serial_ {L}.
Arguments tracker_ {L}.
Arguments frame_ {L}.
Arguments filter_ {L}.
Arguments last_ {L}.
Arguments ready_ {L}.
Arguments initialized_ {L}.

(** The fields of [sensor_msgs::Imu] the node reads. *)
Record Imu := mkImu {
  imu_frame_id : string;
  linear_acceleration : float * float * float;
  angular_velocity : float * float * float }.

(** What [br.sendTransform] is given. *)
Record Broadcast := mkBroadcast {
  stamp : Time;
  parent : string;
  child : string;
  origin : float * float * float;
  turn : Quaternion }.

Section Callbacks.
Context {L : Lib}.

(** [Delta]: the step since the last call, which it always replaces, and
    whether the step is positive and below one second. *)
Definition Delta (now : Time) (g : Globals L) : float * bool * Globals L :=
  let dt := seconds L now (last_ g) in
  (dt, PrimFloat.ltb 0 dt && PrimFloat.ltb dt 1.0,
   mkGlobals (model g) (serial_ g) (tracker_ g) (frame_ g) (filter_ g) now
     (ready_ g) (initialized_ g)).

Definition TimerCallback (current_real now : Time) (g : Globals L)
  : Globals L * option Broadcast :=
  if negb (initialized_ g) then (g, None)
  else
    let '(dt, ok, g1) := Delta now g in
    if negb ok then (g1, None)
    else
      let f := a_priori_step L dt (model g1) (filter_ g1) in
      (mkGlobals (model g1) (serial_ g1) (tracker_ g1) (frame_ g1) f (last_ g1)
         (ready_ g1) (initialized_ g1),
       Some (mkBroadcast current_real "world" (frame_ g1) (position L f)
               (attitude L f))).

(** One turn of the loop over the pulses: [None] when the sensor index is
    outside [tracker_.sensors], a read the code does not guard. *)
Definition innovate (msg_axis : N) (positions : list (float * float * float))
  (acc : option (Model * Filter L)) (p : Pulse) : option (Model * Filter L) :=
  match acc with
  | None => None
  | Some (m, f) =>
      match nth_error positions (N.to_nat (sensor p)) with
      | None => None
      | Some x =>
          let m' := mkModel (gravity_ m) x (lh_att_ m) (lh_pos_ m)
                      (to_uint8 msg_axis) in
          Some (m', innovation_step L (Angle (angle p)) m' f)
      end
  end.

(** [lookup] is what [buffer.lookupTransform("world", msg->lighthouse, ...)]
    gives: the rotation and translation, or [None] when it throws. *)
Definition LightCallback (msg : Light) (now : Time)
  (lookup : option (Quaternion * (float * float * float))) (g : Globals L)
  : option (Globals L) :=
  if negb (ready_ g) || negb (String.eqb (header_frame_id msg) (serial_ g))
  then Some g
  else
    let '(dt, ok, g1) := Delta now g in
    if negb ok then Some g1
    else
      match lookup with
      | None => Some g1
      | Some (q, t) =>
          let m := mkModel (gravity_ (model g1)) (extrinsics_ (model g1)) q t
                     (axis_ (model g1)) in
          let f := a_priori_step L dt m (filter_ g1) in
          match fold_left (innovate (axis msg) (positions (tracker_ g1)))
                  (pulses msg) (Some (m, f)) with
          | None => None
          | Some (m', f') =>
              Some (mkGlobals m' (serial_ g1) (tracker_ g1) (frame_ g1)
                      (a_posteriori_step L m' f') (last_ g1) (ready_ g1) true)
          end
      end.

(** [scale * v - bias], component by component. *)
Definition calibrated (scale bias v : float * float * float)
  : float * float * float :=
  let '(s0, s1, s2) := scale in
  let '(b0, b1, b2) := bias in
  let '(v0, v1, v2) := v in
  (s0 * v0 - b0, s1 * v1 - b1, s2 * v2 - b2)%float.

Definition ImuCallback (msg : Imu) (now : Time) (g : Globals L) : Globals L :=
  if negb (ready_ g) || negb (String.eqb (imu_frame_id msg) (serial_ g))
  then g
  else
    let '(dt, ok, g1) := Delta now g in
    if negb ok then g1
    else
      let acc := calibrated (acc_scale (tracker_ g1)) (acc_bias (tracker_ g1))
                   (linear_acceleration msg) in
      let gyr := calibrated (gyr_scale (tracker_ g1)) (gyr_bias (tracker_ g1))
                   (angular_velocity msg) in
      let f := a_priori_step L dt (model g1) (filter_ g1) in
      let f := innovation_step L (Inertial acc gyr) (model g1) f in
      mkGlobals (model g1) (serial_ g1) (tracker_ g1) (frame_ g1)
        (a_posteriori_step L (model g1) f) (last_ g1) (ready_ g1)
        (initialized_ g1).

Definition TrackerCallback (msg : list TrackerInfo) (g : Globals L)
  : Globals L :=
  fold_left
    (fun g it =>
       if String.eqb (serial it) (serial_ g)
       then mkGlobals (model g) (serial_ g) it (frame_ g) (filter_ g) (last_ g)
              true (initialized_ g)
       else g)
    msg g.

(** The callbacks of the file. [main] sets up the timer and subscribes
    [/trackers] and [/light]; its subscription of [ImuCallback] is commented
    out. *)
Inductive step : Globals L -> Globals L -> Prop :=
| step_timer current_real now g :
    step g (fst (TimerCallback current_real now g))
| step_light msg now lookup g g' :
    LightCallback msg now lookup g = Some g' -> step g g'
| step_imu msg now g :
    step g (ImuCallback msg now g)
| step_tracker msg g :
    step g (TrackerCallback msg g).

Inductive reaches (g0 : Globals L) : Globals L -> Prop :=
| reaches_start : reaches g0 g0
| reaches_step g g' : reaches g0 g -> step g g' -> reaches g0 g'.

End Callbacks.

End FilterNode.

(** ** Readings used in the further statements *)

(** The pose [bundle_correction] files under a correction's epoch. *)
Definition correction_pose (E : Env) (x : TransformStamped) : Pose :=
  let '(x0, x1, x2) := translation x in
  let '(a0, a1, a2) := toAngleAxis E (rotation x) in
  mkPose x0 x1 x2 a0 a1 a2.

(** What [LightCallback] lets into the measurement map. *)
Definition admitted (c : Config) (l : Light) : bool :=
  forallb (fun p => negb (rejected c p)) (pulses l) &&
  negb (size_lt_int (List.length (pulses l)) (thresh_count_ c)).

(** A residual block that names only memory that exists: a listed
    lighthouse and tracker and an epoch of [wTb], or two epochs of [wTb],
    the first before the second. *)
Definition well_formed_block (g : Globals) (wTb : list (Time * Pose))
  (rb : ResidualBlock) : Prop :=
  match cost rb with
  | GroupCost _ =>
      exists lk tk e,
        blocks rb = group_blocks lk tk e /\
        In lk (StdMap.keys (lighthouses_ g)) /\
        In tk (StdMap.keys (trackers_ g)) /\
        In e (StdMap.keys wTb)
  | MotionCost =>
      exists p c,
        blocks rb = motion_blocks p c /\ time_ltb p c = true /\
        In p (StdMap.keys wTb) /\ In c (StdMap.keys wTb)
  end.

(** What the bootstrapping keeps true of the trajectory and of the residual
    blocks: [wTb] has the shape of a [std::map], its keys are epochs of the
    bundle, and every residual block names memory that exists. *)
Definition trajectory_ok {E : Env} (g : Globals) (bundle : BundleTable)
  (b : Builder E) : Prop :=
  sorted time_ltb (b_wTb b) /\
  (forall e, In e (StdMap.keys (b_wTb b)) -> In e (epochs_of bundle)) /\
  Forall (well_formed_block g (b_wTb b)) (residual_blocks (b_problem b)).

(** The serial and the seven values [main] has in hand for a configured
    entry, and whether the entry is filed under a given serial. *)
Definition cf_key (c : Configured) : string :=
  match cf_serial c with Some s => s | None => ""%string end.

Definition cf_values (c : Configured) : list float :=
  match cf_transform c with Some t => t | None => [] end.

Definition configures (k : string) (c : Configured) : bool :=
  (List.length (cf_values c) =? 7)%nat && String.eqb k (cf_key c).

(** The two entries a sensor seen on both axes adds to the group. *)
Definition group_keys (sm : SensorMap) (l : list nat) : list (N * N) :=
  flat_map (fun s => [(N.of_nat s, 0%N); (N.of_nat s, 1%N)])
    (filter (valid_sensor sm) l).

(** What the bootstrapping keeps true of its counts: one bearing block and
    one height for every seeded pose, at most as many motion blocks and
    entries of [wTb], and PnP calls on four points or more only, each for
    a listed lighthouse and tracker and an epoch of the bundle. *)
Definition accounted {E : Env} (g : Globals) (bundle : BundleTable)
  (b : Builder E) : Prop :=
  List.length (filter (fun rb => negb (is_motion rb))
                 (residual_blocks (b_problem b))) = List.length (b_fed b) /\
  List.length (filter is_motion (residual_blocks (b_problem b))) <=
    List.length (b_fed b) /\
  List.length (b_fed b) <= List.length (b_attempts b) /\
  List.length (b_wTb b) <= List.length (b_fed b) /\
  Forall (fun a =>
            4 <= at_points a /\
            In (at_lighthouse a) (StdMap.keys (lighthouses_ g)) /\
            In (at_tracker a) (StdMap.keys (trackers_ g)) /\
            In (at_epoch a) (epochs_of bundle))
         (b_attempts b).

(** What the callbacks keep true of the two queues: they are empty while
    the node is not recording, they have the shape of a [std::map], every
    stored observation got through the tests of [LightCallback] and every
    stored correction through the test of [CorrectionCallback]. *)
Definition queues_ok (g : Globals) : Prop :=
  (recording_ g = false -> measurements_ g = [] /\ corrections_ g = []) /\
  sorted time_ltb (measurements_ g) /\
  sorted time_ltb (corrections_ g) /\
  (forall t m, In (t, m) (measurements_ g) ->
               admitted (cfg g) (light m) = true) /\
  (forall t x, In (t, x) (corrections_ g) -> world_to_body (cfg g) x = true).

(** * Properties *)

(** ** Key-ordered lists *)

Section MapFacts.
Context {K V : Type} (lt : K -> K -> bool).

Lemma in_set_inv : forall (k k0 : K) (v v0 : V) m,
  In (k, v) (StdMap.set lt k0 v0 m) ->
  In (k, v) m \/ (v = v0 /\ (k = k0 \/ (lt k k0 = false /\ lt k0 k = false))).
Proof.
  induction m as [|[k' v'] r IH]; simpl.
  - intros [H|[]]. inversion H; subst. right; auto.
  - destruct (lt k0 k') eqn:E1.
    + intros [H|H]; [inversion H; subst; right; auto | left; exact H].
    + destruct (lt k' k0) eqn:E2.
      * intros [H|H]; [left; left; exact H|].
        destruct (IH H) as [H'|H']; [left; right; exact H' | right; exact H'].
      * intros [H|H]; [inversion H; subst; right; auto | left; right; exact H].
Qed.

Lemma keys_set_inv : forall (k k0 : K) (v0 : V) m,
  In k (StdMap.keys (StdMap.set lt k0 v0 m)) -> k = k0 \/ In k (StdMap.keys m).
Proof.
  unfold StdMap.keys.
  induction m as [|[k' v'] r IH]; simpl.
  - intros [H|[]]; auto.
  - destruct (lt k0 k') eqn:E1; simpl.
    + intros [H|H]; auto.
    + destruct (lt k' k0) eqn:E2; simpl.
      * intros [H|H]; auto. destruct (IH H); auto.
      * intros [H|H]; auto.
Qed.

Hypothesis lt_irrefl : forall a, lt a a = false.
Hypothesis lt_trans : forall a b c, lt a b = true -> lt b c = true -> lt a c = true.
Hypothesis lt_total : forall a b, lt a b = false -> lt b a = false -> a = b.

Lemma lt_asym : forall a b, lt a b = true -> lt b a = false.
Proof.
  intros a b H. destruct (lt b a) eqn:E; [|reflexivity].
  rewrite <- (lt_irrefl a). symmetry. eapply lt_trans; eauto.
Qed.

(** Two stores under different keys commute. *)
Lemma set_commute : forall (k1 k2 : K) (v1 v2 : V) m,
  k1 <> k2 ->
  StdMap.set lt k1 v1 (StdMap.set lt k2 v2 m) =
  StdMap.set lt k2 v2 (StdMap.set lt k1 v1 m).
Proof.
  intros k1 k2 v1 v2 m Hne.
  assert (H12 : lt k1 k2 = true \/ lt k2 k1 = true).
  { destruct (lt k1 k2) eqn:A; [auto|]. destruct (lt k2 k1) eqn:B; [auto|].
    elim Hne. apply lt_total; assumption. }
  induction m as [|[k v] r IH]; simpl.
  - destruct H12 as [H|H]; rewrite H, (lt_asym _ _ H); reflexivity.
  - destruct (lt k2 k) eqn:A2; destruct (lt k1 k) eqn:A1; simpl;
      rewrite ?A1, ?A2.
    + destruct H12 as [H|H]; rewrite H, (lt_asym _ _ H); simpl;
        rewrite ?A1, ?A2; reflexivity.
    + assert (H : lt k2 k1 = true).
      { destruct H12 as [H|H]; [|exact H].
        rewrite (lt_trans _ _ _ H A2) in A1; discriminate. }
      rewrite H, (lt_asym _ _ H).
      destruct (lt k k1) eqn:B1; simpl; rewrite ?A2, ?H, ?(lt_asym _ _ H);
        try reflexivity.
    + assert (H : lt k1 k2 = true).
      { destruct H12 as [H|H]; [exact H|].
        rewrite (lt_trans _ _ _ H A1) in A2; discriminate. }
      rewrite H, (lt_asym _ _ H).
      destruct (lt k k2) eqn:B2; simpl; rewrite ?A1, ?H, ?(lt_asym _ _ H);
        try reflexivity.
    + destruct (lt k k2) eqn:B2; destruct (lt k k1) eqn:B1; simpl;
        rewrite ?A1, ?A2, ?B1, ?B2; try reflexivity.
      * rewrite IH; reflexivity.
      * elim Hne. rewrite (lt_total _ _ A1 B1), (lt_total _ _ A2 B2). reflexivity.
Qed.

Lemma sorted_set : forall (k : K) (v : V) m,
  sorted lt m -> sorted lt (StdMap.set lt k v m).
Proof.
  induction m as [|[k' v'] r IH]; simpl; [auto|].
  intros [Hall Hs].
  destruct (lt k k') eqn:E1; simpl.
  - split; [|auto]. constructor; [exact E1|].
    eapply Forall_impl; [|exact Hall]. simpl. intros e He. eapply lt_trans; eauto.
  - destruct (lt k' k) eqn:E2; simpl.
    + split; [|auto].
      apply Forall_forall. intros [k'' v''] Hin. simpl.
      destruct (in_set_inv _ _ _ _ _ Hin) as [H|[_ [H|[H1 H2]]]].
      * rewrite Forall_forall in Hall. exact (Hall _ H).
      * subst; exact E2.
      * rewrite (lt_total _ _ H1 H2). exact E2.
    + split; assumption.
Qed.

Lemma find_sorted : forall (k : K) (v : V) m,
  sorted lt m -> In (k, v) m -> StdMap.find lt k m = Some v.
Proof.
  induction m as [|[k' v'] r IH]; simpl; [intros _ []|].
  intros [Hall Hs] [H|H].
  - inversion H; subst. rewrite lt_irrefl. reflexivity.
  - rewrite Forall_forall in Hall. pose proof (Hall _ H) as Hlt. simpl in Hlt.
    rewrite (lt_asym _ _ Hlt), Hlt. auto.
Qed.

(** Looking a key up after a store. *)
Lemma find_set : forall (k k0 : K) (v : V) m,
  StdMap.find lt k (StdMap.set lt k0 v m) =
  if negb (lt k k0) && negb (lt k0 k) then Some v else StdMap.find lt k m.
Proof.
  intros k k0 v. induction m as [|[k' v'] r IH]; simpl.
  - destruct (lt k k0) eqn:A; simpl; [reflexivity|].
    destruct (lt k0 k); reflexivity.
  - destruct (lt k0 k') eqn:A; simpl.
    + destruct (lt k k0) eqn:B; simpl.
      * rewrite (lt_trans _ _ _ B A). reflexivity.
      * destruct (lt k0 k) eqn:C; simpl; reflexivity.
    + destruct (lt k' k0) eqn:B; simpl.
      * destruct (lt k k') eqn:C.
        { rewrite (lt_trans _ _ _ C B). reflexivity. }
        destruct (lt k' k) eqn:D; [exact IH|].
        rewrite (lt_total _ _ C D), B, (lt_asym _ _ B). reflexivity.
      * rewrite (lt_total _ _ A B).
        destruct (lt k k') eqn:C; simpl; [reflexivity|].
        destruct (lt k' k) eqn:D; reflexivity.
Qed.

Lemma at_or_upd : forall (d : V) (k k0 : K) f m,
  StdMap.at_or lt d k (StdMap.upd lt d k0 f m) =
  if negb (lt k k0) && negb (lt k0 k) then f (StdMap.at_or lt d k0 m)
  else StdMap.at_or lt d k m.
Proof.
  intros d k k0 f m. unfold StdMap.at_or, StdMap.upd. rewrite find_set.
  destruct (negb (lt k k0) && negb (lt k0 k)); reflexivity.
Qed.

End MapFacts.

Lemma time_ltb_irrefl : forall a, time_ltb a a = false.
Proof.
  intros [s n]. unfold time_ltb; simpl.
  rewrite !N.ltb_irrefl, andb_false_r. reflexivity.
Qed.

Lemma time_ltb_spec : forall a b,
  time_ltb a b = true <->
  (sec a < sec b \/ (sec a = sec b /\ nsec a < nsec b))%N.
Proof.
  intros a b. unfold time_ltb.
  rewrite orb_true_iff, andb_true_iff, !N.ltb_lt, N.eqb_eq. reflexivity.
Qed.

Lemma time_ltb_trans : forall a b c,
  time_ltb a b = true -> time_ltb b c = true -> time_ltb a c = true.
Proof. intros a b c. rewrite !time_ltb_spec. lia. Qed.

Lemma time_ltb_total : forall a b,
  time_ltb a b = false -> time_ltb b a = false -> a = b.
Proof.
  intros [s n] [s' n'] H1 H2.
  apply not_true_iff_false in H1, H2. rewrite time_ltb_spec in H1, H2.
  simpl in *. assert (s = s') by lia. assert (n = n') by lia. congruence.
Qed.

Lemma string_ltb_irrefl : forall s, String.ltb s s = false.
Proof.
  intros s. unfold String.ltb.
  pose proof (String.compare_antisym s s) as H.
  destruct (String.compare s s); simpl in H; try reflexivity; discriminate.
Qed.

(** ** [LightCallback] *)

Lemma nth_error_split : forall (v : list Pulse) i p,
  nth_error v i = Some p ->
  firstn (S i) v = firstn i v ++ [p] /\ skipn i v = p :: skipn (S i) v.
Proof.
  induction v as [|a v IH]; intros [|i] p H; simpl in *; try discriminate.
  - inversion H; subst. destruct v; auto.
  - destruct (IH _ _ H) as [H1 H2]. simpl in H1. rewrite H1, H2. auto.
Qed.

(** The backward erase loop is a filter. *)
Lemma erase_loop_filter : forall c it v d,
  it <= List.length v ->
  fst (erase_loop c it v d) =
  filter (fun p => negb (rejected c p)) (firstn it v) ++ skipn it v.
Proof.
  induction it as [|i IH]; intros v d Hle; simpl erase_loop.
  - reflexivity.
  - destruct (nth_error v i) as [p|] eqn:Hn.
    + destruct (nth_error_split _ _ _ Hn) as [H1 H2].
      assert (Hlen : List.length (firstn i v) = i)
        by (apply firstn_length_le; lia).
      rewrite H1, filter_app. simpl filter.
      destruct (rejected c p) eqn:Hr; simpl negb; cbv iota.
      * rewrite IH.
        2:{ unfold erase. rewrite length_app, Hlen. lia. }
        unfold erase.
        rewrite firstn_app, Hlen, Nat.sub_diag, firstn_O, app_nil_r.
        rewrite firstn_all2 by lia.
        rewrite skipn_app, Hlen, Nat.sub_diag.
        rewrite skipn_all2 by lia. simpl. rewrite app_nil_r. reflexivity.
      * rewrite IH by lia. rewrite H2, <- app_assoc. reflexivity.
    + apply nth_error_None in Hn. lia.
Qed.

Lemma erase_loop_all : forall c v,
  fst (erase_loop c (List.length v) v 0) = filter (fun p => negb (rejected c p)) v.
Proof.
  intros c v. rewrite erase_loop_filter by lia.
  rewrite firstn_all, skipn_all, app_nil_r. reflexivity.
Qed.

(** C4, as the code has it. For a recording node, a known and ready tracker
    and lighthouse and a non-negative count threshold: the observation is
    stored, cut down to the pulses that survive, when at least
    [thresh_count_] pulses survive the removal of those whose angle exceeds
    [thresh_angle_ / 57.2958] and whose duration is, as well, below
    [thresh_duration_ / 1e-6]; otherwise the measurement map is left as it
    was. *)
Theorem LightCallback_stores_iff_enough_kept : forall msg now g,
  recording_ g = true ->
  is_ready_tracker (header_frame_id msg) (trackers_ g) = true ->
  is_ready_lighthouse (lighthouse msg) (lighthouses_ g) = true ->
  (0 <= thresh_count_ (cfg g) < 2 ^ 31)%Z ->
  let kept := filter (fun p => negb (rejected (cfg g) p)) (pulses msg) in
  ((thresh_count_ (cfg g) <= Z.of_nat (List.length kept))%Z ->
   measurements_ (LightCallback msg now g) =
   StdMap.set time_ltb now
     (mkMeasurement (mkLight (header_frame_id msg) (lighthouse msg) (axis msg) kept))
     (measurements_ g)) /\
  ((Z.of_nat (List.length kept) < thresh_count_ (cfg g))%Z ->
   measurements_ (LightCallback msg now g) = measurements_ g).
Proof.
  intros msg now g Hrec Htr Hlh Hcnt kept.
  unfold LightCallback. simpl. rewrite Hrec, Htr, Hlh. simpl.
  pose proof (erase_loop_all (cfg g) (pulses msg)) as Hf.
  destruct (erase_loop (cfg g) (List.length (pulses msg)) (pulses msg) 0)
    as [k n] eqn:He.
  simpl in Hf. subst k. fold kept.
  unfold size_lt_int. rewrite Z.mod_small by lia.
  split; intros H.
  - replace (Z.of_nat (List.length kept) <? thresh_count_ (cfg g))%Z with false
      by (symmetry; apply Z.ltb_ge; lia).
    reflexivity.
  - replace (Z.of_nat (List.length kept) <? thresh_count_ (cfg g))%Z with true
      by (symmetry; apply Z.ltb_lt; lia).
    reflexivity.
Qed.

Lemma LightCallback_stores_iff_enough_kept_witness :
  let g := Demo.globals (Demo.config false true false 10.0) [] in
  let msg := Demo.sweep "L1" 0 in
  measurements_ (LightCallback msg (Demo.now 0) g) =
  [(Demo.now 0, mkMeasurement msg)].
Proof.
  intros g msg.
  refine (proj1 (LightCallback_stores_iff_enough_kept msg (Demo.now 0) g
                   eq_refl eq_refl eq_refl _) _).
  - vm_compute. split; [intro H; discriminate H | reflexivity].
  - vm_compute. intro H; discriminate H.
Defined.

(** C4, as the claim words it, fails: four pulses that are far too wide but
    long enough are all removed by the claim's rule, leaving none of the
    four required, yet the observation is stored with all four. *)
Lemma LightCallback_keeps_wide_long_pulses :
  let g := Demo.globals (Demo.config false true false 10.0) [] in
  let msg := mkLight "T1" "L1" 0 (repeat (mkPulse 0 100.0 2e6) 4) in
  filter (fun p => negb (spec_removed (cfg g) p)) (pulses msg) = [] /\
  thresh_count_ (cfg g) = 4%Z /\
  measurements_ (LightCallback msg (Demo.now 0) g) =
  [(Demo.now 0, mkMeasurement msg)].
Proof. vm_compute. repeat split. Qed.

(** ** [CorrectionCallback] *)

Lemma correction_loop_frame : forall now ts i g,
  correction_loop now i ts g =
  with_corrections (corrections_ (correction_loop now i ts g)) g.
Proof.
  induction ts as [|t r IH]; intros i g; simpl.
  - destruct g; reflexivity.
  - rewrite IH.
    destruct (world_to_body (cfg g) t); destruct g; reflexivity.
Qed.

Lemma correction_loop_stored : forall now ts i g k v,
  In (k, v) (corrections_ (correction_loop now i ts g)) ->
  In (k, v) (corrections_ g) \/
  exists j, nth_error ts j = Some v /\ k = now (i + j) /\
            world_to_body (cfg g) v = true.
Proof.
  induction ts as [|t r IH]; intros i g k v H; simpl in H.
  - left; exact H.
  - apply IH in H. destruct H as [H|[j [Hj [Hk Hm]]]].
    + destruct (world_to_body (cfg g) t) eqn:Ht; [|left; exact H].
      simpl in H. apply in_set_inv in H.
      destruct H as [H|[Hv Hk]]; [left; exact H|].
      right. exists 0. subst v. simpl. rewrite Nat.add_0_r.
      repeat split; [|exact Ht].
      destruct Hk as [Hk|[H1 H2]]; [exact Hk|].
      apply time_ltb_total; assumption.
    + right. exists (S j). simpl. rewrite Nat.add_succ_r.
      repeat split; [exact Hj|exact Hk|].
      destruct (world_to_body (cfg g) t); exact Hm.
Qed.

Lemma correction_loop_ignores : forall now ts i g,
  (forall t, In t ts -> world_to_body (cfg g) t = false) ->
  correction_loop now i ts g = g.
Proof.
  induction ts as [|t r IH]; intros i g H; simpl; [reflexivity|].
  rewrite (H t (or_introl eq_refl)).
  apply IH. intros t' Ht'. apply H. right; exact Ht'.
Qed.

(** C10. A callback outside the recording state changes nothing; inside
    it, only [corrections_] changes, every entry that was not there before
    is a transform of the message whose parent frame is [frame_world_] and
    whose child frame is [frame_body_], stored under the time read while it
    was visited; a message without such a transform changes nothing. *)
Theorem CorrectionCallback_stores_world_to_body_only : forall msg now g,
  (recording_ g = false -> CorrectionCallback msg now g = g) /\
  CorrectionCallback msg now g =
    with_corrections (corrections_ (CorrectionCallback msg now g)) g /\
  (forall k v,
     In (k, v) (corrections_ (CorrectionCallback msg now g)) ->
     In (k, v) (corrections_ g) \/
     (recording_ g = true /\
      exists i, nth_error msg i = Some v /\ k = now i /\
                ts_frame_id v = frame_world_ (cfg g) /\
                child_frame_id v = frame_body_ (cfg g))) /\
  ((forall t, In t msg -> world_to_body (cfg g) t = false) ->
   CorrectionCallback msg now g = g).
Proof.
  intros msg now g. unfold CorrectionCallback.
  destruct (recording_ g) eqn:Hrec; simpl.
  - split; [discriminate|]. split; [apply correction_loop_frame|].
    split; [|apply correction_loop_ignores].
    intros k v H. apply correction_loop_stored in H.
    destruct H as [H|[j [Hj [Hk Hm]]]]; [left; exact H|].
    right. split; [reflexivity|]. exists j.
    unfold world_to_body in Hm. apply andb_true_iff in Hm.
    destruct Hm as [H1 H2]. apply String.eqb_eq in H1, H2. auto.
  - split; [reflexivity|]. split; [destruct g; reflexivity|].
    split; [intros k v H; left; exact H | reflexivity].
Qed.

(** ** Folds *)

Lemma fold_left_invariant {A B : Type} (P : A -> Prop) (f : A -> B -> A) :
  (forall a x, P a -> P (f a x)) ->
  forall l a, P a -> P (fold_left f l a).
Proof.
  intros Hf. induction l as [|x l IH]; simpl; intros a Ha; [exact Ha|].
  apply IH, Hf, Ha.
Qed.

Lemma fold_left_related {A B : Type} (R : A -> A -> Prop) (f : A -> B -> A) :
  (forall a, R a a) ->
  (forall a b c, R a b -> R b c -> R a c) ->
  (forall a x, R a (f a x)) ->
  forall l a, R a (fold_left f l a).
Proof.
  intros Hr Ht Hf. induction l as [|x l IH]; simpl; intros a; [apply Hr|].
  eapply Ht; [apply Hf | apply IH].
Qed.

(** ** The constant blocks of the problem under construction *)

Section Constants.
Context {E : Env} (g : Globals).

Lemma extends_refl : forall Q (b : Builder E), extends Q b b.
Proof. intros Q b. exists []. split; [reflexivity | constructor]. Qed.

Lemma extends_trans : forall Q (a b c : Builder E),
  extends Q a b -> extends Q b c -> extends Q a c.
Proof.
  intros Q a b c [x [Hx Qx]] [y [Hy Qy]]. exists (y ++ x). split.
  - rewrite Hy, Hx, app_assoc. reflexivity.
  - apply Forall_app; split; assumption.
Qed.

Lemma extends_weaken : forall (Q Q' : Block -> Prop) (b b' : Builder E),
  (forall x, Q x -> Q' x) -> extends Q b b' -> extends Q' b b'.
Proof.
  intros Q Q' b b' H [x [Hx Qx]]. exists x. split; [exact Hx|].
  eapply Forall_impl; eauto.
Qed.

Lemma extends_in : forall Q (b b' : Builder E) x,
  extends Q b b' -> In x (constant_blocks (b_problem b)) ->
  In x (constant_blocks (b_problem b')).
Proof.
  intros Q b b' x [e [He _]] H. rewrite He. apply in_or_app. right; exact H.
Qed.

Lemma extends_inv : forall Q (b b' : Builder E) x,
  extends Q b b' -> In x (constant_blocks (b_problem b')) ->
  Q x \/ In x (constant_blocks (b_problem b)).
Proof.
  intros Q b b' x [e [He Qe]] H. rewrite He in H.
  apply in_app_or in H. destruct H as [H|H]; [left|right; exact H].
  rewrite Forall_forall in Qe. exact (Qe _ H).
Qed.

Lemma extends_same : forall Q (b b' : Builder E),
  b_problem b' = b_problem b -> extends Q b b'.
Proof.
  intros Q b b' H. exists []. rewrite H. split; [reflexivity | constructor].
Qed.

Lemma set_constant_extends : forall (Q : Block -> Prop) flag blk (b : Builder E),
  Q blk -> extends Q b (set_constant flag blk b).
Proof.
  intros Q flag blk b H. unfold set_constant.
  destruct flag; [|apply extends_refl].
  exists [blk]. split; [reflexivity | constructor; [exact H | constructor]].
Qed.

Lemma set_constant_in : forall blk (b : Builder E),
  In blk (constant_blocks (b_problem (set_constant true blk b))).
Proof. intros blk b. simpl. left; reflexivity. Qed.

Lemma seed_epoch_extends : forall lk lh tk tr t cs rt (b : Builder E),
  extends pose_block b (seed_epoch g lk lh tk tr t cs rt b).
Proof.
  intros. unfold seed_epoch.
  exists (if force2d_ (cfg g) then [B_rot_xy t; B_pos_z t] else []).
  destruct (force2d_ (cfg g));
    destruct (PrimFloat.ltb 0 (smoothing_ (cfg g)));
    try destruct (StdMap.pred_key _ _ _); simpl;
    (split; [reflexivity | repeat constructor]).
Qed.

Lemma bootstrap_epoch_extends : forall lk lh tk tr z (b : Builder E) bt,
  extends pose_block b (bootstrap_epoch g lk lh tk tr z b bt).
Proof.
  intros. unfold bootstrap_epoch.
  destruct (3 <? _)%nat; [|apply extends_refl].
  destruct (solvePnPRansac E _ _ z) as [rt|].
  - destruct (seed_epoch_extends lk lh tk tr (fst bt)
                (correspondences E (cfg g) lh tr (snd bt) z) rt
                (mkBuilder (b_wTb b) (b_problem b) (b_height b) (b_count b)
                   (b_attempts b ++
                    [mkAttempt lk tk (fst bt)
                       (List.length (obj (correspondences E (cfg g) lh tr (snd bt) z)))])
                   (b_fed b) (b_undefined b))) as [x [Hx Qx]].
    exists x. split; [exact Hx | exact Qx].
  - apply extends_same. reflexivity.
Qed.

Lemma bootstrap_tracker_extends : forall bundle lk lh z (b : Builder E) tt,
  extends (fun x => pose_block x \/ tracker_block x) b
    (bootstrap_tracker g bundle lk lh z b tt).
Proof.
  intros. unfold bootstrap_tracker.
  repeat (eapply extends_trans;
          [|apply set_constant_extends; right; exact I]).
  apply fold_left_related.
  - apply extends_refl.
  - apply extends_trans.
  - intros a x. eapply extends_weaken; [|apply bootstrap_epoch_extends].
    intros; left; assumption.
Qed.

Lemma bootstrap_trackers_extends : forall bundle lk lh z (b : Builder E),
  extends (fun x => is_vTl x = false) b
    (fold_left (bootstrap_tracker g bundle lk lh z) (trackers_ g) b).
Proof.
  intros. apply fold_left_related.
  - apply extends_refl.
  - apply extends_trans.
  - intros a x. eapply extends_weaken; [|apply bootstrap_tracker_extends].
    intros [] [H|H]; simpl in *; try contradiction; reflexivity.
Qed.

(** A turn of the lighthouse loop adds the lighthouse's own pose block when
    it is the first or lighthouses are not refined, and no pose block of
    any other lighthouse. *)
Lemma bootstrap_lighthouse_extends : forall bundle z first (b : Builder E) lt,
  extends (fun x => is_vTl x = false \/
                    (x = B_vTl (fst lt) /\
                     (negb (refine_lighthouses_ (cfg g)) || first) = true))
    b (bootstrap_lighthouse g bundle z first b lt).
Proof.
  intros. unfold bootstrap_lighthouse.
  eapply extends_trans; [|apply set_constant_extends; left; reflexivity].
  eapply extends_trans.
  - eapply extends_weaken; [|apply bootstrap_trackers_extends].
    intros x H; left; exact H.
  - unfold set_constant.
    destruct (negb (refine_lighthouses_ (cfg g)) || first) eqn:F;
      [|apply extends_refl].
    exists [B_vTl (fst lt)]. split; [reflexivity|].
    constructor; [right; auto | constructor].
Qed.

Lemma bootstrap_lighthouse_own : forall bundle z first (b : Builder E) lt,
  (negb (refine_lighthouses_ (cfg g)) || first) = true ->
  In (B_vTl (fst lt))
     (constant_blocks (b_problem (bootstrap_lighthouse g bundle z first b lt))).
Proof.
  intros bundle z first b lt F. unfold bootstrap_lighthouse. rewrite F.
  eapply extends_in.
  - apply (set_constant_extends (fun _ => True)). exact I.
  - apply set_constant_in.
Qed.

End Constants.

(** ** What [Solve] returns *)

Section SolveFacts.
Context (E : Env) (now : nat -> Time) (g : Globals).

Let bundle := bundle_measurements E (res_ (cfg g)) (measurements_ g).
Let built : Builder E := bootstrap g bundle.
Let seeded : list (Time * Pose) :=
  if force2d_ (cfg g)
  then map (flatten (Statistic_Mean E (b_height built))) (b_wTb built)
  else b_wTb built.
Let old : Values := read_values g seeded.
Let answer := ceres_Solve E (options_ (cfg g)) (b_problem built) old.
Let final : Values := solved_values (b_problem built) old (fst answer).

Lemma Solve_cases : forall r,
  Solve E now g = Returned r ->
  (measurements_ g = [] /\
   r = mkResult false g no_outputs (mkProblem [] []) [] [] []) \/
  (measurements_ g <> [] /\ b_undefined built = false /\
   ret r = snd answer /\
   globals_after r = write_globals final g /\
   wTb_after r = map (write_wTb final) seeded /\
   problem_built r = b_problem built /\
   heights_fed r = b_fed built /\
   pnp_attempts r = b_attempts built).
Proof.
  intros r H. unfold Solve in H.
  destruct (measurements_ g) as [|m ms] eqn:Hm.
  - left. split; [reflexivity|]. inversion H; reflexivity.
  - right. split; [discriminate|].
    fold bundle in H. fold built in H.
    destruct (b_undefined built) eqn:Hu; [discriminate|].
    split; [reflexivity|].
    fold seeded old in H. fold answer in H.
    unfold final. destruct answer as [new usable]. simpl.
    inversion H; subst r; simpl. repeat split; reflexivity.
Qed.

Hypothesis ceres_ok : honours_constant E.

Lemma constant_block_kept : forall blk i,
  In blk (constant_blocks (b_problem built)) -> final blk i = old blk i.
Proof.
  intros blk i H. unfold final, solved_values.
  destruct (mem_block blk (parameter_blocks (b_problem built))); [|reflexivity].
  unfold answer. apply ceres_ok. exact H.
Qed.

End SolveFacts.

Lemma pose_build_get : forall (f : nat -> float) p,
  (forall i, f i = pose_get p i) -> pose_build f = p.
Proof.
  intros f [a0 a1 a2 a3 a4 a5] H. unfold pose_build.
  rewrite (H 0), (H 1), (H 2), (H 3), (H 4), (H 5). reflexivity.
Qed.

(** ** The lighthouse loop as a whole *)

Section Lighthouses.
Context {E : Env} (g : Globals) (bundle : BundleTable).

Lemma bootstrap_registration :
  refine_registration_ (cfg g) = false ->
  In B_wTv (constant_blocks (b_problem (bootstrap (E := E) g bundle))).
Proof.
  intros H. unfold bootstrap. rewrite H. apply set_constant_in.
Qed.

Lemma bootstrap_first : forall k lh rest,
  lighthouses_ g = (k, lh) :: rest ->
  In (B_vTl k) (constant_blocks (b_problem (bootstrap (E := E) g bundle))).
Proof.
  intros k lh rest H. unfold bootstrap. rewrite H.
  eapply extends_in; [apply (set_constant_extends (fun _ => True)); exact I|].
  eapply extends_in.
  - apply (fold_left_related (extends (fun _ => True))).
    + apply extends_refl.
    + apply extends_trans.
    + intros a x. eapply extends_weaken;
        [|apply (bootstrap_lighthouse_extends g bundle)]. auto.
  - apply (bootstrap_lighthouse_own g bundle _ true _ (k, lh)).
    apply orb_true_r.
Qed.

Lemma bootstrap_only_first : forall k lh rest l,
  refine_lighthouses_ (cfg g) = true ->
  lighthouses_ g = (k, lh) :: rest ->
  In (B_vTl l) (constant_blocks (b_problem (bootstrap (E := E) g bundle))) ->
  l = k.
Proof.
  intros k lh rest l Hr H Hin. unfold bootstrap in Hin. rewrite H in Hin.
  set (Q := fun x => is_vTl x = false \/ x = B_vTl k).
  match type of Hin with
  | In _ (constant_blocks (b_problem (set_constant ?f ?blk ?b1))) =>
      assert (X : extends Q
                    (mkBuilder (E := E) [] (mkProblem [] []) (Statistic_new E)
                               0%N [] [] false)
                    (set_constant f blk b1))
  end.
  { eapply extends_trans; [|apply set_constant_extends; left; reflexivity].
    eapply extends_trans.
    2:{ apply (fold_left_related (extends Q)).
        - apply extends_refl.
        - apply extends_trans.
        - intros a x. eapply extends_weaken;
            [|apply (bootstrap_lighthouse_extends g bundle)].
          intros y [Hy|[_ Hy]]; [left; exact Hy|].
          rewrite Hr in Hy. discriminate. }
    eapply extends_weaken;
      [|apply (bootstrap_lighthouse_extends g bundle _ true _ (k, lh))].
    intros x [Hx|[Hx _]]; [left; exact Hx | right; exact Hx]. }
  destruct (extends_inv _ _ _ _ X Hin) as [[Hq|Hq]|[]].
  - discriminate.
  - inversion Hq; reflexivity.
Qed.

Lemma fold_lighthouses_own : forall z rest (b : Builder E) lt,
  refine_lighthouses_ (cfg g) = false ->
  In lt rest ->
  In (B_vTl (fst lt))
     (constant_blocks (b_problem
        (fold_left (bootstrap_lighthouse g bundle z false) rest b))).
Proof.
  intros z rest b lt Hr. revert b.
  induction rest as [|x rest IH]; intros b Hin; [destruct Hin|].
  destruct Hin as [H|H]; simpl.
  - subst x. eapply extends_in.
    + apply (fold_left_related (extends (fun _ => True))).
      * apply extends_refl.
      * apply extends_trans.
      * intros a y. eapply extends_weaken;
          [|apply (bootstrap_lighthouse_extends g bundle)]. auto.
    + apply bootstrap_lighthouse_own. rewrite Hr. reflexivity.
  - apply IH. exact H.
Qed.

Lemma bootstrap_all : forall l x,
  refine_lighthouses_ (cfg g) = false ->
  In (l, x) (lighthouses_ g) ->
  In (B_vTl l) (constant_blocks (b_problem (bootstrap (E := E) g bundle))).
Proof.
  intros l x Hr Hin. unfold bootstrap.
  eapply extends_in; [apply (set_constant_extends (fun _ => True)); exact I|].
  destruct (lighthouses_ g) as [|lt rest]; [destruct Hin|].
  destruct Hin as [H|H].
  - subst lt. eapply extends_in.
    + apply (fold_left_related (extends (fun _ => True))).
      * apply extends_refl.
      * apply extends_trans.
      * intros a y. eapply extends_weaken;
          [|apply (bootstrap_lighthouse_extends g bundle)]. auto.
    + apply (bootstrap_lighthouse_own g bundle _ true _ (l, x)).
      apply orb_true_r.
  - apply (fold_lighthouses_own _ rest _ (l, x) Hr H).
Qed.

End Lighthouses.

Lemma Block_eqb_refl : forall b, Block_eqb b b = true.
Proof.
  destruct b as [|l|l|t|t|t|[s n]|[s n]|[s n]|[s n]]; simpl;
    try reflexivity; try apply String.eqb_refl;
    unfold time_eqb; simpl; rewrite !N.eqb_refl; reflexivity.
Qed.

Lemma mem_block_in : forall b l, In b l -> mem_block b l = true.
Proof.
  intros b l H. unfold mem_block. apply existsb_exists.
  exists b. split; [exact H | apply Block_eqb_refl].
Qed.

Lemma Demo_honours_constant : forall prev, honours_constant (Demo.env_with prev).
Proof.
  intros prev o p v b i H. simpl. rewrite (mem_block_in _ _ H). reflexivity.
Qed.

(** ** [Solve]: failure on an empty measurement set *)

(** C1. With no measurement stored, [Solve] returns [false]; the globals
    (registration, lighthouse poses and calibration vectors, tracker
    transforms) are those it was called with, nothing is published or
    written, and no problem is built. *)
Theorem Solve_without_measurements : forall E now g,
  measurements_ g = [] ->
  Solve E now g =
  Returned (mkResult false g no_outputs (mkProblem [] []) [] [] []).
Proof.
  intros E now g H. unfold Solve. rewrite H. reflexivity.
Qed.

Lemma Solve_without_measurements_witness :
  let g := Demo.globals (Demo.config true true false 10.0) [] in
  measurements_ g = [] /\
  Solve Demo.env Demo.now g =
  Returned (mkResult false g no_outputs (mkProblem [] []) [] [] []).
Proof.
  intros g. split; [reflexivity|].
  apply (Solve_without_measurements Demo.env Demo.now g). reflexivity.
Defined.

(** ** [Solve]: what is held constant stays as it was *)

(** C2. When [refine_registration_] is false, the six values of [wTv_]
    after [Solve] are those before it, for every measurement set and
    configuration (Ceres keeping constant blocks as they are). *)
Theorem frozen_registration_unchanged : forall E now g r,
  honours_constant E ->
  refine_registration_ (cfg g) = false ->
  Solve E now g = Returned r ->
  wTv_ (globals_after r) = wTv_ g.
Proof.
  intros E now g r Hc Hr H.
  destruct (Solve_cases E now g r H) as [[_ ->]|(_ & _ & _ & -> & _)];
    [reflexivity|].
  simpl. apply pose_build_get. intros i.
  rewrite (constant_block_kept E g Hc) by (apply bootstrap_registration, Hr).
  reflexivity.
Qed.

Lemma frozen_registration_unchanged_witness :
  let g := Demo.globals (Demo.config false false true 0.0) Demo.one_epoch in
  exists r, Solve Demo.env Demo.now g = Returned r /\ ret r = true /\
            wTv_ (globals_after r) = wTv_ g.
Proof.
  intros g. eexists. split; [vm_compute; reflexivity|].
  split; [reflexivity|].
  apply (frozen_registration_unchanged Demo.env Demo.now g _
           (Demo_honours_constant (fun _ => false)) eq_refl).
  vm_compute; reflexivity.
Defined.

(** C3, as the code has it. The pose block of the first lighthouse of the
    map is held constant whatever [refine_lighthouses_] says, and its six
    values are unchanged by [Solve]. It is the only lighthouse pose held
    constant when [refine_lighthouses_] is true; when it is false the pose
    of every lighthouse is held constant. *)
Theorem first_lighthouse_pose_held_constant : forall E now g r k lh rest,
  honours_constant E ->
  lighthouses_ g = (k, lh) :: rest ->
  Solve E now g = Returned r ->
  (exists lh' rest',
     lighthouses_ (globals_after r) = (k, lh') :: rest' /\ vTl lh' = vTl lh) /\
  (measurements_ g <> [] ->
   In (B_vTl k) (constant_blocks (problem_built r)) /\
   (refine_lighthouses_ (cfg g) = true ->
    forall l, In (B_vTl l) (constant_blocks (problem_built r)) -> l = k) /\
   (refine_lighthouses_ (cfg g) = false ->
    forall l x, In (l, x) (lighthouses_ g) ->
                In (B_vTl l) (constant_blocks (problem_built r)))).
Proof.
  intros E now g r k lh rest Hc Hl H.
  destruct (Solve_cases E now g r H)
    as [[Hm ->]|(Hm & _ & _ & Hg & _ & Hp & _)].
  - split; [|intros X; elim X; exact Hm].
    exists lh, rest. split; [exact Hl | reflexivity].
  - split.
    + rewrite Hg. simpl. rewrite Hl. simpl.
      eexists _, _. split; [reflexivity|]. simpl.
      apply pose_build_get. intros i.
      rewrite (constant_block_kept E g Hc)
        by (eapply bootstrap_first; exact Hl).
      simpl. unfold lighthouse_at, StdMap.at_or. rewrite Hl. simpl.
      rewrite string_ltb_irrefl. reflexivity.
    + intros _. rewrite Hp. split; [eapply bootstrap_first; exact Hl|].
      split.
      * intros Hr l. eapply bootstrap_only_first; eauto.
      * intros Hr l x. apply bootstrap_all. exact Hr.
Qed.

Lemma first_lighthouse_pose_held_constant_witness :
  let g := Demo.globals (Demo.config true true true 0.0) Demo.two_epochs in
  exists r, Solve Demo.env Demo.now g = Returned r /\ ret r = true /\
    (exists lh' rest',
       lighthouses_ (globals_after r) = ("L1"%string, lh') :: rest' /\
       vTl lh' = vTl (Demo.lh 1.0)) /\
    filter is_vTl (constant_blocks (problem_built r)) = [B_vTl "L1"].
Proof.
  intros g. eexists. split; [vm_compute; reflexivity|].
  split; [reflexivity|]. split; [|reflexivity].
  refine (proj1 (first_lighthouse_pose_held_constant Demo.env Demo.now g _
                   "L1"%string (Demo.lh 1.0) _ (Demo_honours_constant (fun _ => false))
                   eq_refl _)).
  vm_compute; reflexivity.
Defined.

(** C3, as the claim words it ("exactly one"), fails: with
    [refine_lighthouses_] false and two lighthouses, both of which
    bootstrap an epoch, the pose blocks of both are held constant. *)
Lemma two_lighthouse_poses_held_constant :
  let g := Demo.globals (Demo.config false true false 0.0) Demo.one_epoch in
  exists r, Solve Demo.env Demo.now g = Returned r /\
    refine_lighthouses_ (cfg g) = false /\
    filter is_vTl (constant_blocks (problem_built r)) =
    [B_vTl "L2"; B_vTl "L1"] /\
    filter is_vTl (parameter_blocks (problem_built r)) =
    [B_vTl "L1"; B_vTl "L2"].
Proof.
  intros g. eexists. split; [vm_compute; reflexivity|]. repeat split.
Qed.

(** ** Bootstrapping one epoch *)

Lemma add_sensor_obj : forall E c lh tr sm z acc s,
  List.length (obj (add_sensor E c lh tr sm z acc s)) =
  List.length (obj acc) + (if valid_sensor sm s then 1 else 0).
Proof.
  intros. unfold add_sensor, valid_sensor.
  destruct (samples sm (N.of_nat s) 0) as [|x0 v0]; simpl Mean; cbv iota;
    [simpl; lia|].
  destruct (samples sm (N.of_nat s) 1) as [|x1 v1]; simpl Mean; cbv iota;
    [simpl; lia|].
  destruct (Correct E _ _ _) as [c0 c1]. simpl. rewrite length_app. reflexivity.
Qed.

Lemma correspondences_fold : forall E c lh tr sm z l acc,
  List.length (obj (fold_left (add_sensor E c lh tr sm z) l acc)) =
  List.length (obj acc) + List.length (filter (valid_sensor sm) l).
Proof.
  induction l as [|s l IH]; intros acc; simpl; [lia|].
  rewrite IH, add_sensor_obj. destruct (valid_sensor sm s); simpl; lia.
Qed.

(** The correspondences found are the sensors seen on both axes. *)
Lemma correspondences_count : forall E c lh tr sm z,
  List.length (obj (correspondences E c lh tr sm z)) = valid_count E sm.
Proof.
  intros. unfold correspondences, valid_count.
  rewrite correspondences_fold. reflexivity.
Qed.

Lemma seed_epoch_attempts : forall E g lk lh tk tr t cs rt (b : Builder E),
  b_attempts (seed_epoch g lk lh tk tr t cs rt b) = b_attempts b.
Proof.
  intros. unfold seed_epoch.
  destruct (PrimFloat.ltb 0 (smoothing_ (cfg g)));
    try destruct (StdMap.pred_key _ _ _); reflexivity.
Qed.

(** One turn of the epoch loop, with [n] the number of sensors
    [0 .. NUM_SENSORS-1] that have a sample on both axes in the epoch:
    with [n < 4] the turn changes nothing; with [4 <= n],
    [solvePnPRansac] is given the [n] points, and what it answers decides
    whether the epoch is seeded. *)
Lemma bootstrap_epoch_cases : forall E g lk lh tk tr z (b : Builder E) t sm,
  let n := valid_count E sm in
  let cs := correspondences E (cfg g) lh tr sm z in
  let b1 := mkBuilder (b_wTb b) (b_problem b) (b_height b) (b_count b)
              (b_attempts b ++ [mkAttempt lk tk t n]) (b_fed b)
              (b_undefined b) in
  let b' := bootstrap_epoch g lk lh tk tr z b (t, sm) in
  List.length (obj cs) = n /\
  (n < 4 -> b' = b) /\
  (4 <= n ->
   b_attempts b' = b_attempts b ++ [mkAttempt lk tk t n] /\
   match solvePnPRansac E (obj cs) (img cs) z with
   | Some rt =>
       b_wTb b' = b_wTb (seed_epoch g lk lh tk tr t cs rt b1) /\
       b_problem b' = b_problem (seed_epoch g lk lh tk tr t cs rt b1)
   | None => b_wTb b' = b_wTb b /\ b_problem b' = b_problem b
   end).
Proof.
  intros E g lk lh tk tr z b t sm n cs b1 b'.
  assert (Hn : List.length (obj cs) = n) by apply correspondences_count.
  split; [exact Hn|]. split.
  - intros H. unfold b', bootstrap_epoch. simpl fst; simpl snd.
    fold cs. rewrite Hn.
    replace (3 <? n) with false by (symmetry; apply Nat.ltb_ge; lia).
    reflexivity.
  - intros H. unfold b', bootstrap_epoch. simpl fst; simpl snd.
    fold cs. rewrite Hn.
    replace (3 <? n) with true by (symmetry; apply Nat.ltb_lt; lia).
    fold b1.
    destruct (solvePnPRansac E (obj cs) (img cs) z) as [rt|]; simpl;
      [rewrite seed_epoch_attempts|]; auto.
Qed.

(** ** The motion cost *)

(** Writing the entry of [t] does not change what precedes [t]. *)
Lemma pred_key_set : forall t (v : Pose) m,
  StdMap.pred_key time_ltb t (StdMap.set time_ltb t v m) =
  StdMap.pred_key time_ltb t m.
Proof.
  induction m as [|[k p] r IH]; simpl.
  - rewrite time_ltb_irrefl. reflexivity.
  - destruct (time_ltb t k) eqn:E1; simpl.
    + rewrite time_ltb_irrefl.
      rewrite (lt_asym time_ltb time_ltb_irrefl time_ltb_trans _ _ E1).
      reflexivity.
    + destruct (time_ltb k t) eqn:E2; simpl; rewrite E2; [|reflexivity].
      rewrite IH. reflexivity.
Qed.

(** X1. Under a positive smoothing weight, seeding an epoch that has a
    predecessor among the entries of [wTb] adds the bearing block and then
    a motion block from the predecessor to the epoch. *)
Lemma seed_epoch_links_predecessor :
  forall E g lk lh tk tr t cs rt (b : Builder E) p,
  PrimFloat.ltb 0 (smoothing_ (cfg g)) = true ->
  StdMap.pred_key time_ltb t (b_wTb b) = Some p ->
  residual_blocks (b_problem (seed_epoch g lk lh tk tr t cs rt b)) =
  residual_blocks (b_problem b) ++
  [mkResidual (GroupCost (group cs)) (group_blocks lk tk t);
   mkResidual MotionCost (motion_blocks p t)] /\
  b_undefined (seed_epoch g lk lh tk tr t cs rt b) = b_undefined b.
Proof.
  intros E g lk lh tk tr t cs rt b p Hs Hp. unfold seed_epoch. rewrite Hs.
  destruct (force2d_ (cfg g)); rewrite !pred_key_set, Hp; simpl;
    rewrite <- app_assoc; split; reflexivity.
Qed.

(** The first pose seeded under a positive smoothing weight asks for the
    predecessor of [wTb.begin()]. *)
Lemma first_seed_undefined : forall E g lk lh tk tr t cs rt (b : Builder E),
  prev_of_begin_is_begin E [t] = false ->
  PrimFloat.ltb 0 (smoothing_ (cfg g)) = true ->
  b_wTb b = [] ->
  b_undefined (seed_epoch g lk lh tk tr t cs rt b) = true.
Proof.
  intros E g lk lh tk tr t cs rt b Hp Hs Hw. unfold seed_epoch.
  rewrite Hs, Hw. simpl. rewrite time_ltb_irrefl.
  destruct (force2d_ (cfg g)); simpl; rewrite ?time_ltb_irrefl; simpl;
    rewrite Hp; apply orb_true_r.
Qed.

(** The six residuals of a motion block. *)
Lemma MotionCost_eval_spec : forall s a0 a1 a2 a3 a4 a5 b0 b1 b2 b3 b4 b5,
  MotionCost_eval s (a0, a1) a2 (a3, a4) a5 (b0, b1) b2 (b3, b4) b5 =
  [ (a0 - b0) * s; (a1 - b1) * s; (a2 - b2) * s;
    (a3 - b3) * s; (a4 - b4) * s; (a5 - b5) * s ]%float.
Proof. reflexivity. Qed.

Section NoSmoothing.
Context {E : Env} (g : Globals).
Hypothesis smoothing_off : PrimFloat.ltb 0 (smoothing_ (cfg g)) = false.

Lemma motion_free_same : forall (b b' : Builder E),
  residual_blocks (b_problem b') = residual_blocks (b_problem b) ->
  motion_free b -> motion_free b'.
Proof. intros b b' H. unfold motion_free. rewrite H. auto. Qed.

Lemma seed_epoch_motion_free : forall lk lh tk tr t cs rt (b : Builder E),
  motion_free b -> motion_free (seed_epoch g lk lh tk tr t cs rt b).
Proof.
  intros lk lh tk tr t cs rt b H. unfold seed_epoch, motion_free.
  rewrite smoothing_off.
  destruct (force2d_ (cfg g)); simpl;
    (apply Forall_app; split; [exact H | repeat constructor]).
Qed.

Lemma set_constant_motion_free : forall flag blk (b : Builder E),
  motion_free b -> motion_free (set_constant flag blk b).
Proof.
  intros flag blk b H. unfold set_constant. destruct flag; exact H.
Qed.

Lemma bootstrap_motion_free : forall bundle,
  motion_free (bootstrap (E := E) g bundle).
Proof.
  intros bundle. unfold bootstrap.
  assert (L : forall z first (b : Builder E) lt,
             motion_free b ->
             motion_free (bootstrap_lighthouse g bundle z first b lt)).
  { intros z first b lt H. unfold bootstrap_lighthouse.
    do 2 apply set_constant_motion_free.
    apply fold_left_invariant; [|exact H].
    intros a tt Ha. unfold bootstrap_tracker.
    do 3 apply set_constant_motion_free.
    apply fold_left_invariant; [|exact Ha].
    intros a' bt Ha'. unfold bootstrap_epoch.
    destruct (3 <? _)%nat; [|exact Ha'].
    match goal with
    | |- motion_free (mkBuilder _ (b_problem ?x) _ _ _ _ _) =>
        apply (motion_free_same x); [reflexivity|]
    end.
    destruct (solvePnPRansac E _ _ z) as [rt|].
    - apply seed_epoch_motion_free.
      apply (motion_free_same a'); [reflexivity | exact Ha'].
    - apply (motion_free_same a'); [reflexivity | exact Ha']. }
  apply set_constant_motion_free.
  assert (P0 : motion_free (mkBuilder (E := E) [] (mkProblem [] [])
                              (Statistic_new E) 0%N [] [] false))
    by constructor.
  destruct (lighthouses_ g) as [|lt rest]; [exact P0|].
  apply fold_left_invariant; [intros a x; apply L|]. apply L, P0.
Qed.

End NoSmoothing.

(** X2. Without a positive smoothing weight no motion block is added. *)
Lemma no_motion_block_without_smoothing : forall E now g r,
  PrimFloat.ltb 0 (smoothing_ (cfg g)) = false ->
  Solve E now g = Returned r ->
  Forall (fun rb => is_motion rb = false) (residual_blocks (problem_built r)).
Proof.
  intros E now g r Hs H.
  destruct (Solve_cases E now g r H)
    as [[_ ->]|(_ & _ & _ & _ & _ & Hp & _)]; [constructor|].
  rewrite Hp. apply (bootstrap_motion_free g Hs).
Qed.

(** The scenario of the specification with one lighthouse: two epochs
    0.1 s apart, five sensors seen on both axes in each, smoothing weight
    10. Seeding the first epoch evaluates [std::prev] on [wTb.begin()];
    if that hands [begin()] back, one motion block links the two epochs. *)
Lemma one_lighthouse_two_epochs :
  let g := Demo.globals (Demo.config false true false 10.0) Demo.two_epochs in
  Solve Demo.env Demo.now g = Undefined /\
  exists r, Solve Demo.env_lenient Demo.now g = Returned r /\
    map blocks (filter is_motion (residual_blocks (problem_built r))) =
    [motion_blocks (mkTime 10 0) (mkTime 10 100000000)].
Proof.
  intros g. split; [vm_compute; reflexivity|].
  eexists. split; [vm_compute; reflexivity|]. reflexivity.
Qed.

(** C8 at the scenario of the specification with two lighthouses: two
    epochs 0.1 s apart, five sensors seen on both axes of both lighthouses
    in each, smoothing weight 10. Body poses are seeded for exactly the
    two epochs. Seeding the first evaluates [std::prev] on [wTb.begin()],
    which is undefined; and where that hands [begin()] back, each of the
    two lighthouses adds a motion block for the same pair of epochs when
    it seeds the second one: two motion blocks, not exactly one. *)
Theorem two_lighthouses_two_epochs :
  let g := Demo.globals (Demo.config false true false 10.0)
             Demo.two_epochs_both in
  Solve Demo.env Demo.now g = Undefined /\
  exists r, Solve Demo.env_lenient Demo.now g = Returned r /\
    map fst (wTb_after r) = [mkTime 10 0; mkTime 10 100000000] /\
    map blocks (filter is_motion (residual_blocks (problem_built r))) =
    [motion_blocks (mkTime 10 0) (mkTime 10 100000000);
     motion_blocks (mkTime 10 0) (mkTime 10 100000000)].
Proof.
  intros g. split; [vm_compute; reflexivity|].
  eexists. split; [vm_compute; reflexivity|]. split; reflexivity.
Qed.

(** ** The trigger and the event loop *)

(** The steps of the event loop for a trigger are [TriggerCallback]. *)
Lemma TriggerCallback_steps : forall E now g res out g',
  TriggerCallback E now g = Done res out g' ->
  (recording_ g = false /\ step E (mkNode Spinning g) (mkNode Spinning g')) \/
  (recording_ g = true /\ step E (mkNode Spinning g) (mkNode Solving g) /\
   step E (mkNode Solving g) (mkNode Spinning g')).
Proof.
  intros E now g res out g' H. unfold TriggerCallback in H.
  destruct (recording_ g) eqn:Hr.
  - right. split; [reflexivity|]. split; [constructor; exact Hr|].
    destruct (Solve E now g) as [r|] eqn:Hs; [|discriminate].
    inversion H; subst. econstructor; exact Hs.
  - left. split; [reflexivity|]. inversion H; subst. constructor; exact Hr.
Qed.

(** C9, as the code has it. While a solve is in progress [recording_] is
    still true: it is toggled after [Solve] has returned and the
    measurements and corrections have been cleared. The only step the
    event loop takes from there is the return of the solve, so no ingestion
    callback runs in between. *)
Theorem recording_still_set_while_solving : forall E n,
  reachable E n ->
  phase n = Solving ->
  recording_ (globals n) = true /\
  (forall n', step E n n' ->
     phase n' = Spinning /\ recording_ (globals n') = false /\
     measurements_ (globals n') = [] /\ corrections_ (globals n') = []).
Proof.
  intros E n Hreach Hphase. split.
  - destruct Hreach as [g|n0 n Hr Hs]; [discriminate|].
    destruct Hs; simpl in Hphase; try discriminate. simpl. assumption.
  - intros n' Hs. destruct Hs; simpl in Hphase; try discriminate.
    simpl. auto.
Qed.

Lemma recording_still_set_while_solving_witness :
  let g := mkGlobals (Demo.config false true false 10.0) [] [] [] [] false
             Demo.zero false in
  let n := mkNode Solving (with_recording true g) in
  reachable Demo.env n /\ recording_ (globals n) = true.
Proof.
  intros g n.
  assert (R : reachable Demo.env n).
  { eapply reach_step; [eapply reach_step; [apply (reach_start _ g)|]|].
    - reflexivity.
    - reflexivity.
    - apply step_trigger_start. reflexivity.
    - apply step_trigger_solve. reflexivity. }
  split; [exact R|].
  exact (proj1 (recording_still_set_while_solving Demo.env n R eq_refl)).
Defined.

(** C9, as the claim words it, fails: after a trigger that starts the
    recording and a second trigger, the node is inside [Solve] with
    [recording_] true. *)
Lemma solving_while_recording :
  ~ (forall n, reachable Demo.env n -> phase n = Solving ->
               recording_ (globals n) = false).
Proof.
  intros H.
  pose (g := mkGlobals (Demo.config false true false 10.0) [] [] [] [] false
               Demo.zero false).
  assert (R : reachable Demo.env (mkNode Solving (with_recording true g))).
  { eapply reach_step; [eapply reach_step; [apply (reach_start _ g)|]|].
    - reflexivity.
    - reflexivity.
    - apply step_trigger_start. reflexivity.
    - apply step_trigger_solve. reflexivity. }
  specialize (H _ R eq_refl). discriminate H.
Qed.

(** ** The planar constraint *)

Lemma set_set : forall {V : Type} t (v1 v2 : V) m,
  StdMap.set time_ltb t v2 (StdMap.set time_ltb t v1 m) =
  StdMap.set time_ltb t v2 m.
Proof.
  induction m as [|[k v] r IH]; simpl.
  - rewrite time_ltb_irrefl. reflexivity.
  - destruct (time_ltb t k) eqn:E1; simpl.
    + rewrite time_ltb_irrefl. reflexivity.
    + destruct (time_ltb k t) eqn:E2; simpl; rewrite E1, E2;
        [rewrite IH|]; reflexivity.
Qed.

Lemma sorted_map : forall {V : Type} (f : Time * V -> Time * V) m,
  (forall x, fst (f x) = fst x) ->
  sorted time_ltb m -> sorted time_ltb (map f m).
Proof.
  intros V f m Hf. induction m as [|kv r IH]; simpl; [auto|].
  intros [Hall Hs]. split; [|auto].
  apply Forall_map. eapply Forall_impl; [|exact Hall].
  intros e He. simpl. rewrite !Hf. exact He.
Qed.

Section Planar.
Context {E : Env} (g : Globals).
Hypothesis planar_on : force2d_ (cfg g) = true.

Lemma planar_same : forall (b b' : Builder E),
  b_wTb b' = b_wTb b -> b_height b' = b_height b -> b_fed b' = b_fed b ->
  (forall x, In x (constant_blocks (b_problem b)) ->
             In x (constant_blocks (b_problem b'))) ->
  planar b -> planar b'.
Proof.
  intros b b' Hw Hh Hf Hc (Hs & Hm & Hp). unfold planar.
  rewrite Hw, Hh, Hf. split; [exact Hs|]. split; [exact Hm|].
  intros e p Hin. destruct (Hp e p Hin) as (A & B & C & D). auto.
Qed.

Lemma seed_epoch_planar : forall lk lh tk tr t cs rt (b : Builder E),
  planar b -> planar (seed_epoch g lk lh tk tr t cs rt b).
Proof.
  intros lk lh tk tr t cs rt b (Hs & Hm & Hp).
  set (obs := compose_chain E (wTv_ g) (vTl lh) rt (tTh tr) (bTh tr)).
  set (flat := mkPose (p0 obs) (p1 obs) (p2 obs) 0 0 (p5 obs)).
  assert (Hw : b_wTb (seed_epoch g lk lh tk tr t cs rt b) =
               StdMap.set time_ltb t flat (b_wTb b)).
  { unfold seed_epoch. rewrite planar_on. fold obs. fold flat. rewrite set_set.
    destruct (PrimFloat.ltb 0 (smoothing_ (cfg g)));
      try destruct (StdMap.pred_key _ _ _); reflexivity. }
  assert (Hh : b_height (seed_epoch g lk lh tk tr t cs rt b) =
               Feed E (b_height b) (p2 obs) /\
               b_fed (seed_epoch g lk lh tk tr t cs rt b) = b_fed b ++ [p2 obs]).
  { unfold seed_epoch. fold obs.
    destruct (PrimFloat.ltb 0 (smoothing_ (cfg g)));
      try destruct (StdMap.pred_key _ _ _); split; reflexivity. }
  assert (Hc : constant_blocks (b_problem (seed_epoch g lk lh tk tr t cs rt b)) =
               B_rot_xy t :: B_pos_z t :: constant_blocks (b_problem b)).
  { unfold seed_epoch. rewrite planar_on.
    destruct (PrimFloat.ltb 0 (smoothing_ (cfg g)));
      try destruct (StdMap.pred_key _ _ _); reflexivity. }
  destruct Hh as [Hh Hf]. unfold planar. rewrite Hw, Hh, Hf, Hc.
  split.
  { apply sorted_set;
      first [exact time_ltb_irrefl | exact time_ltb_trans
            | exact time_ltb_total | exact Hs]. }
  split; [rewrite fold_left_app, <- Hm; reflexivity|].
  intros e p Hin. apply in_set_inv in Hin.
  destruct Hin as [Hin|[Hv Hk]].
  - destruct (Hp e p Hin) as (A & B & C & D).
    repeat split; auto; right; right; assumption.
  - assert (e = t) by (destruct Hk as [|[]]; auto using time_ltb_total).
    subst e p. simpl. repeat split; auto.
Qed.

Lemma bootstrap_epoch_planar : forall lk lh tk tr z (b : Builder E) bt,
  planar b -> planar (bootstrap_epoch g lk lh tk tr z b bt).
Proof.
  intros lk lh tk tr z b bt H. unfold bootstrap_epoch.
  destruct (3 <? _)%nat; [|exact H].
  match goal with
  | |- planar (mkBuilder (b_wTb ?x) _ _ _ _ _ _) =>
      apply (planar_same x); try reflexivity; [auto|]
  end.
  destruct (solvePnPRansac E _ _ z) as [rt|].
  - apply seed_epoch_planar.
    apply (planar_same b); try reflexivity; [auto | exact H].
  - apply (planar_same b); try reflexivity; [auto | exact H].
Qed.

Lemma set_constant_planar : forall flag blk (b : Builder E),
  planar b -> planar (set_constant flag blk b).
Proof.
  intros flag blk b H. unfold set_constant. destruct flag; [|exact H].
  apply (planar_same b); try reflexivity; [|exact H].
  intros x Hx. simpl. right; exact Hx.
Qed.

Lemma bootstrap_planar : forall bundle, planar (bootstrap (E := E) g bundle).
Proof.
  intros bundle. unfold bootstrap.
  assert (L : forall z first (b : Builder E) lt,
             planar b -> planar (bootstrap_lighthouse g bundle z first b lt)).
  { intros z first b lt H. unfold bootstrap_lighthouse.
    do 2 apply set_constant_planar.
    apply fold_left_invariant; [|exact H].
    intros a tt Ha. unfold bootstrap_tracker.
    do 3 apply set_constant_planar.
    apply fold_left_invariant; [|exact Ha].
    intros a' bt. apply bootstrap_epoch_planar. }
  apply set_constant_planar.
  assert (P0 : planar (mkBuilder (E := E) [] (mkProblem [] []) (Statistic_new E)
                         0%N [] [] false)).
  { split; [exact I|]. split; [reflexivity|]. intros e p []. }
  destruct (lighthouses_ g) as [|lt rest]; [exact P0|].
  apply fold_left_invariant; [intros a x; apply L|]. apply L, P0.
Qed.

End Planar.

(** C7. Under [force2d_], in every pose of the trajectory a solve returns
    with, so after a successful one, the vertical position is the mean,
    as the [Statistic] accumulator gives it, of the heights the bootstrap
    seeded, and the two horizontal-axis rotation components are the 0 they
    were set to (Ceres keeping constant blocks as they are). *)
Theorem planar_poses_share_mean_height : forall E now g r,
  honours_constant E ->
  force2d_ (cfg g) = true ->
  Solve E now g = Returned r ->
  forall e p, In (e, p) (wTb_after r) ->
    p2 p = Statistic_Mean E
             (fold_left (Feed E) (heights_fed r) (Statistic_new E)) /\
    p3 p = 0%float /\ p4 p = 0%float.
Proof.
  intros E now g r Hc Hf H e p Hin.
  destruct (Solve_cases E now g r H)
    as [[_ ->]|(_ & _ & _ & _ & Hw & _ & Hfed & _)]; [destruct Hin|].
  rewrite Hw in Hin. rewrite Hfed. clear Hw Hfed H.
  set (bundle := bundle_measurements E (res_ (cfg g)) (measurements_ g)) in *.
  destruct (bootstrap_planar (E := E) g Hf bundle) as (Hs & Hm & Hp).
  rewrite Hf in Hin. rewrite <- Hm.
  set (M := Statistic_Mean E (b_height (bootstrap g bundle))) in *.
  set (seeded := map (flatten M) (b_wTb (bootstrap g bundle))) in *.
  apply in_map_iff in Hin. destruct Hin as [[e0 q0] [Heq Hin0]].
  assert (Hsorted : sorted time_ltb seeded)
    by (apply sorted_map; [reflexivity | exact Hs]).
  assert (Hat : wTb_at seeded e0 = q0).
  { unfold wTb_at, StdMap.at_or.
    rewrite (find_sorted time_ltb time_ltb_irrefl time_ltb_trans _ _ _
               Hsorted Hin0). reflexivity. }
  apply in_map_iff in Hin0. destruct Hin0 as [[e1 q1] [Heq1 Hin1]].
  unfold flatten in Heq1. simpl in Heq1. injection Heq1 as He Hq.
  destruct (Hp e1 q1 Hin1) as (A & B & C & D). rewrite He in C, D.
  pose proof (constant_block_kept E g Hc) as K. cbv zeta in K.
  rewrite Hf in K. fold bundle M seeded in K.
  unfold write_wTb in Heq. simpl in Heq. injection Heq as He' Hp'.
  rewrite <- Hp'. simpl.
  rewrite !K by assumption. simpl. rewrite Hat, <- Hq. simpl. auto.
Qed.

Lemma planar_poses_share_mean_height_witness :
  let g := Demo.globals (Demo.config true true true 10.0) Demo.two_epochs in
  exists r, Solve Demo.env_lenient Demo.now g = Returned r /\ ret r = true /\
    map fst (wTb_after r) = [mkTime 10 0; mkTime 10 100000000] /\
    heights_fed r = [2.0; 2.0]%float /\
    forall e p, In (e, p) (wTb_after r) ->
      p2 p = 2.0%float /\ p3 p = 0%float /\ p4 p = 0%float.
Proof.
  intros g. eexists. split; [vm_compute; reflexivity|].
  split; [reflexivity|]. split; [reflexivity|]. split; [reflexivity|].
  refine (planar_poses_share_mean_height Demo.env_lenient Demo.now g _
            (Demo_honours_constant _) eq_refl _).
  vm_compute; reflexivity.
Defined.

(** ** Bundling *)

Section UpdFacts.
Context {K V : Type} (lt : K -> K -> bool).

Lemma find_in_pair : forall (k : K) (v : V) m,
  StdMap.find lt k m = Some v -> exists k', In (k', v) m.
Proof.
  induction m as [|[k' v'] r IH]; simpl; [discriminate|].
  destruct (lt k k'); [discriminate|].
  destruct (lt k' k).
  - intros H. destruct (IH H) as [k'' Hk]. exists k''. right; exact Hk.
  - intros H. inversion H; subst. exists k'. left; reflexivity.
Qed.

Lemma at_or_cases : forall (d : V) (k : K) m,
  StdMap.at_or lt d k m = d \/ exists k', In (k', StdMap.at_or lt d k m) m.
Proof.
  intros d k m. unfold StdMap.at_or.
  destruct (StdMap.find lt k m) as [v|] eqn:H; [right|left; reflexivity].
  eapply find_in_pair; exact H.
Qed.

Lemma in_upd_inv : forall (d : V) (k k0 : K) (v : V) f m,
  In (k, v) (StdMap.upd lt d k0 f m) ->
  In (k, v) m \/ v = f (StdMap.at_or lt d k0 m).
Proof.
  intros d k k0 v f m H. unfold StdMap.upd in H.
  apply in_set_inv in H. destruct H as [H|[H _]]; auto.
Qed.

End UpdFacts.

Lemma in_epochs_of : forall e (b : BundleTable),
  In e (epochs_of b) <->
  exists trk lhs lhk bd,
    In (trk, lhs) b /\ In (lhk, bd) lhs /\ In e (StdMap.keys bd).
Proof.
  intros e b. unfold epochs_of. rewrite in_flat_map. split.
  - intros [[trk lhs] [H1 H2]]. simpl in H2. rewrite in_flat_map in H2.
    destruct H2 as [[lhk bd] [H2 H3]]. exists trk, lhs, lhk, bd. auto.
  - intros (trk & lhs & lhk & bd & H1 & H2 & H3).
    exists (trk, lhs). split; [exact H1|]. simpl. rewrite in_flat_map.
    exists (lhk, bd). auto.
Qed.

(** A sample is filed under the epoch given, and under no other. *)
Lemma push_sample_epochs : forall ts ls t s a x b e,
  In e (epochs_of (push_sample ts ls t s a x b)) ->
  e = t \/ In e (epochs_of b).
Proof.
  intros ts ls t s a x b e H.
  rewrite in_epochs_of in H. destruct H as (trk & lhs & lhk & bd & H1 & H2 & H3).
  unfold push_sample in H1. apply in_upd_inv in H1.
  destruct H1 as [H1|H1].
  { right. rewrite in_epochs_of. exists trk, lhs, lhk, bd. auto. }
  subst lhs. apply in_upd_inv in H2.
  set (lhs0 := StdMap.at_or String.ltb [] ts b) in *.
  assert (Hold : forall lhk' bd', In (lhk', bd') lhs0 ->
                   In e (StdMap.keys bd') -> In e (epochs_of b)).
  { intros lhk' bd' Hin He.
    destruct (at_or_cases String.ltb [] ts b) as [Hd|[k' Hk']];
      fold lhs0 in Hd || fold lhs0 in Hk'.
    - rewrite Hd in Hin. destruct Hin.
    - rewrite in_epochs_of. exists k', lhs0, lhk', bd'. auto. }
  destruct H2 as [H2|H2]; [right; eapply Hold; eauto|].
  subst bd. unfold StdMap.upd in H3. apply keys_set_inv in H3.
  destruct H3 as [H3|H3]; [left; exact H3 | right].
  set (bd0 := StdMap.at_or String.ltb [] ls lhs0) in *.
  destruct (at_or_cases String.ltb [] ls lhs0) as [Hd|[k' Hk']];
    fold bd0 in Hd || fold bd0 in Hk'.
  - change (In e (StdMap.keys bd0)) in H3. rewrite Hd in H3. destruct H3.
  - exact (Hold _ _ Hk' H3).
Qed.

Lemma bundle_measurement_epochs : forall E r b t m e,
  In e (epochs_of (bundle_measurement E r b (t, m))) ->
  e = epoch E r t \/ In e (epochs_of b).
Proof.
  intros E r b t m e. unfold bundle_measurement. simpl fst; simpl snd.
  generalize (pulses (light m)) as ps. intros ps. revert b.
  induction ps as [|pt ps IH]; intros b H; simpl in H; [right; exact H|].
  apply IH in H. destruct H as [H|H]; [left; exact H|].
  apply push_sample_epochs in H. exact H.
Qed.

Lemma bundle_measurements_epochs : forall E r m b e,
  In e (epochs_of (fold_left (bundle_measurement E r) m b)) ->
  In e (epochs_of b) \/ exists t, In t (StdMap.keys m) /\ e = epoch E r t.
Proof.
  induction m as [|[t x] m IH]; intros b e H; simpl in H; [left; exact H|].
  apply IH in H. destruct H as [H|[t' [H1 H2]]].
  - apply bundle_measurement_epochs in H. destruct H as [H|H]; [|left; exact H].
    right. exists t. split; [left; reflexivity | exact H].
  - right. exists t'. split; [right; exact H1 | exact H2].
Qed.

Lemma bundle_corrections_epochs : forall E r c corr e,
  In e (StdMap.keys (fold_left (bundle_correction E r) c corr)) ->
  In e (StdMap.keys corr) \/ exists t, In t (StdMap.keys c) /\ e = epoch E r t.
Proof.
  induction c as [|[t x] c IH]; intros corr e H; simpl in H; [left; exact H|].
  apply IH in H. destruct H as [H|[t' [H1 H2]]].
  - unfold bundle_correction in H. simpl fst in H; simpl snd in H.
    destruct (translation x) as [[x0 x1] x2].
    destruct (toAngleAxis E (rotation x)) as [[a0 a1] a2].
    apply keys_set_inv in H. destruct H as [H|H]; [|left; exact H].
    right. exists t. split; [left; reflexivity | exact H].
  - right. exists t'. split; [right; exact H1 | exact H2].
Qed.

(** The measurement map does not depend on the order in which
    observations with different stamps were stored. *)
Lemma stored_permutation : forall (a1 a2 : list (Time * Measurement)),
  Permutation a1 a2 -> NoDup (map fst a1) ->
  forall m,
    fold_left (fun m a => StdMap.set time_ltb (fst a) (snd a) m) a1 m =
    fold_left (fun m a => StdMap.set time_ltb (fst a) (snd a) m) a2 m.
Proof.
  induction 1 as [|x l l' Hp IH|x y l|l l' l'' H1 IH1 H2 IH2];
    intros Hnd m; simpl.
  - reflexivity.
  - apply IH. inversion Hnd; assumption.
  - rewrite (set_commute time_ltb time_ltb_irrefl time_ltb_trans time_ltb_total
               (fst x) (fst y)); [reflexivity|].
    simpl in Hnd. inversion Hnd as [|? ? Hnot _]; subst.
    intros Heq. apply Hnot. left. exact Heq.
  - rewrite IH1 by exact Hnd. apply IH2.
    eapply Permutation_NoDup; [|exact Hnd]. apply Permutation_map. exact H1.
Qed.

(** *** The keys form strict total orders *)

Lemma ascii_compare_trans : forall x y z,
  Ascii.compare x y = Lt -> Ascii.compare y z = Lt -> Ascii.compare x z = Lt.
Proof.
  intros x y z. unfold Ascii.compare. rewrite !N.compare_lt_iff. lia.
Qed.

Lemma string_compare_trans : forall a b c,
  String.compare a b = Lt -> String.compare b c = Lt -> String.compare a c = Lt.
Proof.
  induction a as [|x a IH]; intros [|y b] [|z c]; simpl; try discriminate; auto.
  destruct (Ascii.compare x y) eqn:Exy; try discriminate;
    destruct (Ascii.compare y z) eqn:Eyz; try discriminate; intros H1 H2.
  - apply Ascii.compare_eq_iff in Exy. subst y. rewrite Eyz. eauto.
  - apply Ascii.compare_eq_iff in Exy. subst y. rewrite Eyz. reflexivity.
  - apply Ascii.compare_eq_iff in Eyz. subst z. rewrite Exy. reflexivity.
  - rewrite (ascii_compare_trans _ _ _ Exy Eyz). reflexivity.
Qed.

Lemma string_ltb_trans : forall a b c,
  String.ltb a b = true -> String.ltb b c = true -> String.ltb a c = true.
Proof.
  unfold String.ltb. intros a b c H1 H2.
  destruct (String.compare a b) eqn:A; try discriminate.
  destruct (String.compare b c) eqn:B; try discriminate.
  rewrite (string_compare_trans _ _ _ A B). reflexivity.
Qed.

Lemma string_ltb_total : forall a b,
  String.ltb a b = false -> String.ltb b a = false -> a = b.
Proof.
  unfold String.ltb. intros a b H1 H2.
  rewrite String.compare_antisym in H2.
  destruct (String.compare a b) eqn:A; try discriminate.
  apply String.compare_eq_iff. exact A.
Qed.

Lemma N_ltb_trans : forall a b c : N,
  (a <? b)%N = true -> (b <? c)%N = true -> (a <? c)%N = true.
Proof. intros a b c. rewrite !N.ltb_lt. lia. Qed.

Lemma N_ltb_total : forall a b : N,
  (a <? b)%N = false -> (b <? a)%N = false -> a = b.
Proof. intros a b. rewrite !N.ltb_ge. lia. Qed.

(** Keys that are not ordered either way are equal keys. *)
Lemma string_equiv : forall a b,
  negb (String.ltb a b) && negb (String.ltb b a) = String.eqb a b.
Proof.
  intros a b. destruct (String.eqb_spec a b) as [->|Hne].
  - rewrite string_ltb_irrefl. reflexivity.
  - destruct (String.ltb a b) eqn:A; [reflexivity|].
    destruct (String.ltb b a) eqn:B; [reflexivity|].
    elim Hne. apply string_ltb_total; assumption.
Qed.

Lemma time_eqb_eq : forall a b, time_eqb a b = true <-> a = b.
Proof.
  intros [s n] [s' n']. unfold time_eqb. simpl.
  rewrite andb_true_iff, !N.eqb_eq. split.
  - intros [-> ->]. reflexivity.
  - intros H. inversion H. auto.
Qed.

Lemma time_equiv : forall a b,
  negb (time_ltb a b) && negb (time_ltb b a) = time_eqb a b.
Proof.
  intros a b. destruct (time_eqb a b) eqn:Eq.
  - apply time_eqb_eq in Eq. subst b. rewrite time_ltb_irrefl. reflexivity.
  - destruct (time_ltb a b) eqn:A; [reflexivity|].
    destruct (time_ltb b a) eqn:B; [reflexivity|].
    rewrite (time_ltb_total _ _ A B) in Eq.
    assert (X : time_eqb b b = true) by (apply time_eqb_eq; reflexivity).
    rewrite X in Eq. discriminate.
Qed.

Lemma N_equiv : forall a b : N,
  negb (a <? b)%N && negb (b <? a)%N = (a =? b)%N.
Proof.
  intros a b. destruct (N.eqb_spec a b) as [->|Hne].
  - rewrite N.ltb_irrefl. reflexivity.
  - destruct (a <? b)%N eqn:A; [reflexivity|].
    destruct (b <? a)%N eqn:B; [reflexivity|].
    elim Hne. apply N_ltb_total; assumption.
Qed.

(** *** What every bucket holds *)

Lemma at_or_upd_string : forall {V : Type} (d : V) k k0 f m,
  StdMap.at_or String.ltb d k (StdMap.upd String.ltb d k0 f m) =
  if String.eqb k k0 then f (StdMap.at_or String.ltb d k0 m)
  else StdMap.at_or String.ltb d k m.
Proof.
  intros. rewrite <- string_equiv.
  apply (at_or_upd String.ltb string_ltb_irrefl string_ltb_trans
           string_ltb_total).
Qed.

Lemma at_or_upd_time : forall {V : Type} (d : V) k k0 f m,
  StdMap.at_or time_ltb d k (StdMap.upd time_ltb d k0 f m) =
  if time_eqb k k0 then f (StdMap.at_or time_ltb d k0 m)
  else StdMap.at_or time_ltb d k m.
Proof.
  intros. rewrite <- time_equiv.
  apply (at_or_upd time_ltb time_ltb_irrefl time_ltb_trans time_ltb_total).
Qed.

Lemma at_or_upd_N : forall {V : Type} (d : V) k k0 f m,
  StdMap.at_or N.ltb d k (StdMap.upd N.ltb d k0 f m) =
  if (k =? k0)%N then f (StdMap.at_or N.ltb d k0 m)
  else StdMap.at_or N.ltb d k m.
Proof.
  intros. rewrite <- N_equiv.
  apply (at_or_upd N.ltb N.ltb_irrefl N_ltb_trans N_ltb_total).
Qed.

(** A pushed sample lands at the end of its own bucket, and in no other. *)
Lemma bucket_push_sample : forall ts ls t s0 a0 x b tr lh e s a,
  bucket (push_sample ts ls t s0 a0 x b) tr lh e s a =
  bucket b tr lh e s a ++
  (if String.eqb tr ts && String.eqb lh ls && time_eqb e t &&
      (a =? a0)%N && (s =? s0)%N
   then [x] else []).
Proof.
  intros. unfold bucket, push_sample, samples.
  rewrite at_or_upd_string.
  destruct (String.eqb_spec tr ts) as [->|]; simpl; [|symmetry; apply app_nil_r].
  rewrite at_or_upd_string.
  destruct (String.eqb_spec lh ls) as [->|]; simpl; [|symmetry; apply app_nil_r].
  rewrite at_or_upd_time.
  destruct (time_eqb e t) eqn:Et; simpl; [|symmetry; apply app_nil_r].
  apply time_eqb_eq in Et. subst e.
  rewrite at_or_upd_N.
  destruct (N.eqb_spec s s0) as [->|]; simpl.
  - rewrite at_or_upd_N.
    destruct (N.eqb_spec a a0) as [->|]; simpl; [reflexivity|symmetry; apply app_nil_r].
  - rewrite andb_false_r. symmetry; apply app_nil_r.
Qed.

Lemma bucket_bundle_measurement : forall E r b mt tr lh e s a,
  bucket (bundle_measurement E r b mt) tr lh e s a =
  bucket b tr lh e s a ++ brought E r tr lh e s a mt.
Proof.
  intros E r b mt tr lh e s a. unfold bundle_measurement, brought.
  fold (epoch E r (fst mt)).
  set (l := light (snd mt)).
  set (c := String.eqb tr (header_frame_id l) && String.eqb lh (lighthouse l) &&
            time_eqb e (epoch E r (fst mt)) && (a =? to_uint8 (axis l))%N).
  generalize (pulses l) as ps. intros ps. revert b.
  induction ps as [|pt ps IH]; intros b; simpl.
  - destruct c; simpl; symmetry; apply app_nil_r.
  - rewrite IH, bucket_push_sample. fold c. rewrite <- app_assoc. f_equal.
    destruct c; simpl; [|reflexivity].
    destruct (s =? to_uint8 (sensor pt))%N; reflexivity.
Qed.

(** A bucket holds the angles brought by the observations, in the order in
    which they are processed. *)
Lemma bucket_fold : forall E r l b tr lh e s a,
  bucket (fold_left (bundle_measurement E r) l b) tr lh e s a =
  bucket b tr lh e s a ++ flat_map (brought E r tr lh e s a) l.
Proof.
  induction l as [|mt l IH]; intros; simpl.
  - symmetry; apply app_nil_r.
  - rewrite IH, bucket_bundle_measurement, app_assoc. reflexivity.
Qed.

Section FindFacts.
Context {K V : Type} (lt : K -> K -> bool).
Hypothesis lt_total : forall a b, lt a b = false -> lt b a = false -> a = b.

Lemma find_some_in : forall (k : K) (v : V) m,
  StdMap.find lt k m = Some v -> In (k, v) m.
Proof.
  induction m as [|[k' v'] r IH]; simpl; [discriminate|].
  destruct (lt k k') eqn:A; [discriminate|].
  destruct (lt k' k) eqn:B.
  - intros H. right. apply IH. exact H.
  - intros H. inversion H; subst. left.
    rewrite (lt_total _ _ A B). reflexivity.
Qed.

Lemma at_or_in : forall (d : V) (k : K) m,
  StdMap.at_or lt d k m <> d -> In (k, StdMap.at_or lt d k m) m.
Proof.
  intros d k m. unfold StdMap.at_or.
  destruct (StdMap.find lt k m) as [v|] eqn:H.
  - intros _. apply find_some_in. exact H.
  - intros X. elim X. reflexivity.
Qed.

End FindFacts.

(** A bucket that holds a sample is a bucket of an epoch of the bundle. *)
Lemma bucket_epoch : forall (b : BundleTable) tr lh e s a,
  bucket b tr lh e s a <> [] -> In e (epochs_of b).
Proof.
  intros b tr lh e s a H. unfold bucket, samples in H.
  set (B1 := StdMap.at_or String.ltb [] tr b) in *.
  set (B2 := StdMap.at_or String.ltb [] lh B1) in *.
  set (SM := StdMap.at_or time_ltb [] e B2) in *.
  assert (H3 : SM <> []).
  { intros X. rewrite X in H. apply H. reflexivity. }
  assert (I3 : In (e, SM) B2) by (apply at_or_in; [exact time_ltb_total | exact H3]).
  assert (H2 : B2 <> []).
  { intros X. rewrite X in I3. destruct I3. }
  assert (I2 : In (lh, B2) B1)
    by (apply at_or_in; [exact string_ltb_total | exact H2]).
  assert (H1 : B1 <> []).
  { intros X. rewrite X in I2. destruct I2. }
  assert (I1 : In (tr, B1) b)
    by (apply at_or_in; [exact string_ltb_total | exact H1]).
  apply in_epochs_of. exists tr, B1, lh, B2.
  split; [exact I1|]. split; [exact I2|].
  unfold StdMap.keys. apply (in_map fst) in I3. exact I3.
Qed.

Lemma time_eqb_refl : forall t, time_eqb t t = true.
Proof. intros t. apply time_eqb_eq. reflexivity. Qed.

(** An observation without pulses files nothing. *)
Lemma bundle_measurements_sources : forall E r m b e,
  In e (epochs_of (fold_left (bundle_measurement E r) m b)) ->
  In e (epochs_of b) \/
  exists t x, In (t, x) m /\ pulses (light x) <> [] /\ e = epoch E r t.
Proof.
  induction m as [|[t x] m IH]; intros b e H; simpl in H; [left; exact H|].
  apply IH in H. destruct H as [H|(t' & x' & H1 & H2 & H3)].
  - destruct (pulses (light x)) as [|pt ps] eqn:Hp.
    + unfold bundle_measurement in H. simpl in H. rewrite Hp in H.
      left. exact H.
    + apply bundle_measurement_epochs in H. destruct H as [H|H]; [|left; exact H].
      right. exists t, x. split; [left; reflexivity|].
      split; [rewrite Hp; discriminate | exact H].
  - right. exists t', x'. split; [right; exact H1 | auto].
Qed.

Lemma bundle_correction_set : forall E r corr t x,
  bundle_correction E r corr (t, x) =
  StdMap.set time_ltb (epoch E r t) (correction_pose E x) corr.
Proof.
  intros. unfold bundle_correction, correction_pose. simpl.
  destruct (translation x) as [[x0 x1] x2].
  destruct (toAngleAxis E (rotation x)) as [[a0 a1] a2]. reflexivity.
Qed.

Lemma bundle_corrections_find : forall E r c e,
  StdMap.find time_ltb e (bundle_corrections E r c) =
  option_map (fun ct => correction_pose E (snd ct))
    (List.find (fun ct => time_eqb e (epoch E r (fst ct))) (rev c)).
Proof.
  intros E r c e. unfold bundle_corrections.
  induction c as [|[t x] c IH] using rev_ind; [reflexivity|].
  rewrite fold_left_app, rev_app_distr. simpl.
  rewrite bundle_correction_set.
  rewrite (find_set time_ltb time_ltb_irrefl time_ltb_trans time_ltb_total).
  rewrite time_equiv.
  destruct (time_eqb e (epoch E r t)); [reflexivity | exact IH].
Qed.

(** C6. For every resolution [r] (so for every [r > 0]), with
    [key t = ros::Time(round(t.toSec() / r) * r)], a function of the stamp
    and [r] alone: the samples of an observation stamped [t] are filed
    under [key t] and under no other time, so the epochs of the bundle are
    exactly the keys of the observations that have a pulse; the bundled
    corrections hold, under [key t] for each correction stamped [t] and
    under no other time, the pose of the last correction with that key. A
    bucket holds exactly the angles whose tracker, lighthouse, key, axis
    and sensor are its own, so in whatever order the observations are
    processed every bucket holds the same samples; and the bundle built
    from the measurement map is the same in whatever order the
    observations, with different stamps, were stored. *)
Theorem bundling_by_epoch_is_order_independent : forall E r,
  let key := fun t : Time => fromSec E (round E (toSec E t / r) * r)%float in
  (forall b t m e,
     In e (epochs_of (bundle_measurement E r b (t, m))) ->
     e = key t \/ In e (epochs_of b)) /\
  (forall m e,
     In e (epochs_of (bundle_measurements E r m)) <->
     exists t x, In (t, x) m /\ pulses (light x) <> [] /\ e = key t) /\
  (forall c e,
     StdMap.find time_ltb e (bundle_corrections E r c) =
     option_map
       (fun ct => let '(x0, x1, x2) := translation (snd ct) in
                  let '(a0, a1, a2) := toAngleAxis E (rotation (snd ct)) in
                  mkPose x0 x1 x2 a0 a1 a2)
       (List.find (fun ct => time_eqb e (key (fst ct))) (rev c))) /\
  (forall c e,
     In e (StdMap.keys (bundle_corrections E r c)) <->
     exists t, In t (StdMap.keys c) /\ e = key t) /\
  (forall m tr lh e s a,
     bucket (bundle_measurements E r m) tr lh e s a =
     flat_map (brought E r tr lh e s a) m) /\
  (forall m m' tr lh e s a,
     Permutation m m' ->
     Permutation (bucket (bundle_measurements E r m) tr lh e s a)
                 (bucket (bundle_measurements E r m') tr lh e s a)) /\
  (forall a1 a2,
     Permutation a1 a2 -> NoDup (map fst a1) ->
     bundle_measurements E r (stored_in_order a1) =
     bundle_measurements E r (stored_in_order a2)).
Proof.
  intros E r key.
  assert (K : forall t, epoch E r t = key t) by reflexivity.
  assert (B : forall m tr lh e s a,
            bucket (bundle_measurements E r m) tr lh e s a =
            flat_map (brought E r tr lh e s a) m).
  { intros. unfold bundle_measurements. rewrite bucket_fold. reflexivity. }
  split.
  { intros b t m e H. rewrite <- K.
    apply (bundle_measurement_epochs E r b t m e H). }
  split.
  { intros m e. split.
    - intros H. unfold bundle_measurements in H.
      apply bundle_measurements_sources in H. destruct H as [[]|H].
      destruct H as (t & x & H1 & H2 & H3). exists t, x. rewrite <- K. auto.
    - intros (t & x & H1 & H2 & H3). subst e.
      destruct (pulses (light x)) as [|pt ps] eqn:Hp; [elim H2; reflexivity|].
      apply (bucket_epoch _ (header_frame_id (light x)) (lighthouse (light x))
               (key t) (to_uint8 (sensor pt)) (to_uint8 (axis (light x)))).
      rewrite B. intros X.
      assert (Y : In (angle pt)
                    (flat_map (brought E r (header_frame_id (light x))
                                 (lighthouse (light x)) (key t)
                                 (to_uint8 (sensor pt))
                                 (to_uint8 (axis (light x)))) m)).
      { apply in_flat_map. exists (t, x). split; [exact H1|].
        unfold brought. simpl fst; simpl snd. fold (key t).
        rewrite !String.eqb_refl, time_eqb_refl, N.eqb_refl. simpl.
        rewrite Hp. simpl. rewrite N.eqb_refl. left; reflexivity. }
      rewrite X in Y. destruct Y. }
  assert (F : forall c e,
            StdMap.find time_ltb e (bundle_corrections E r c) =
            option_map (fun ct => correction_pose E (snd ct))
              (List.find (fun ct => time_eqb e (key (fst ct))) (rev c))).
  { intros c e. apply bundle_corrections_find. }
  split; [exact F|].
  split.
  { intros c e. split.
    - intros H. unfold bundle_corrections in H.
      apply bundle_corrections_epochs in H. destruct H as [[]|H].
      destruct H as (t & H1 & H2). exists t. rewrite <- K. auto.
    - intros (t & H1 & H2). subst e.
      unfold StdMap.keys in H1. apply in_map_iff in H1.
      destruct H1 as [[t' x] [Ht Hin]]. simpl in Ht. subst t'.
      destruct (List.find (fun ct => time_eqb (key t) (key (fst ct))) (rev c))
        as [ct|] eqn:Hf.
      + pose proof (F c (key t)) as X. rewrite Hf in X. simpl in X.
        apply (find_some_in time_ltb time_ltb_total) in X.
        unfold StdMap.keys. apply (in_map fst) in X. exact X.
      + assert (Hn := find_none _ _ Hf (t, x)).
        simpl in Hn. rewrite time_eqb_refl in Hn.
        assert (Hr : In (t, x) (rev c)) by (apply -> in_rev; exact Hin).
        specialize (Hn Hr). discriminate Hn. }
  split; [exact B|].
  split.
  - intros m m' tr lh e s a Hp. rewrite !B.
    apply Permutation_flat_map. exact Hp.
  - intros a1 a2 Hp Hnd. unfold stored_in_order.
    rewrite (stored_permutation a1 a2 Hp Hnd). reflexivity.
Qed.

Lemma bundling_by_epoch_is_order_independent_witness :
  let key := fun t : Time =>
    Demo.fromSec (Demo.round (Demo.toSec t / 0.1) * 0.1)%float in
  let m1 := (mkTime 10 0, mkMeasurement (Demo.sweep "L1" 0)) in
  let m2 := (mkTime 10 40000000, mkMeasurement (Demo.sweep "L1" 0)) in
  let m3 := (mkTime 10 60000000, mkMeasurement (Demo.sweep "L1" 0)) in
  let truth := mkTransformStamped "world" "body" (1, 2, 3)%float
                 (mkQuat 1 0 0 0) in
  let later := mkTransformStamped "world" "body" (4, 5, 6)%float
                 (mkQuat 1 0 0 0) in
  key (mkTime 10 40000000) = mkTime 10 0 /\
  key (mkTime 10 60000000) = mkTime 10 100000000 /\
  bucket (bundle_measurements Demo.env 0.1 [m1; m2; m3])
    "T1" "L1" (mkTime 10 0) 0 0 = [0.1; 0.1]%float /\
  bucket (bundle_measurements Demo.env 0.1 [m1; m2; m3])
    "T1" "L1" (mkTime 10 100000000) 0 0 = [0.1]%float /\
  StdMap.keys (bundle_corrections Demo.env 0.1
                 [(mkTime 10 10000000, truth); (mkTime 10 30000000, later)]) =
    [mkTime 10 0] /\
  StdMap.find time_ltb (mkTime 10 0)
    (bundle_corrections Demo.env 0.1
       [(mkTime 10 10000000, truth); (mkTime 10 30000000, later)]) =
    Some (mkPose 4 5 6 0 0 0) /\
  bundle_measurements Demo.env 0.1 (stored_in_order [m1; m2; m3]) =
  bundle_measurements Demo.env 0.1 (stored_in_order [m3; m1; m2]).
Proof.
  intros key m1 m2 m3 truth later.
  destruct (bundling_by_epoch_is_order_independent Demo.env 0.1%float)
    as (_ & _ & F & _ & B & _ & S).
  split; [vm_compute; reflexivity|]. split; [vm_compute; reflexivity|].
  split; [rewrite B; vm_compute; reflexivity|].
  split; [rewrite B; vm_compute; reflexivity|].
  split; [vm_compute; reflexivity|].
  split; [rewrite F; vm_compute; reflexivity|].
  apply S.
  - apply Permutation_sym. apply (Permutation_cons_append [m1; m2] m3).
  - vm_compute. repeat constructor; simpl; intuition discriminate.
Defined.

(** * Further properties *)

(** ** [LightCallback]: the erase loop and the gates *)

Lemma erase_loop_deleted : forall c it v d,
  it <= List.length v ->
  snd (erase_loop c it v d) =
  d + List.length (filter (rejected c) (firstn it v)).
Proof.
  induction it as [|i IH]; intros v d Hle; simpl erase_loop.
  - simpl. lia.
  - destruct (nth_error v i) as [p|] eqn:Hn.
    + destruct (nth_error_split _ _ _ Hn) as [H1 H2].
      assert (Hlen : List.length (firstn i v) = i)
        by (apply firstn_length_le; lia).
      rewrite H1, filter_app, length_app. simpl filter.
      destruct (rejected c p) eqn:Hr.
      * rewrite IH.
        2:{ unfold erase. rewrite length_app, Hlen. lia. }
        unfold erase.
        rewrite firstn_app, Hlen, Nat.sub_diag, firstn_O, app_nil_r.
        rewrite firstn_all2 by lia. simpl. lia.
      * rewrite IH by lia. simpl. lia.
    + apply nth_error_None in Hn. lia.
Qed.

(** X3. The backward erase loop of [LightCallback] leaves exactly the pulses
    that fail its test, in their order, and counts the others. *)
Theorem erase_loop_keeps_accepted : forall c v,
  erase_loop c (List.length v) v 0 =
  (filter (fun p => negb (rejected c p)) v,
   List.length (filter (rejected c) v)).
Proof.
  intros c v.
  pose proof (erase_loop_filter c (List.length v) v 0 (le_n _)) as H1.
  pose proof (erase_loop_deleted c (List.length v) v 0 (le_n _)) as H2.
  rewrite firstn_all in H1, H2. rewrite skipn_all, app_nil_r in H1.
  destruct (erase_loop c (List.length v) v 0) as [k n]. simpl in *.
  subst. reflexivity.
Qed.

Lemma kept_length : forall c (v : list Pulse),
  List.length (filter (fun p => negb (rejected c p)) v) <= List.length v.
Proof.
  intros c v. induction v as [|p v IH]; simpl; [lia|].
  destruct (negb (rejected c p)); simpl; lia.
Qed.

(** X4. A negative [thresh_count_] is compared as a huge unsigned count: no
    observation is ever stored. *)
Theorem LightCallback_negative_count_drops_all : forall msg now g,
  (- 2 ^ 31 <= thresh_count_ (cfg g) < 0)%Z ->
  (Z.of_nat (List.length (pulses msg)) < 2 ^ 32)%Z ->
  measurements_ (LightCallback msg now g) = measurements_ g.
Proof.
  intros msg now g Hc Hl. unfold LightCallback. simpl.
  destruct (negb (recording_ g) || _ || _); [reflexivity|].
  pose proof (erase_loop_all (cfg g) (pulses msg)) as Hf.
  destruct (erase_loop (cfg g) (List.length (pulses msg)) (pulses msg) 0)
    as [k n].
  simpl in Hf. subst k.
  pose proof (kept_length (cfg g) (pulses msg)) as Hk.
  unfold size_lt_int.
  replace (thresh_count_ (cfg g) mod 2 ^ 64)%Z
    with (thresh_count_ (cfg g) + 2 ^ 64)%Z.
  - replace (_ <? _)%Z with true by (symmetry; apply Z.ltb_lt; lia).
    reflexivity.
  - rewrite <- (Z.mod_add _ 1 (2 ^ 64)) by lia.
    rewrite Z.mod_small by lia. lia.
Qed.

Lemma LightCallback_negative_count_drops_all_witness :
  let c := mkConfig "" "world" "vive" "body" false 0.1 (-1) 60.0 1.0
             Demo.options true false false false false false true false 10.0 in
  let g := Demo.globals c [] in
  measurements_ (LightCallback (Demo.sweep "L1" 0) (Demo.now 0) g) = [].
Proof.
  intros c g.
  refine (LightCallback_negative_count_drops_all (Demo.sweep "L1" 0)
            (Demo.now 0) g _ _).
  - vm_compute. split; [intro H; discriminate H | reflexivity].
  - vm_compute. reflexivity.
Defined.

(** X5. [LightCallback] always restarts the timer and touches nothing but the
    measurement map; it leaves that map alone when the node is not
    recording, or the tracker or the lighthouse of the message is unknown
    or not ready. *)
Theorem LightCallback_gates : forall msg now g,
  LightCallback msg now g =
    with_timer true
      (with_measurements (measurements_ (LightCallback msg now g)) g) /\
  (recording_ g = false \/
   StdMap.find String.ltb (header_frame_id msg) (trackers_ g) = None \/
   (exists t, StdMap.find String.ltb (header_frame_id msg) (trackers_ g) = Some t /\
              tr_ready t = false) \/
   StdMap.find String.ltb (lighthouse msg) (lighthouses_ g) = None \/
   (exists l, StdMap.find String.ltb (lighthouse msg) (lighthouses_ g) = Some l /\
              lh_ready l = false) ->
   measurements_ (LightCallback msg now g) = measurements_ g).
Proof.
  intros msg now g. split.
  - unfold LightCallback. simpl.
    destruct (negb (recording_ g) || _ || _); [destruct g; reflexivity|].
    destruct (erase_loop _ _ _ _) as [k n].
    destruct (size_lt_int _ _); destruct g; reflexivity.
  - intros H. unfold LightCallback. simpl.
    assert (X : negb (recording_ g)
                || negb (is_ready_tracker (header_frame_id msg) (trackers_ g))
                || negb (is_ready_lighthouse (lighthouse msg) (lighthouses_ g))
                = true).
    { unfold is_ready_tracker, is_ready_lighthouse.
      destruct H as [H|[H|[[t [H1 H2]]|[H|[l [H1 H2]]]]]].
      - rewrite H. reflexivity.
      - rewrite H. simpl. rewrite orb_true_r. reflexivity.
      - rewrite H1, H2. simpl. rewrite orb_true_r. reflexivity.
      - rewrite H. simpl. apply orb_true_r.
      - rewrite H1, H2. simpl. apply orb_true_r. }
    rewrite X. reflexivity.
Qed.

(** X6. After an observation got through, looking its stamp up gives the
    observation cut down to the surviving pulses, also when the stamp was
    already taken; every other stamp gives what it gave before. *)
Theorem LightCallback_lookup : forall msg now g t,
  recording_ g = true ->
  is_ready_tracker (header_frame_id msg) (trackers_ g) = true ->
  is_ready_lighthouse (lighthouse msg) (lighthouses_ g) = true ->
  let kept := filter (fun p => negb (rejected (cfg g) p)) (pulses msg) in
  size_lt_int (List.length kept) (thresh_count_ (cfg g)) = false ->
  StdMap.find time_ltb t (measurements_ (LightCallback msg now g)) =
  if time_eqb t now
  then Some (mkMeasurement
               (mkLight (header_frame_id msg) (lighthouse msg) (axis msg) kept))
  else StdMap.find time_ltb t (measurements_ g).
Proof.
  intros msg now g t Hrec Htr Hlh kept Hs.
  unfold LightCallback. simpl. rewrite Hrec, Htr, Hlh. simpl.
  pose proof (erase_loop_all (cfg g) (pulses msg)) as Hf.
  destruct (erase_loop (cfg g) (List.length (pulses msg)) (pulses msg) 0)
    as [k n].
  simpl in Hf. subst k. fold kept. rewrite Hs. simpl.
  rewrite (find_set time_ltb time_ltb_irrefl time_ltb_trans time_ltb_total).
  rewrite time_equiv. reflexivity.
Qed.

Lemma LightCallback_lookup_witness :
  let g := Demo.globals (Demo.config false true false 10.0)
             [(Demo.now 0, mkMeasurement (Demo.sweep "L2" 1))] in
  let msg := Demo.sweep "L1" 0 in
  StdMap.find time_ltb (Demo.now 0)
    (measurements_ (LightCallback msg (Demo.now 0) g)) =
  Some (mkMeasurement msg) /\
  List.length (measurements_ (LightCallback msg (Demo.now 0) g)) = 1.
Proof.
  intros g msg. split; [|reflexivity].
  exact (LightCallback_lookup msg (Demo.now 0) g (Demo.now 0)
           eq_refl eq_refl eq_refl eq_refl).
Defined.

(** ** [CorrectionCallback] and the bundled corrections: the last one wins *)

Lemma correction_loop_cfg : forall now ts i g,
  cfg (correction_loop now i ts g) = cfg g.
Proof.
  intros now ts i g. rewrite correction_loop_frame. reflexivity.
Qed.

Lemma correction_loop_app : forall now l1 l2 i g,
  correction_loop now i (l1 ++ l2) g =
  correction_loop now (i + List.length l1) l2 (correction_loop now i l1 g).
Proof.
  induction l1 as [|t l1 IH]; intros l2 i g; simpl.
  - rewrite Nat.add_0_r. reflexivity.
  - rewrite IH. f_equal. lia.
Qed.

Lemma correction_loop_keeps : forall now k ts i g,
  (forall j u, nth_error ts j = Some u -> world_to_body (cfg g) u = true ->
               now (i + j) <> k) ->
  StdMap.find time_ltb k (corrections_ (correction_loop now i ts g)) =
  StdMap.find time_ltb k (corrections_ g).
Proof.
  induction ts as [|t r IH]; intros i g H; simpl; [reflexivity|].
  rewrite IH.
  - destruct (world_to_body (cfg g) t) eqn:Ht; [|reflexivity]. simpl.
    rewrite (find_set time_ltb time_ltb_irrefl time_ltb_trans time_ltb_total).
    rewrite time_equiv.
    destruct (time_eqb k (now i)) eqn:Hk; [|reflexivity].
    apply time_eqb_eq in Hk. elim (H 0 t eq_refl Ht).
    rewrite Nat.add_0_r. symmetry; exact Hk.
  - intros j u Hj Hu. replace (S i + j) with (i + S j) by lia.
    apply (H (S j) u Hj).
    destruct (world_to_body (cfg g) t); exact Hu.
Qed.

(** X7. While recording, a transform from [frame_world_] to [frame_body_] is
    found under the time read when it was visited, unless a later such
    transform of the same message was visited at the same time. *)
Theorem CorrectionCallback_lookup : forall pre t post now g,
  recording_ g = true ->
  world_to_body (cfg g) t = true ->
  (forall j u, nth_error post j = Some u -> world_to_body (cfg g) u = true ->
               now (S (List.length pre) + j) <> now (List.length pre)) ->
  StdMap.find time_ltb (now (List.length pre))
    (corrections_ (CorrectionCallback (pre ++ t :: post) now g)) = Some t.
Proof.
  intros pre t post now g Hrec Ht Hpost. unfold CorrectionCallback.
  rewrite Hrec. simpl. rewrite correction_loop_app. cbn [correction_loop].
  remember (correction_loop now 0 pre g) as g0 eqn:Hg0.
  assert (C0 : cfg g0 = cfg g) by (subst g0; apply correction_loop_cfg).
  rewrite C0, Ht. rewrite correction_loop_keeps.
  - simpl.
    rewrite (find_set time_ltb time_ltb_irrefl time_ltb_trans time_ltb_total).
    rewrite time_ltb_irrefl. reflexivity.
  - intros j u Hj Hu. simpl in Hu. rewrite C0 in Hu. simpl.
    apply (Hpost j u Hj Hu).
Qed.

Lemma CorrectionCallback_lookup_witness :
  let g := Demo.globals (Demo.config false true false 10.0) [] in
  let other := mkTransformStamped "world" "rviz" (0, 0, 0)%float
                 (mkQuat 1 0 0 0) in
  let t := mkTransformStamped "world" "body" (1, 2, 3)%float
             (mkQuat 1 0 0 0) in
  StdMap.find time_ltb (Demo.now 1)
    (corrections_ (CorrectionCallback [other; t; other] Demo.now g)) = Some t.
Proof.
  intros g other t.
  refine (CorrectionCallback_lookup [other] t [other] Demo.now g
            eq_refl eq_refl _).
  intros [|[|j]] u Hj Hu; simpl in Hj; try discriminate Hj.
  inversion Hj; subst u. vm_compute in Hu. discriminate Hu.
Defined.

(** X8. The pose bundled for an epoch is that of the last correction, in the
    order of the stamps, that falls in the epoch: corrections of one epoch
    are not averaged; an epoch no correction falls in has none. *)
Theorem bundle_corrections_last_wins : forall E r c e,
  StdMap.find time_ltb e (bundle_corrections E r c) =
  option_map (fun ct => correction_pose E (snd ct))
    (List.find (fun ct => time_eqb e (epoch E r (fst ct))) (rev c)).
Proof.
  intros E r c e. unfold bundle_corrections.
  induction c as [|[t x] c IH] using rev_ind; [reflexivity|].
  rewrite fold_left_app, rev_app_distr. simpl.
  rewrite bundle_correction_set.
  rewrite (find_set time_ltb time_ltb_irrefl time_ltb_trans time_ltb_total).
  rewrite time_equiv.
  destruct (time_eqb e (epoch E r t)); [reflexivity | exact IH].
Qed.

(** ** [Solve]: what it leaves alone, and what it hands on *)

Lemma array_of_nth : forall (l : list float),
  array_of (fun i => nth i l 0%float) l = l.
Proof.
  intros l. unfold array_of.
  apply (nth_ext _ _ (nth 0 l 0%float) 0%float).
  - rewrite length_map, length_seq. reflexivity.
  - intros n Hn. rewrite length_map, length_seq in Hn.
    rewrite (map_nth (fun i => nth i l 0%float) (seq 0 (List.length l)) 0 n).
    rewrite seq_nth by exact Hn. reflexivity.
Qed.

Lemma array_of_length : forall v l, List.length (array_of v l) = List.length l.
Proof. intros. unfold array_of. rewrite length_map, length_seq. reflexivity. Qed.

(** X9. Whatever it returns, [Solve] leaves the configuration, the measurement
    and correction maps, the recording flag and the timer as they were,
    and in the lighthouse and tracker tables the serials, the readiness
    flags and the sizes of the arrays. *)
Theorem Solve_frame : forall E now g r,
  Solve E now g = Returned r ->
  cfg (globals_after r) = cfg g /\
  measurements_ (globals_after r) = measurements_ g /\
  corrections_ (globals_after r) = corrections_ g /\
  recording_ (globals_after r) = recording_ g /\
  timer_started (globals_after r) = timer_started g /\
  map (fun kl => (fst kl, lh_ready (snd kl), List.length (params (snd kl))))
      (lighthouses_ (globals_after r)) =
  map (fun kl => (fst kl, lh_ready (snd kl), List.length (params (snd kl))))
      (lighthouses_ g) /\
  map (fun kt => (fst kt, tr_ready (snd kt), List.length (sensors (snd kt))))
      (trackers_ (globals_after r)) =
  map (fun kt => (fst kt, tr_ready (snd kt), List.length (sensors (snd kt))))
      (trackers_ g).
Proof.
  intros E now g r H.
  destruct (Solve_cases E now g r H) as [[_ ->]|(_ & _ & _ & -> & _)].
  - simpl. repeat split; reflexivity.
  - simpl. repeat split.
    + rewrite map_map. apply map_ext. intros [k l]. simpl.
      rewrite array_of_length. reflexivity.
    + rewrite map_map. apply map_ext. intros [k t]. simpl.
      rewrite array_of_length. reflexivity.
Qed.

Lemma Solve_frame_witness :
  let g := Demo.globals (Demo.config true true false 10.0) Demo.two_epochs_both in
  exists r, Solve Demo.env_lenient Demo.now g = Returned r /\
    wTv_ (globals_after r) <> wTv_ g /\
    measurements_ (globals_after r) = measurements_ g.
Proof.
  intros g. eexists. split; [vm_compute; reflexivity|]. split.
  - vm_compute. intro H. discriminate H.
  - refine (proj1 (proj2 (Solve_frame Demo.env_lenient Demo.now g _ _))).
    vm_compute; reflexivity.
Defined.

(** X10. [Solve] returns true exactly when it publishes. On failure nothing is
    published, written or sent. On success [SendTransforms] gets the
    registration and the tables as the solve left them, and the path, when
    visualizing, has one pose per entry of [wTb], in its order, stamped
    with the epoch. *)
Theorem Solve_outputs : forall E now g r,
  Solve E now g = Returned r ->
  (ret r = false -> outputs r = no_outputs) /\
  (ret r = true ->
   measurements_ g <> [] /\
   sent_transforms (outputs r) =
     Some (mkTransforms (frame_world_ (cfg g)) (frame_vive_ (cfg g))
             (frame_body_ (cfg g)) (wTv_ (globals_after r))
             (lighthouses_ (globals_after r)) (trackers_ (globals_after r))) /\
   pub_path_ (outputs r) =
     if visualize_ (cfg g)
     then Some (mkPath (now 0) (frame_world_ (cfg g))
                  (map (stamped E (frame_world_ (cfg g))) (wTb_after r)))
     else None).
Proof.
  intros E now g r H. unfold Solve in H.
  destruct (measurements_ g) as [|m ms] eqn:Hm.
  - inversion H; subst r; simpl. split; [reflexivity | discriminate].
  - destruct (b_undefined _); [discriminate|].
    destruct (ceres_Solve E _ _ _) as [new usable].
    inversion H; subst r; simpl. clear H.
    destruct usable; split; intros X; try discriminate X; try reflexivity.
    split; [discriminate|]. split; reflexivity.
Qed.

Lemma Solve_outputs_witness :
  let g := Demo.globals (Demo.config true true false 10.0) Demo.two_epochs_both in
  exists r, Solve Demo.env_lenient Demo.now g = Returned r /\ ret r = true /\
    option_map (fun p => map ps_stamp (poses p)) (pub_path_ (outputs r)) =
    Some [mkTime 10 0; mkTime 10 100000000].
Proof.
  intros g. eexists. split; [vm_compute; reflexivity|].
  split; [reflexivity|].
  rewrite (proj2 (proj2 (proj2 (Solve_outputs Demo.env_lenient Demo.now g _
                                  ltac:(vm_compute; reflexivity)) eq_refl))).
  reflexivity.
Defined.

(** X11. With no correction recorded, a successful solve writes a performance
    file without rows and publishes a ground-truth path without poses. *)
Theorem Solve_without_corrections : forall E now g r,
  corrections_ g = [] ->
  Solve E now g = Returned r ->
  ret r = true ->
  performance (outputs r) =
    (if is_open E (perfile_ (cfg g)) then Some [] else None) /\
  pub_ekf_ (outputs r) =
    (if is_open E (perfile_ (cfg g))
     then Some (mkPath (now 1) (frame_world_ (cfg g)) []) else None).
Proof.
  intros E now g r Hc H Hr. unfold Solve in H.
  destruct (measurements_ g) as [|m ms] eqn:Hm.
  - inversion H; subst r. discriminate Hr.
  - destruct (b_undefined _); [discriminate|].
    destruct (ceres_Solve E _ _ _) as [new usable].
    inversion H; subst r; simpl in *. subst usable. clear H.
    rewrite Hc. unfold publish, bundle_corrections. simpl.
    assert (W : forall wTb, with_truth wTb [] = []).
    { induction wTb as [|x w IH]; simpl; [reflexivity|]. exact IH. }
    rewrite W. simpl. split; reflexivity.
Qed.

Lemma Solve_without_corrections_witness :
  let g := Demo.globals (Demo.config true true false 10.0) Demo.two_epochs_both in
  exists r, Solve Demo.env_lenient Demo.now g = Returned r /\
    performance (outputs r) = Some [].
Proof.
  intros g. eexists. split; [vm_compute; reflexivity|].
  exact (proj1 (Solve_without_corrections Demo.env_lenient Demo.now g _
                  eq_refl ltac:(vm_compute; reflexivity) eq_refl)).
Defined.

(** ** The bootstrapping loops, by induction *)

Lemma fold_left_invariant_in {A B : Type} (P : A -> Prop) (f : A -> B -> A) :
  forall l, (forall a x, In x l -> P a -> P (f a x)) ->
  forall a, P a -> P (fold_left f l a).
Proof.
  induction l as [|x l IH]; simpl; intros Hf a Ha; [exact Ha|].
  apply IH.
  - intros a' y Hy. apply Hf. right; exact Hy.
  - apply Hf; [left; reflexivity | exact Ha].
Qed.

Section BootstrapInduction.
Context {E : Env} (g : Globals) (bundle : BundleTable) (P : Builder E -> Prop).

Hypothesis P_start :
  P (mkBuilder [] (mkProblem [] []) (Statistic_new E) 0%N [] [] false).
Hypothesis P_constant : forall flag blk b, P b -> P (set_constant flag blk b).
Hypothesis P_epoch : forall lk lh tk tr z b bt,
  In (lk, lh) (lighthouses_ g) -> In (tk, tr) (trackers_ g) ->
  In bt (StdMap.at_or String.ltb [] lk (StdMap.at_or String.ltb [] tk bundle)) ->
  In (fst bt) (epochs_of bundle) ->
  P b -> P (bootstrap_epoch g lk lh tk tr z b bt).

Lemma bootstrap_induction : P (bootstrap g bundle).
Proof.
  unfold bootstrap.
  assert (L : forall z first (b : Builder E) lt,
             In lt (lighthouses_ g) ->
             P b -> P (bootstrap_lighthouse g bundle z first b lt)).
  { intros z first b [lk lh] Hl H. unfold bootstrap_lighthouse.
    do 2 apply P_constant.
    apply fold_left_invariant_in; [|exact H].
    intros a [tk tr] Ht Ha. unfold bootstrap_tracker.
    do 3 apply P_constant.
    apply fold_left_invariant_in; [|exact Ha].
    intros a' bt Hbt Ha'. simpl fst in *; simpl snd in *.
    apply P_epoch; [exact Hl | exact Ht | exact Hbt | | exact Ha'].
    rewrite in_epochs_of.
    destruct (at_or_cases String.ltb [] tk bundle) as [Hd|[k1 H1]].
    { rewrite Hd in Hbt. destruct Hbt. }
    set (lhs := StdMap.at_or String.ltb [] tk bundle) in *.
    destruct (at_or_cases String.ltb [] lk lhs) as [Hd|[k2 H2]].
    { change (list (string * Bundle)) with (list (string * list (Time * SensorMap)))
        in Hd. rewrite Hd in Hbt. destruct Hbt. }
    exists k1, lhs, k2, (StdMap.at_or String.ltb [] lk lhs).
    split; [exact H1|]. split; [exact H2|].
    unfold StdMap.keys. apply in_map. exact Hbt. }
  apply P_constant.
  destruct (lighthouses_ g) as [|lt rest]; [exact P_start|].
  apply fold_left_invariant_in.
  - intros a x Hx. apply L. right; exact Hx.
  - apply L; [left; reflexivity | exact P_start].
Qed.

End BootstrapInduction.

Section KeyFacts.
Context {K V : Type} (lt : K -> K -> bool).

Lemma keys_set_mono : forall (k k0 : K) (v0 : V) m,
  In k (StdMap.keys m) -> In k (StdMap.keys (StdMap.set lt k0 v0 m)).
Proof.
  unfold StdMap.keys.
  induction m as [|[k' v'] r IH]; simpl; [intros []|].
  destruct (lt k0 k'); simpl.
  - intros H. right; exact H.
  - destruct (lt k' k0); simpl; intros [H|H]; auto.
Qed.

Lemma pred_key_in : forall (k p : K) (m : list (K * V)),
  StdMap.pred_key lt k m = Some p ->
  In p (StdMap.keys m) /\ lt p k = true.
Proof.
  unfold StdMap.keys.
  induction m as [|[k' v'] r IH]; simpl; [discriminate|].
  destruct (lt k' k) eqn:A; [|discriminate].
  destruct (StdMap.pred_key lt k r) as [q|].
  - intros H. destruct (IH H) as [H1 H2]. auto.
  - intros H. inversion H; subst. auto.
Qed.

Hypothesis lt_total : forall a b, lt a b = false -> lt b a = false -> a = b.

Lemma keys_set_own : forall (k0 : K) (v0 : V) m,
  In k0 (StdMap.keys (StdMap.set lt k0 v0 m)).
Proof.
  unfold StdMap.keys.
  induction m as [|[k' v'] r IH]; simpl; [auto|].
  destruct (lt k0 k') eqn:A; simpl; [auto|].
  destruct (lt k' k0) eqn:B; simpl; [auto|].
  left. symmetry. apply lt_total; assumption.
Qed.

End KeyFacts.

Lemma keys_map : forall {K V : Type} (f : K * V -> K * V) m,
  (forall x, fst (f x) = fst x) -> StdMap.keys (map f m) = StdMap.keys m.
Proof.
  intros K V f m Hf. unfold StdMap.keys. rewrite map_map.
  apply map_ext. exact Hf.
Qed.

(** What seeding writes: one entry of [wTb], one bearing block and, at
    most, one motion block from the entry before it. *)
Lemma seed_epoch_shape : forall E g lk lh tk tr t cs rt (b : Builder E),
  exists pose,
    b_wTb (seed_epoch g lk lh tk tr t cs rt b) =
    StdMap.set time_ltb t pose (b_wTb b) /\
    (residual_blocks (b_problem (seed_epoch g lk lh tk tr t cs rt b)) =
     residual_blocks (b_problem b) ++
     [mkResidual (GroupCost (group cs)) (group_blocks lk tk t)] \/
     exists p,
       StdMap.pred_key time_ltb t (b_wTb b) = Some p /\
       residual_blocks (b_problem (seed_epoch g lk lh tk tr t cs rt b)) =
       residual_blocks (b_problem b) ++
       [mkResidual (GroupCost (group cs)) (group_blocks lk tk t);
        mkResidual MotionCost (motion_blocks p t)]).
Proof.
  intros. unfold seed_epoch.
  set (obs := compose_chain E (wTv_ g) (vTl lh) rt (tTh tr) (bTh tr)).
  exists (if force2d_ (cfg g)
          then mkPose (p0 obs) (p1 obs) (p2 obs) 0 0 (p5 obs) else obs).
  destruct (force2d_ (cfg g));
    destruct (PrimFloat.ltb 0 (smoothing_ (cfg g)));
    rewrite ?set_set, ?pred_key_set;
    try destruct (StdMap.pred_key time_ltb t (b_wTb b)) as [p|] eqn:Hp; simpl;
    rewrite ?set_set;
    (split; [reflexivity|]);
    try (left; reflexivity);
    right; exists p; rewrite <- app_assoc; split; reflexivity.
Qed.

Lemma well_formed_keys : forall g (w w' : list (Time * Pose)) rb,
  (forall e, In e (StdMap.keys w) -> In e (StdMap.keys w')) ->
  well_formed_block g w rb -> well_formed_block g w' rb.
Proof.
  intros g w w' rb H. unfold well_formed_block.
  destruct (cost rb).
  - intros (lk & tk & e & A & B & C & D). exists lk, tk, e. auto.
  - intros (p & c & A & B & C & D). exists p, c. auto.
Qed.

Section Trajectory.
Context {E : Env} (g : Globals) (bundle : BundleTable).

Lemma trajectory_ok_same : forall (b b' : Builder E),
  b_wTb b' = b_wTb b ->
  residual_blocks (b_problem b') = residual_blocks (b_problem b) ->
  trajectory_ok g bundle b -> trajectory_ok g bundle b'.
Proof.
  intros b b' Hw Hr. unfold trajectory_ok. rewrite Hw, Hr. auto.
Qed.

Lemma seed_epoch_trajectory : forall lk lh tk tr t cs rt (b : Builder E),
  In lk (StdMap.keys (lighthouses_ g)) -> In tk (StdMap.keys (trackers_ g)) ->
  In t (epochs_of bundle) ->
  trajectory_ok g bundle b ->
  trajectory_ok g bundle (seed_epoch g lk lh tk tr t cs rt b).
Proof.
  intros lk lh tk tr t cs rt b Hl Ht He (Hs & Hk & Hb).
  destruct (seed_epoch_shape E g lk lh tk tr t cs rt b) as [pose [Hw Hr]].
  unfold trajectory_ok. rewrite Hw.
  assert (Own : In t (StdMap.keys (StdMap.set time_ltb t pose (b_wTb b))))
    by (apply keys_set_own; exact time_ltb_total).
  assert (Old : Forall (well_formed_block g (StdMap.set time_ltb t pose (b_wTb b)))
                  (residual_blocks (b_problem b))).
  { eapply Forall_impl; [|exact Hb]. intros rb. apply well_formed_keys.
    intros e. apply keys_set_mono. }
  assert (New : well_formed_block g (StdMap.set time_ltb t pose (b_wTb b))
                  (mkResidual (GroupCost (group cs)) (group_blocks lk tk t))).
  { exists lk, tk, t. auto. }
  split.
  { apply sorted_set;
      first [exact time_ltb_irrefl | exact time_ltb_trans
            | exact time_ltb_total | exact Hs]. }
  split.
  { intros e H. apply keys_set_inv in H. destruct H as [H|H];
      [subst e; exact He | apply Hk; exact H]. }
  destruct Hr as [Hr|[p [Hp Hr]]]; rewrite Hr; apply Forall_app; split;
    try exact Old; constructor; try exact New; constructor; [|constructor].
  destruct (pred_key_in time_ltb _ _ _ Hp) as [Hin Hlt].
  exists p, t. split; [reflexivity|]. split; [exact Hlt|].
  split; [apply keys_set_mono; exact Hin | exact Own].
Qed.

Lemma bootstrap_trajectory : trajectory_ok g bundle (bootstrap (E := E) g bundle).
Proof.
  apply bootstrap_induction.
  - split; [exact I|]. split; [intros e []|constructor].
  - intros flag blk b H. unfold set_constant. destruct flag; [|exact H].
    apply (trajectory_ok_same b); [reflexivity | reflexivity | exact H].
  - intros lk lh tk tr z b bt Hl Ht _ He H. unfold bootstrap_epoch.
    destruct (3 <? _)%nat; [|exact H].
    match goal with
    | |- trajectory_ok _ _ (mkBuilder (b_wTb ?x) _ _ _ _ _ _) =>
        apply (trajectory_ok_same x); [reflexivity | reflexivity |]
    end.
    destruct (solvePnPRansac E _ _ z) as [rt|].
    + apply seed_epoch_trajectory.
      * apply (in_map fst) in Hl. exact Hl.
      * apply (in_map fst) in Ht. exact Ht.
      * exact He.
      * apply (trajectory_ok_same b); [reflexivity | reflexivity | exact H].
    + apply (trajectory_ok_same b); [reflexivity | reflexivity | exact H].
Qed.

End Trajectory.

Lemma Solve_wTb_keys : forall E now g r,
  Solve E now g = Returned r ->
  measurements_ g <> [] ->
  StdMap.keys (wTb_after r) =
  StdMap.keys (b_wTb (bootstrap (E := E) g
                 (bundle_measurements E (res_ (cfg g)) (measurements_ g)))).
Proof.
  intros E now g r H Hm.
  destruct (Solve_cases E now g r H)
    as [[Hm' _]|(_ & _ & _ & _ & Hw & _)]; [elim Hm; exact Hm'|].
  rewrite Hw. rewrite keys_map by reflexivity.
  destruct (force2d_ (cfg g)); [|reflexivity].
  apply keys_map. reflexivity.
Qed.

(** X12. The trajectory a solve returns with has the shape of a [std::map],
    strictly increasing epochs, and a body pose only at the epoch of a
    stored observation: no correction and no other time makes one. *)
Theorem Solve_trajectory_epochs : forall E now g r,
  Solve E now g = Returned r ->
  sorted time_ltb (wTb_after r) /\
  forall e, In e (StdMap.keys (wTb_after r)) ->
    exists t, In t (StdMap.keys (measurements_ g)) /\
              e = epoch E (res_ (cfg g)) t.
Proof.
  intros E now g r H.
  pose proof (Solve_wTb_keys E now g r H) as Hk.
  destruct (Solve_cases E now g r H)
    as [[_ ->]|(Hm & _ & _ & _ & Hw & _)].
  { simpl. split; [exact I | intros e []]. }
  destruct (bootstrap_trajectory (E := E) g
              (bundle_measurements E (res_ (cfg g)) (measurements_ g)))
    as (Hs & He & _).
  split.
  - rewrite Hw. apply sorted_map; [reflexivity|].
    destruct (force2d_ (cfg g)); [|exact Hs].
    apply sorted_map; [reflexivity | exact Hs].
  - intros e Hin. rewrite (Hk Hm) in Hin. apply He in Hin.
    unfold bundle_measurements in Hin.
    apply bundle_measurements_epochs in Hin.
    destruct Hin as [[]|Hin]. exact Hin.
Qed.

Lemma Solve_trajectory_epochs_witness :
  let g := Demo.globals (Demo.config true true false 10.0) Demo.two_epochs_both in
  exists r, Solve Demo.env_lenient Demo.now g = Returned r /\
    StdMap.keys (wTb_after r) = [mkTime 10 0; mkTime 10 100000000] /\
    sorted time_ltb (wTb_after r).
Proof.
  intros g. eexists. split; [vm_compute; reflexivity|].
  split; [reflexivity|].
  refine (proj1 (Solve_trajectory_epochs Demo.env_lenient Demo.now g _ _)).
  vm_compute; reflexivity.
Defined.

(** X13. In a solve with a defined outcome, every residual block of the
    problem names memory that exists: a bearing block a lighthouse and a
    tracker of the tables and an epoch of the trajectory, a motion block
    two epochs of the trajectory, the first strictly before the second.
    The outcome is defined when [std::prev], wherever it was applied to
    [wTb.begin()], handed [begin()] back for the map as it was then. Where
    it yields another iterator, as libstdc++ does at the [begin()] of a
    map of three entries, the guard [p != c] passes, the motion block is
    built on addresses outside [wTb], and the solve has no defined outcome
    (the last part of the example: three epochs, both lighthouses, the
    second lighthouse coming back to the first epoch). *)
Theorem Solve_blocks_well_formed : forall E now g r,
  Solve E now g = Returned r ->
  Forall (well_formed_block g (wTb_after r)) (residual_blocks (problem_built r)).
Proof.
  intros E now g r H.
  pose proof (Solve_wTb_keys E now g r H) as Hk.
  destruct (Solve_cases E now g r H)
    as [[_ ->]|(Hm & _ & _ & _ & _ & Hp & _)]; [constructor|].
  destruct (bootstrap_trajectory (E := E) g
              (bundle_measurements E (res_ (cfg g)) (measurements_ g)))
    as (_ & _ & Hb).
  rewrite Hp. eapply Forall_impl; [|exact Hb].
  intros rb. apply well_formed_keys. intros e He. rewrite (Hk Hm). exact He.
Qed.

Lemma Solve_blocks_well_formed_witness :
  let g := Demo.globals (Demo.config true true false 10.0) Demo.two_epochs_both in
  let g3 := Demo.globals (Demo.config true true false 10.0)
              Demo.three_epochs_both in
  (exists r, Solve Demo.env_lenient Demo.now g = Returned r /\
     List.length (residual_blocks (problem_built r)) = 6 /\
     map blocks (filter is_motion (residual_blocks (problem_built r))) =
       [motion_blocks (mkTime 10 0) (mkTime 10 100000000);
        motion_blocks (mkTime 10 0) (mkTime 10 100000000)] /\
     Forall (well_formed_block g (wTb_after r))
       (residual_blocks (problem_built r))) /\
  Solve Demo.env_lenient Demo.now g3 = Undefined.
Proof.
  intros g g3. split; [|vm_compute; reflexivity].
  eexists. split; [vm_compute; reflexivity|].
  split; [reflexivity|]. split; [reflexivity|].
  refine (Solve_blocks_well_formed Demo.env_lenient Demo.now g _ _).
  vm_compute; reflexivity.
Defined.

(** ** [Solve]: the triples a perspective pose is solved for *)

Lemma fold_left_appends {A B C : Type} (proj : A -> list C) (h : B -> list C)
  (f : A -> B -> A) :
  (forall a x, proj (f a x) = proj a ++ h x) ->
  forall l a, proj (fold_left f l a) = proj a ++ flat_map h l.
Proof.
  intros Hf. induction l as [|x l IH]; intros a; simpl.
  - symmetry; apply app_nil_r.
  - rewrite IH, Hf, app_assoc. reflexivity.
Qed.

Lemma flat_map_flat_map {A B C : Type} (f : B -> list C) (k : A -> list B) :
  forall l, flat_map f (flat_map k l) = flat_map (fun x => flat_map f (k x)) l.
Proof.
  induction l as [|x l IH]; simpl; [reflexivity|].
  rewrite flat_map_app, IH. reflexivity.
Qed.

Lemma flat_map_map {A B C : Type} (f : B -> list C) (k : A -> B) :
  forall l, flat_map f (map k l) = flat_map (fun x => f (k x)) l.
Proof.
  induction l as [|x l IH]; simpl; [reflexivity|]. rewrite IH. reflexivity.
Qed.

(** What the three loops of the bootstrap gather, when every turn of the
    epoch loop adds what [h] says of its triple and setting a block
    constant adds nothing. *)
Section Contributions.
Context {E : Env} (g : Globals) (bundle : BundleTable) {C : Type}.
Variable proj : Builder E -> list C.
Variable h : Triple -> list C.

Hypothesis proj_constant : forall flag blk b,
  proj (set_constant flag blk b) = proj b.
Hypothesis proj_epoch : forall lt tt b bt,
  proj (bootstrap_epoch g (fst lt) (snd lt) (fst tt) (snd tt)
          (principal_distance E) b bt) =
  proj b ++ h (lt, tt, bt).

Lemma bootstrap_tracker_contributions : forall lt (b : Builder E) tt,
  proj (bootstrap_tracker g bundle (fst lt) (snd lt) (principal_distance E) b tt) =
  proj b ++
  flat_map (fun bt => h (lt, tt, bt))
    (StdMap.at_or String.ltb [] (fst lt)
       (StdMap.at_or String.ltb [] (fst tt) bundle)).
Proof.
  intros lt b tt. unfold bootstrap_tracker. rewrite !proj_constant.
  apply (fold_left_appends proj (fun bt => h (lt, tt, bt))).
  intros a bt. apply proj_epoch.
Qed.

Lemma bootstrap_lighthouse_contributions : forall first (b : Builder E) lt,
  proj (bootstrap_lighthouse g bundle (principal_distance E) first b lt) =
  proj b ++
  flat_map
    (fun tt =>
       flat_map (fun bt => h (lt, tt, bt))
         (StdMap.at_or String.ltb [] (fst lt)
            (StdMap.at_or String.ltb [] (fst tt) bundle)))
    (trackers_ g).
Proof.
  intros first b lt. unfold bootstrap_lighthouse. rewrite !proj_constant.
  apply (fold_left_appends proj
           (fun tt =>
              flat_map (fun bt => h (lt, tt, bt))
                (StdMap.at_or String.ltb [] (fst lt)
                   (StdMap.at_or String.ltb [] (fst tt) bundle)))).
  intros a tt. apply bootstrap_tracker_contributions.
Qed.

Lemma bootstrap_contributions :
  proj (bootstrap g bundle) =
  proj (mkBuilder [] (mkProblem [] []) (Statistic_new E) 0%N [] [] false) ++
  flat_map h (triples g bundle).
Proof.
  unfold bootstrap. rewrite proj_constant.
  change (1.0 / (2.0 * tan E (2.0944 / 2.0)))%float with (principal_distance E).
  unfold triples. rewrite flat_map_flat_map.
  assert (X : forall lt,
            flat_map h
              (flat_map
                 (fun tt =>
                    map (fun bt => (lt, tt, bt))
                      (StdMap.at_or String.ltb [] (fst lt)
                         (StdMap.at_or String.ltb [] (fst tt) bundle)))
                 (trackers_ g)) =
            flat_map
              (fun tt =>
                 flat_map (fun bt => h (lt, tt, bt))
                   (StdMap.at_or String.ltb [] (fst lt)
                      (StdMap.at_or String.ltb [] (fst tt) bundle)))
              (trackers_ g)).
  { intros lt. rewrite flat_map_flat_map. apply flat_map_ext.
    intros tt. apply flat_map_map. }
  rewrite (flat_map_ext _ _ X).
  destruct (lighthouses_ g) as [|lt rest]; [symmetry; apply app_nil_r|].
  rewrite (fold_left_appends proj
             (fun lt =>
                flat_map
                  (fun tt =>
                     flat_map (fun bt => h (lt, tt, bt))
                       (StdMap.at_or String.ltb [] (fst lt)
                          (StdMap.at_or String.ltb [] (fst tt) bundle)))
                  (trackers_ g))).
  - rewrite bootstrap_lighthouse_contributions. simpl.
    rewrite app_assoc. reflexivity.
  - intros a x. apply bootstrap_lighthouse_contributions.
Qed.

End Contributions.

(** The body poses are those of the epochs that have a bearing block. *)
Lemma bootstrap_poses_have_blocks : forall E g bundle e,
  In e (StdMap.keys (b_wTb (bootstrap (E := E) g bundle))) <->
  exists grp lk tk,
    In (mkResidual (GroupCost grp) (group_blocks lk tk e))
       (residual_blocks (b_problem (bootstrap (E := E) g bundle))).
Proof.
  intros E g bundle.
  apply (bootstrap_induction g bundle
           (fun b => forall e,
              In e (StdMap.keys (b_wTb b)) <->
              exists grp lk tk,
                In (mkResidual (GroupCost grp) (group_blocks lk tk e))
                   (residual_blocks (b_problem b)))).
  - intros e. simpl. split; [intros [] | intros (? & ? & ? & [])].
  - intros flag blk b Hb. unfold set_constant. destruct flag; exact Hb.
  - intros lk lh tk tr z b bt _ _ _ _ Hb. unfold bootstrap_epoch.
    destruct (3 <? _)%nat; [|exact Hb]. cbn [b_wTb b_problem].
    destruct (solvePnPRansac E _ _ z) as [rt|]; [|exact Hb].
    match goal with
    | |- context [seed_epoch g lk lh tk tr ?t ?cs rt ?b1] =>
        destruct (seed_epoch_shape E g lk lh tk tr t cs rt b1)
          as [pose [Hw Hr]]
    end.
    cbn [b_wTb b_problem] in Hw, Hr. rewrite Hw.
    intros e. split.
    + intros H. apply keys_set_inv in H. destruct H as [H|H].
      * subst e. eexists _, lk, tk.
        destruct Hr as [Hr|[q [_ Hr]]]; rewrite Hr; apply in_or_app; right;
          left; reflexivity.
      * apply Hb in H. destruct H as (grp & l & k & H). exists grp, l, k.
        destruct Hr as [Hr|[q [_ Hr]]]; rewrite Hr; apply in_or_app; left;
          exact H.
    + intros (grp & l & k & H).
      assert (Hcase : In (mkResidual (GroupCost grp) (group_blocks l k e))
                        (residual_blocks (b_problem b)) \/ e = fst bt).
      { destruct Hr as [Hr|[q [_ Hr]]]; rewrite Hr in H;
          apply in_app_or in H; destruct H as [H|H]; auto; right.
        - destruct H as [H|[]]. inversion H. reflexivity.
        - destruct H as [H|[H|[]]]; [inversion H; reflexivity | discriminate H]. }
      destruct Hcase as [Hold|He].
      * apply keys_set_mono. apply Hb. exists grp, l, k. exact Hold.
      * subst e. apply keys_set_own. exact time_ltb_total.
Qed.



(** ** [Solve]: the tables that are not refined *)

Section Reaches.
Context {E : Env} (g : Globals) (bundle : BundleTable).

Lemma fold_left_reaches {B : Type} (f : Builder E -> B -> Builder E)
  (blk : Block) : forall l x,
  (forall a y, extends (fun _ => True) a (f a y)) ->
  In x l ->
  (forall a, In blk (constant_blocks (b_problem (f a x)))) ->
  forall a, In blk (constant_blocks (b_problem (fold_left f l a))).
Proof.
  intros l x Hext. induction l as [|y l IH]; intros Hin Hown a; [destruct Hin|].
  destruct Hin as [H|H]; simpl.
  - subst y. eapply extends_in; [|apply Hown].
    apply (fold_left_related (extends (fun _ => True)));
      [apply extends_refl | apply extends_trans | exact Hext].
  - apply IH; assumption.
Qed.

Lemma bootstrap_tracker_any : forall lk lh z (a : Builder E) tt,
  extends (fun _ => True) a (bootstrap_tracker g bundle lk lh z a tt).
Proof.
  intros. eapply extends_weaken; [|apply bootstrap_tracker_extends]. auto.
Qed.

Lemma bootstrap_lighthouse_any : forall z first (a : Builder E) lt,
  extends (fun _ => True) a (bootstrap_lighthouse g bundle z first a lt).
Proof.
  intros. eapply extends_weaken; [|apply bootstrap_lighthouse_extends]. auto.
Qed.

(** A block some turn of the lighthouse loop always holds constant is
    constant in the problem built. *)
Lemma bootstrap_reaches : forall blk lt,
  In lt (lighthouses_ g) ->
  (forall z first (b : Builder E),
     In blk (constant_blocks (b_problem (bootstrap_lighthouse g bundle z first b lt)))) ->
  In blk (constant_blocks (b_problem (bootstrap (E := E) g bundle))).
Proof.
  intros blk lt Hin Hown. unfold bootstrap.
  eapply extends_in; [apply (set_constant_extends (fun _ => True)); exact I|].
  destruct (lighthouses_ g) as [|l0 rest]; [destruct Hin|].
  destruct Hin as [H|H].
  - subst l0. eapply extends_in; [|apply Hown].
    apply (fold_left_related (extends (fun _ => True)));
      [apply extends_refl | apply extends_trans | apply bootstrap_lighthouse_any].
  - apply (fold_left_reaches _ blk rest lt);
      [apply bootstrap_lighthouse_any | exact H | intros a; apply Hown].
Qed.

Lemma set_constant_keeps : forall flag blk x (b : Builder E),
  In x (constant_blocks (b_problem b)) ->
  In x (constant_blocks (b_problem (set_constant flag blk b))).
Proof.
  intros flag blk x b. apply extends_in with (Q := fun _ => True).
  apply set_constant_extends. exact I.
Qed.

(** The three blocks of a tracker, each under its flag. *)
Lemma bootstrap_tracker_own : forall lk lh z (b : Builder E) tt,
  (refine_extrinsics_ (cfg g) = false ->
   In (B_bTh (fst tt))
      (constant_blocks (b_problem (bootstrap_tracker g bundle lk lh z b tt)))) /\
  (refine_head_ (cfg g) = false ->
   In (B_tTh (fst tt))
      (constant_blocks (b_problem (bootstrap_tracker g bundle lk lh z b tt)))) /\
  (refine_sensors_ (cfg g) = false ->
   In (B_sensors (fst tt))
      (constant_blocks (b_problem (bootstrap_tracker g bundle lk lh z b tt)))).
Proof.
  intros. unfold bootstrap_tracker. repeat split; intros F; rewrite F.
  - do 2 apply set_constant_keeps. apply set_constant_in.
  - apply set_constant_keeps. apply set_constant_in.
  - apply set_constant_in.
Qed.

Lemma bootstrap_tracker_blocks : forall tk tr,
  lighthouses_ g <> [] ->
  In (tk, tr) (trackers_ g) ->
  (refine_extrinsics_ (cfg g) = false ->
   In (B_bTh tk) (constant_blocks (b_problem (bootstrap (E := E) g bundle)))) /\
  (refine_head_ (cfg g) = false ->
   In (B_tTh tk) (constant_blocks (b_problem (bootstrap (E := E) g bundle)))) /\
  (refine_sensors_ (cfg g) = false ->
   In (B_sensors tk) (constant_blocks (b_problem (bootstrap (E := E) g bundle)))).
Proof.
  intros tk tr Hne Hin.
  destruct (lighthouses_ g) as [|lt rest] eqn:Hl; [elim Hne; reflexivity|].
  assert (Hlt : In lt (lighthouses_ g)) by (rewrite Hl; left; reflexivity).
  repeat split; intros F; apply (bootstrap_reaches _ lt Hlt);
    intros z first b; unfold bootstrap_lighthouse;
    do 2 apply set_constant_keeps;
    apply (fold_left_reaches _ _ (trackers_ g) (tk, tr));
    try apply bootstrap_tracker_any; try exact Hin; intros a;
    destruct (bootstrap_tracker_own (fst lt) (snd lt) z a (tk, tr))
      as (A & B & C); auto.
Qed.

Lemma bootstrap_params : forall lk lh,
  In (lk, lh) (lighthouses_ g) ->
  refine_params_ (cfg g) = false ->
  In (B_params lk) (constant_blocks (b_problem (bootstrap (E := E) g bundle))).
Proof.
  intros lk lh Hin F. apply (bootstrap_reaches _ (lk, lh) Hin).
  intros z first b. unfold bootstrap_lighthouse. rewrite F.
  apply set_constant_in.
Qed.

Lemma bootstrap_no_lighthouse :
  lighthouses_ g = [] ->
  residual_blocks (b_problem (bootstrap (E := E) g bundle)) = [].
Proof.
  intros H. unfold bootstrap. rewrite H. unfold set_constant.
  destruct (negb (refine_registration_ (cfg g))); reflexivity.
Qed.

End Reaches.

Lemma sorted_lookup_lighthouse : forall g k lh,
  sorted String.ltb (lighthouses_ g) -> In (k, lh) (lighthouses_ g) ->
  lighthouse_at g k = lh.
Proof.
  intros g k lh Hs Hin. unfold lighthouse_at, StdMap.at_or.
  rewrite (find_sorted String.ltb string_ltb_irrefl string_ltb_trans k lh _ Hs Hin).
  reflexivity.
Qed.

Lemma sorted_lookup_tracker : forall g k tr,
  sorted String.ltb (trackers_ g) -> In (k, tr) (trackers_ g) ->
  tracker_at g k = tr.
Proof.
  intros g k tr Hs Hin. unfold tracker_at, StdMap.at_or.
  rewrite (find_sorted String.ltb string_ltb_irrefl string_ltb_trans k tr _ Hs Hin).
  reflexivity.
Qed.

Section Frozen.
Context (E : Env) (g : Globals).
Hypothesis ceres_ok : honours_constant E.
Hypothesis lighthouses_sorted : sorted String.ltb (lighthouses_ g).
Hypothesis trackers_sorted : sorted String.ltb (trackers_ g).

Let bundle := bundle_measurements E (res_ (cfg g)) (measurements_ g).
Let built : Builder E := bootstrap g bundle.
Let seeded : list (Time * Pose) :=
  if force2d_ (cfg g)
  then map (flatten (Statistic_Mean E (b_height built))) (b_wTb built)
  else b_wTb built.
Let old : Values := read_values g seeded.
Let answer := ceres_Solve E (options_ (cfg g)) (b_problem built) old.
Let final : Values := solved_values (b_problem built) old (fst answer).

Lemma untouched_without_lighthouse : forall blk i,
  lighthouses_ g = [] -> final blk i = old blk i.
Proof.
  intros blk i H. unfold final, solved_values, parameter_blocks, built.
  rewrite (bootstrap_no_lighthouse g bundle H). reflexivity.
Qed.

Lemma frozen_vTl : forall kl,
  refine_lighthouses_ (cfg g) = false -> In kl (lighthouses_ g) ->
  vTl (snd (write_lighthouse final kl)) = vTl (snd kl).
Proof.
  intros [k lh] F Hin. simpl. apply pose_build_get. intros i.
  unfold final, old, answer, built, bundle.
  rewrite (constant_block_kept E g ceres_ok)
    by (apply (bootstrap_all g _ k lh F Hin)).
  simpl. rewrite (sorted_lookup_lighthouse g k lh lighthouses_sorted Hin).
  reflexivity.
Qed.

Lemma frozen_params : forall kl,
  refine_params_ (cfg g) = false -> In kl (lighthouses_ g) ->
  params (snd (write_lighthouse final kl)) = params (snd kl).
Proof.
  intros [k lh] F Hin. simpl.
  rewrite <- (array_of_nth (params lh)) at 2.
  unfold array_of. apply map_ext. intros i.
  unfold final, old, answer, built, bundle.
  rewrite (constant_block_kept E g ceres_ok)
    by (apply (bootstrap_params g _ k lh Hin F)).
  simpl. rewrite (sorted_lookup_lighthouse g k lh lighthouses_sorted Hin).
  reflexivity.
Qed.

Lemma tracker_block_kept : forall k tr blk i,
  In (k, tr) (trackers_ g) ->
  (lighthouses_ g <> [] -> In blk (constant_blocks (b_problem built))) ->
  final blk i = old blk i.
Proof.
  clear lighthouses_sorted trackers_sorted. intros k tr blk i Hin H.
  destruct (lighthouses_ g) as [|lt rest] eqn:Hl.
  - apply untouched_without_lighthouse. exact Hl.
  - unfold final, old, answer, built, bundle.
    apply (constant_block_kept E g ceres_ok). apply H. discriminate.
Qed.

Lemma frozen_bTh : forall kt,
  refine_extrinsics_ (cfg g) = false -> In kt (trackers_ g) ->
  bTh (snd (write_tracker final kt)) = bTh (snd kt).
Proof.
  intros [k tr] F Hin. simpl. apply pose_build_get. intros i.
  rewrite (tracker_block_kept k tr _ i Hin).
  - simpl. rewrite (sorted_lookup_tracker g k tr trackers_sorted Hin).
    reflexivity.
  - intros Hne.
    destruct (bootstrap_tracker_blocks (E := E) g bundle k tr Hne Hin)
      as (A & _ & _). exact (A F).
Qed.

Lemma frozen_tTh : forall kt,
  refine_head_ (cfg g) = false -> In kt (trackers_ g) ->
  tTh (snd (write_tracker final kt)) = tTh (snd kt).
Proof.
  intros [k tr] F Hin. simpl. apply pose_build_get. intros i.
  rewrite (tracker_block_kept k tr _ i Hin).
  - simpl. rewrite (sorted_lookup_tracker g k tr trackers_sorted Hin).
    reflexivity.
  - intros Hne.
    destruct (bootstrap_tracker_blocks (E := E) g bundle k tr Hne Hin)
      as (_ & A & _). exact (A F).
Qed.

Lemma frozen_sensors : forall kt,
  refine_sensors_ (cfg g) = false -> In kt (trackers_ g) ->
  sensors (snd (write_tracker final kt)) = sensors (snd kt).
Proof.
  intros [k tr] F Hin. simpl.
  rewrite <- (array_of_nth (sensors tr)) at 2.
  unfold array_of. apply map_ext. intros i.
  rewrite (tracker_block_kept k tr _ i Hin).
  - simpl. rewrite (sorted_lookup_tracker g k tr trackers_sorted Hin).
    reflexivity.
  - intros Hne.
    destruct (bootstrap_tracker_blocks (E := E) g bundle k tr Hne Hin)
      as (_ & _ & A). exact (A F).
Qed.

Lemma frozen_wTv :
  refine_registration_ (cfg g) = false -> pose_build (final B_wTv) = wTv_ g.
Proof.
  intros F. apply pose_build_get. intros i.
  unfold final, old, answer, built, bundle.
  rewrite (constant_block_kept E g ceres_ok)
    by (apply bootstrap_registration, F).
  reflexivity.
Qed.

End Frozen.

Lemma lighthouse_entry_eq : forall (v : Values) (kl : string * Lighthouse),
  vTl (snd (write_lighthouse v kl)) = vTl (snd kl) ->
  params (snd (write_lighthouse v kl)) = params (snd kl) ->
  write_lighthouse v kl = kl.
Proof.
  intros v [k [a b c]]. unfold write_lighthouse. simpl.
  intros -> ->. reflexivity.
Qed.

Lemma tracker_entry_eq : forall (v : Values) (kt : string * Tracker),
  bTh (snd (write_tracker v kt)) = bTh (snd kt) ->
  tTh (snd (write_tracker v kt)) = tTh (snd kt) ->
  sensors (snd (write_tracker v kt)) = sensors (snd kt) ->
  write_tracker v kt = kt.
Proof.
  intros v [k [a b c d]]. unfold write_tracker. simpl.
  intros -> -> ->. reflexivity.
Qed.

Lemma map_map_ext_in : forall {A B : Type} (f : A -> A) (p : A -> B) l,
  (forall x, In x l -> p (f x) = p x) -> map p (map f l) = map p l.
Proof.
  intros A B f p l H. rewrite map_map. apply map_ext_in. exact H.
Qed.

(** X14. Each of the five switches of the tables does what it says for every
    entry: with [refine_lighthouses_] off no lighthouse pose changes, with
    [refine_params_] off no calibration vector, with [refine_extrinsics_],
    [refine_head_], [refine_sensors_] off no tracker extrinsics, head
    transform, sensor array (Ceres keeping constant blocks as they are;
    the tables being [std::map]s, their serials increase). *)
Theorem unrefined_tables_unchanged : forall E now g r,
  honours_constant E ->
  sorted String.ltb (lighthouses_ g) ->
  sorted String.ltb (trackers_ g) ->
  Solve E now g = Returned r ->
  (refine_lighthouses_ (cfg g) = false ->
   map (fun kl => vTl (snd kl)) (lighthouses_ (globals_after r)) =
   map (fun kl => vTl (snd kl)) (lighthouses_ g)) /\
  (refine_params_ (cfg g) = false ->
   map (fun kl => params (snd kl)) (lighthouses_ (globals_after r)) =
   map (fun kl => params (snd kl)) (lighthouses_ g)) /\
  (refine_extrinsics_ (cfg g) = false ->
   map (fun kt => bTh (snd kt)) (trackers_ (globals_after r)) =
   map (fun kt => bTh (snd kt)) (trackers_ g)) /\
  (refine_head_ (cfg g) = false ->
   map (fun kt => tTh (snd kt)) (trackers_ (globals_after r)) =
   map (fun kt => tTh (snd kt)) (trackers_ g)) /\
  (refine_sensors_ (cfg g) = false ->
   map (fun kt => sensors (snd kt)) (trackers_ (globals_after r)) =
   map (fun kt => sensors (snd kt)) (trackers_ g)).
Proof.
  intros E now g r Hc Hl Ht H.
  destruct (Solve_cases E now g r H) as [[_ ->]|(_ & _ & _ & Hg & _)].
  { simpl. repeat split; reflexivity. }
  rewrite Hg. simpl. clear Hg.
  repeat split; intros F; apply map_map_ext_in; intros x Hx.
  - apply (frozen_vTl E g Hc Hl x F Hx).
  - apply (frozen_params E g Hc Hl x F Hx).
  - apply (frozen_bTh E g Hc Ht x F Hx).
  - apply (frozen_tTh E g Hc Ht x F Hx).
  - apply (frozen_sensors E g Hc Ht x F Hx).
Qed.

Lemma unrefined_tables_unchanged_witness :
  let g := Demo.globals (Demo.config true true false 0.0) Demo.one_epoch in
  exists r, Solve Demo.env Demo.now g = Returned r /\ ret r = true /\
    map (fun kl => vTl (snd kl)) (lighthouses_ (globals_after r)) <>
    map (fun kl => vTl (snd kl)) (lighthouses_ g) /\
    map (fun kt => sensors (snd kt)) (trackers_ (globals_after r)) =
    map (fun kt => sensors (snd kt)) (trackers_ g).
Proof.
  intros g. eexists. split; [vm_compute; reflexivity|].
  split; [reflexivity|]. split.
  - vm_compute. intro H. discriminate H.
  - refine (proj2 (proj2 (proj2 (proj2
      (unrefined_tables_unchanged Demo.env Demo.now g _
         (Demo_honours_constant (fun _ => false)) _ _ _)))) eq_refl).
    + vm_compute. repeat constructor.
    + vm_compute. repeat constructor.
    + vm_compute; reflexivity.
Defined.

(** X15. With all six refinement switches off, a solve changes none of the
    node's globals: only the trajectory is fitted. *)
Theorem nothing_refined_nothing_changed : forall E now g r,
  honours_constant E ->
  sorted String.ltb (lighthouses_ g) ->
  sorted String.ltb (trackers_ g) ->
  refine_registration_ (cfg g) = false ->
  refine_lighthouses_ (cfg g) = false ->
  refine_params_ (cfg g) = false ->
  refine_extrinsics_ (cfg g) = false ->
  refine_head_ (cfg g) = false ->
  refine_sensors_ (cfg g) = false ->
  Solve E now g = Returned r ->
  globals_after r = g.
Proof.
  intros E now g r Hc Hl Ht F1 F2 F3 F4 F5 F6 H.
  destruct (Solve_cases E now g r H) as [[_ ->]|(_ & _ & _ & Hg & _)];
    [reflexivity|].
  rewrite Hg. clear Hg. unfold write_globals.
  match goal with
  | |- mkGlobals _ (map ?f ?l) (map ?f' ?l') _ _ _ ?w _ = _ =>
      assert (A : map f l = l);
      [| assert (B : map f' l' = l');
         [| assert (C : w = wTv_ g) ] ]
  end.
  - rewrite <- (map_id (lighthouses_ g)) at 2. apply map_ext_in. intros x Hx.
    apply lighthouse_entry_eq.
    + apply (frozen_vTl E g Hc Hl x F2 Hx).
    + apply (frozen_params E g Hc Hl x F3 Hx).
  - rewrite <- (map_id (trackers_ g)) at 2. apply map_ext_in. intros x Hx.
    apply tracker_entry_eq.
    + apply (frozen_bTh E g Hc Ht x F4 Hx).
    + apply (frozen_tTh E g Hc Ht x F5 Hx).
    + apply (frozen_sensors E g Hc Ht x F6 Hx).
  - apply (frozen_wTv E g Hc F1).
  - rewrite A, B, C. destruct g; reflexivity.
Qed.

Lemma nothing_refined_nothing_changed_witness :
  let g := Demo.globals (Demo.config false false false 0.0) Demo.one_epoch in
  exists r, Solve Demo.env Demo.now g = Returned r /\ ret r = true /\
    map snd (wTb_after r) <> map snd (b_wTb (bootstrap (E := Demo.env) g
      (bundle_measurements Demo.env (res_ (cfg g)) (measurements_ g)))) /\
    globals_after r = g.
Proof.
  intros g. eexists. split; [vm_compute; reflexivity|].
  split; [reflexivity|]. split.
  - vm_compute. intro H. discriminate H.
  - refine (nothing_refined_nothing_changed Demo.env Demo.now g _
              (Demo_honours_constant (fun _ => false)) _ _
              eq_refl eq_refl eq_refl eq_refl eq_refl eq_refl _).
    + vm_compute. repeat constructor.
    + vm_compute. repeat constructor.
    + vm_compute; reflexivity.
Defined.

(** ** The event loop: what holds of the queues between callbacks *)

Lemma filter_accepts : forall c (v : list Pulse),
  forallb (fun p => negb (rejected c p))
    (filter (fun p => negb (rejected c p)) v) = true.
Proof.
  intros c v. apply forallb_forall. intros p Hp.
  apply filter_In in Hp. exact (proj2 Hp).
Qed.

Lemma LightCallback_queues : forall msg now g,
  queues_ok g -> queues_ok (LightCallback msg now g).
Proof.
  intros msg now g (H1 & H2 & H3 & H4 & H5). unfold LightCallback. simpl.
  destruct (negb (recording_ g)) eqn:Hrec; simpl.
  { unfold queues_ok. simpl. auto. }
  destruct (negb (is_ready_tracker _ _) || negb (is_ready_lighthouse _ _)).
  { unfold queues_ok. simpl. auto. }
  pose proof (erase_loop_all (cfg g) (pulses msg)) as Hf.
  destruct (erase_loop (cfg g) (List.length (pulses msg)) (pulses msg) 0)
    as [k n].
  simpl in Hf. subst k.
  destruct (size_lt_int _ _) eqn:Hs.
  { unfold queues_ok. simpl. auto. }
  unfold queues_ok. simpl. split.
  { intros Hr. rewrite Hr in Hrec. discriminate Hrec. }
  split.
  { apply sorted_set;
      first [exact time_ltb_irrefl | exact time_ltb_trans
            | exact time_ltb_total | exact H2]. }
  split; [exact H3|]. split; [|exact H5].
  intros t m Hin. apply in_set_inv in Hin.
  destruct Hin as [Hin|[Hm _]]; [exact (H4 t m Hin)|].
  subst m. unfold admitted. simpl. rewrite filter_accepts, Hs. reflexivity.
Qed.

Lemma correction_loop_queues : forall now ts i g,
  recording_ g = true -> queues_ok g -> queues_ok (correction_loop now i ts g).
Proof.
  induction ts as [|t r IH]; intros i g Hrec Hq; simpl; [exact Hq|].
  destruct (world_to_body (cfg g) t) eqn:Ht; [|apply IH; assumption].
  apply IH; [exact Hrec|].
  destruct Hq as (H1 & H2 & H3 & H4 & H5). unfold queues_ok. simpl.
  split; [intros Hr; rewrite Hr in Hrec; discriminate Hrec|].
  split; [exact H2|]. split.
  { apply sorted_set;
      first [exact time_ltb_irrefl | exact time_ltb_trans
            | exact time_ltb_total | exact H3]. }
  split; [exact H4|].
  intros k x Hin. apply in_set_inv in Hin.
  destruct Hin as [Hin|[Hx _]]; [exact (H5 k x Hin)|]. subst x. exact Ht.
Qed.

(** X16. Between any two callbacks of the node, entered with empty queues: the
    queues are empty unless the node is recording; they are key-ordered;
    every stored observation holds only pulses that passed the angle and
    duration test, at least [thresh_count_] of them, and every stored
    correction is a transform from [frame_world_] to [frame_body_]. *)
Theorem queues_ok_always : forall E n,
  reachable E n -> queues_ok (globals n).
Proof.
  intros E n H. induction H as [g Hm Hc|n n' Hr IH Hs].
  - simpl. unfold queues_ok. rewrite Hm, Hc. simpl.
    repeat split; auto; intros ? ? [].
  - destruct Hs as [msg now g|msg now g|g Hrec|g Hrec|now g r Hsolve];
      simpl in *.
    + apply LightCallback_queues. exact IH.
    + unfold CorrectionCallback.
      destruct (recording_ g) eqn:Hrec; simpl; [|exact IH].
      apply correction_loop_queues; assumption.
    + destruct IH as (H1 & H2 & H3 & H4 & H5). unfold queues_ok. simpl.
      split; [discriminate|]. auto.
    + exact IH.
    + unfold queues_ok. simpl. repeat split; auto; intros ? ? [].
Qed.

Lemma queues_ok_always_witness :
  let g := Demo.globals (Demo.config false true false 10.0) [] in
  let n := mkNode Spinning (LightCallback (Demo.sweep "L1" 0) (Demo.now 0) g) in
  measurements_ (globals n) = [(Demo.now 0, mkMeasurement (Demo.sweep "L1" 0))] /\
  queues_ok (globals n).
Proof.
  intros g n. split; [reflexivity|].
  apply (queues_ok_always Demo.env n).
  eapply reach_step; [apply (reach_start _ g); reflexivity|].
  apply step_light.
Defined.

(** ** [TriggerCallback] *)

(** X17. A trigger that stops the recording discards the stored observations
    and corrections whether or not the solve succeeded, and leaves the
    configuration alone; a failed solve publishes nothing; after a
    successful one the registration and the tables handed to
    [SendTransforms] are those the node keeps; and with no observation
    stored the solve fails and the tables stay as they were. *)
Theorem TriggerCallback_stop : forall E now g res out g',
  recording_ g = true ->
  TriggerCallback E now g = Done res out g' ->
  recording_ g' = false /\ measurements_ g' = [] /\ corrections_ g' = [] /\
  cfg g' = cfg g /\
  (success res = false -> out = no_outputs) /\
  (success res = true ->
   sent_transforms out =
   Some (mkTransforms (frame_world_ (cfg g)) (frame_vive_ (cfg g))
           (frame_body_ (cfg g)) (wTv_ g') (lighthouses_ g') (trackers_ g'))) /\
  (measurements_ g = [] ->
   success res = false /\ g' = with_recording false (clear g)).
Proof.
  intros E now g res out g' Hrec H. unfold TriggerCallback in H.
  rewrite Hrec in H. destruct (Solve E now g) as [r|] eqn:Hs; [|discriminate].
  inversion H; subst res out g'; clear H. simpl.
  unfold Solve in Hs. destruct (measurements_ g) as [|m ms] eqn:Hm.
  - inversion Hs; subst r; simpl.
    repeat split; try reflexivity; try discriminate.
  - destruct (b_undefined _); [discriminate|].
    destruct (ceres_Solve E _ _ _) as [new usable].
    inversion Hs; subst r; simpl. clear Hs.
    repeat split; try discriminate; intros X; subst usable; reflexivity.
Qed.

Lemma TriggerCallback_stop_witness :
  let g := Demo.globals (Demo.config true true false 0.0) Demo.one_epoch in
  exists res out g',
    TriggerCallback Demo.env Demo.now g = Done res out g' /\
    success res = true /\ wTv_ g' <> wTv_ g /\
    recording_ g' = false /\ measurements_ g' = [].
Proof.
  intros g. eexists _, _, _. split; [vm_compute; reflexivity|].
  split; [reflexivity|]. split; [vm_compute; intro H; discriminate H|].
  pose proof (TriggerCallback_stop Demo.env Demo.now g _ _ _ eq_refl
                ltac:(vm_compute; reflexivity)) as (A & B & _).
  split; [exact A | exact B].
Defined.

(** X18. Starting a recording and stopping it before any observation got
    through, on a node with empty queues, reports a failed solve, publishes
    nothing and leaves the node exactly as it was before the start. *)
Theorem start_then_stop_changes_nothing : forall E now now' g,
  recording_ g = false ->
  measurements_ g = [] ->
  corrections_ g = [] ->
  exists g1,
    TriggerCallback E now g =
      Done (mkResponse true "Recording started.") no_outputs g1 /\
    TimerCallback E now' g1 =
      Done (mkResponse false "Recording stopped. Solution not found.")
           no_outputs g.
Proof.
  intros E now now' g Hrec Hm Hc. exists (with_recording true g). split.
  - unfold TriggerCallback. rewrite Hrec. reflexivity.
  - unfold TimerCallback, TriggerCallback, Solve. simpl. rewrite Hm. simpl.
    f_equal. destruct g; simpl in *. subst. reflexivity.
Qed.

Lemma start_then_stop_changes_nothing_witness :
  let g := mkGlobals (Demo.config false true false 10.0) [] [] [] [] false
             Demo.zero false in
  exists g1,
    TriggerCallback Demo.env Demo.now g =
      Done (mkResponse true "Recording started.") no_outputs g1 /\
    TimerCallback Demo.env Demo.now g1 =
      Done (mkResponse false "Recording stopped. Solution not found.")
           no_outputs g.
Proof.
  intros g.
  exact (start_then_stop_changes_nothing Demo.env Demo.now Demo.now g
           eq_refl eq_refl eq_refl).
Defined.

(** ** The tables [main] configures *)

(** X19. Looking a serial up in the lighthouse table [main] builds gives the
    entry of the last configured lighthouse with that serial and a
    seven-valued transform (one whose transform is missing or of another
    size is skipped; a missing serial counts as the empty one): its pose,
    the calibration vector of a fresh entry, and [ready] false. *)
Theorem configure_lighthouses_lookup : forall AngleAxis new cs k,
  StdMap.find String.ltb k (configure_lighthouses AngleAxis new cs) =
  option_map
    (fun c => mkLighthouse (configured_pose AngleAxis (cf_values c))
                (params new) false)
    (List.find (configures k) (rev cs)).
Proof.
  intros AngleAxis new cs. unfold configure_lighthouses.
  induction cs as [|c cs IH] using rev_ind; intros k; [reflexivity|].
  rewrite fold_left_app, rev_app_distr. simpl.
  unfold configure_lighthouse at 1. unfold configures at 1.
  change (match cf_serial c with Some s => s | None => ""%string end)
    with (cf_key c).
  change (match cf_transform c with Some t => t | None => [] end)
    with (cf_values c).
  destruct (List.length (cf_values c) =? 7)%nat; simpl; [|apply IH].
  unfold StdMap.upd.
  rewrite (find_set String.ltb string_ltb_irrefl string_ltb_trans
             string_ltb_total).
  rewrite string_equiv.
  destruct (String.eqb k (cf_key c)); [|apply IH].
  unfold StdMap.at_or. rewrite IH.
  destruct (List.find _ _); reflexivity.
Qed.

(** X20. The same for the tracker table: the extrinsics of the last configured
    tracker with that serial, the head transform and sensor array of a
    fresh entry, and [ready] false. *)
Theorem configure_trackers_lookup : forall AngleAxis new cs k,
  StdMap.find String.ltb k (configure_trackers AngleAxis new cs) =
  option_map
    (fun c => mkTracker (configured_pose AngleAxis (cf_values c))
                (tTh new) (sensors new) false)
    (List.find (configures k) (rev cs)).
Proof.
  intros AngleAxis new cs. unfold configure_trackers.
  induction cs as [|c cs IH] using rev_ind; intros k; [reflexivity|].
  rewrite fold_left_app, rev_app_distr. simpl.
  unfold configure_tracker at 1. unfold configures at 1.
  change (match cf_serial c with Some s => s | None => ""%string end)
    with (cf_key c).
  change (match cf_transform c with Some t => t | None => [] end)
    with (cf_values c).
  destruct (List.length (cf_values c) =? 7)%nat; simpl; [|apply IH].
  unfold StdMap.upd.
  rewrite (find_set String.ltb string_ltb_irrefl string_ltb_trans
             string_ltb_total).
  rewrite string_equiv.
  destruct (String.eqb k (cf_key c)); [|apply IH].
  unfold StdMap.at_or. rewrite IH.
  destruct (List.find _ _); reflexivity.
Qed.

(** ** The group of a bearing block and its cost *)

Lemma set_append : forall {K V : Type} (lt : K -> K -> bool) (k : K) (v : V) m,
  (forall a b, lt a b = true -> lt b a = false) ->
  Forall (fun e => lt (fst e) k = true) m ->
  StdMap.set lt k v m = m ++ [(k, v)].
Proof.
  intros K V lt k v m Hasym. induction m as [|[k' v'] r IH]; simpl;
    [reflexivity|].
  intros H. inversion H as [|x l Hx Hl]; subst. simpl in Hx.
  rewrite (Hasym _ _ Hx), Hx, (IH Hl). reflexivity.
Qed.

Lemma pair_ltb_asym : forall a b, pair_ltb a b = true -> pair_ltb b a = false.
Proof.
  intros [a b] [c d]. unfold pair_ltb. simpl. intros H.
  apply orb_true_iff in H. apply orb_false_iff. destruct H as [H|H].
  - apply N.ltb_lt in H. split; [apply N.ltb_ge; lia|].
    apply andb_false_iff. left. apply N.eqb_neq. lia.
  - apply andb_true_iff in H. destruct H as [H1 H2].
    apply N.eqb_eq in H1. apply N.ltb_lt in H2. subst c.
    split; [apply N.ltb_irrefl|].
    apply andb_false_iff. right. apply N.ltb_ge. lia.
Qed.

Lemma pair_ltb_zero : forall (s x s' : N),
  pair_ltb (s, x) (s', 0%N) = true -> (s < s')%N.
Proof.
  intros s x s'. unfold pair_ltb. simpl. intros H.
  apply orb_true_iff in H. destruct H as [H|H]; [apply N.ltb_lt; exact H|].
  apply andb_true_iff in H. destruct H as [_ H]. apply N.ltb_lt in H. lia.
Qed.

Lemma pair_ltb_sensor : forall (s x s' y : N),
  (s < s')%N -> pair_ltb (s, x) (s', y) = true.
Proof.
  intros s x s' y H. unfold pair_ltb. simpl.
  rewrite (proj2 (N.ltb_lt _ _) H). reflexivity.
Qed.

Lemma add_sensor_group : forall E c lh tr sm z a acc,
  Forall (fun e => pair_ltb (fst e) (N.of_nat a, 0%N) = true) (group acc) ->
  StdMap.keys (group (add_sensor E c lh tr sm z acc a)) =
  StdMap.keys (group acc) ++
  (if valid_sensor sm a then [(N.of_nat a, 0%N); (N.of_nat a, 1%N)] else []) /\
  Forall (fun e => pair_ltb (fst e) (N.of_nat (S a), 0%N) = true)
    (group (add_sensor E c lh tr sm z acc a)).
Proof.
  intros E c lh tr sm z a acc Hall.
  assert (Hlt : forall y (e : (N * N) * float),
            pair_ltb (fst e) (N.of_nat a, 0%N) = true ->
            pair_ltb (fst e) (N.of_nat (S a), y) = true).
  { intros y [[s x] v]. simpl. intros H. apply pair_ltb_zero in H.
    apply pair_ltb_sensor. lia. }
  assert (Hlt1 : forall e : (N * N) * float,
            pair_ltb (fst e) (N.of_nat a, 0%N) = true ->
            pair_ltb (fst e) (N.of_nat a, 1%N) = true).
  { intros [[s x] v]. simpl. intros H. apply pair_ltb_zero in H.
    apply pair_ltb_sensor. exact H. }
  assert (Hold : Forall (fun e => pair_ltb (fst e) (N.of_nat (S a), 0%N) = true)
                   (group acc)).
  { eapply Forall_impl; [|exact Hall]. apply Hlt. }
  unfold add_sensor, valid_sensor.
  destruct (samples sm (N.of_nat a) 0) as [|x0 v0]; simpl Mean; cbv iota.
  { split; [symmetry; apply app_nil_r | exact Hold]. }
  destruct (samples sm (N.of_nat a) 1) as [|x1 v1]; simpl Mean; cbv iota.
  { split; [symmetry; apply app_nil_r | exact Hold]. }
  destruct (Correct E _ _ _) as [c0 c1]. cbn [group].
  rewrite (set_append pair_ltb (N.of_nat a, 0%N) _ (group acc) pair_ltb_asym Hall).
  rewrite (set_append pair_ltb (N.of_nat a, 1%N)).
  - split.
    + unfold StdMap.keys. rewrite !map_app. simpl.
      rewrite <- !app_assoc. reflexivity.
    + repeat (apply Forall_app; split); try exact Hold;
        (constructor; [|constructor]); simpl; apply pair_ltb_sensor; lia.
  - exact pair_ltb_asym.
  - apply Forall_app; split.
    + eapply Forall_impl; [|exact Hall]. exact Hlt1.
    + constructor; [|constructor]. unfold pair_ltb. cbn [fst snd].
      rewrite N.ltb_irrefl, N.eqb_refl. reflexivity.
Qed.

Lemma correspondences_group_fold : forall E c lh tr sm z n a acc,
  Forall (fun e => pair_ltb (fst e) (N.of_nat a, 0%N) = true) (group acc) ->
  StdMap.keys (group (fold_left (add_sensor E c lh tr sm z) (seq a n) acc)) =
  StdMap.keys (group acc) ++ group_keys sm (seq a n).
Proof.
  intros E c lh tr sm z. unfold group_keys.
  induction n as [|n IH]; intros a acc Hall.
  - simpl. symmetry; apply app_nil_r.
  - change (seq a (S n)) with (a :: seq (S a) n). cbn [fold_left filter].
    destruct (add_sensor_group E c lh tr sm z a acc Hall) as [Hk Hf].
    rewrite (IH (S a) _ Hf), Hk.
    destruct (valid_sensor sm a); cbn [flat_map];
      rewrite <- app_assoc; reflexivity.
Qed.

Lemma correspondences_group : forall E c lh tr sm z,
  StdMap.keys (group (correspondences E c lh tr sm z)) =
  group_keys sm (seq 0 (NUM_SENSORS E)).
Proof.
  intros. unfold correspondences.
  rewrite correspondences_group_fold; [reflexivity | constructor].
Qed.

Lemma group_keys_length : forall sm l,
  List.length (group_keys sm l) = 2 * List.length (filter (valid_sensor sm) l).
Proof.
  intros sm l. unfold group_keys.
  induction (filter (valid_sensor sm) l) as [|s r IH]; simpl; [reflexivity|].
  rewrite IH. lia.
Qed.

Section CostFacts.
Variable AngleAxisRotatePoint :
  float * float * float -> float * float * float -> float * float * float.
Variable Predict : list float -> float * float * float -> bool -> float * float.

Lemma GroupCost_eval_in_range : forall correct group wTv vTl pxy pz rxy rz
    bTh tTh sensors params,
  (forall k, In k (StdMap.keys group) ->
     6 * N.to_nat (fst k) + 2 < List.length sensors /\ N.to_nat (snd k) < 2) ->
  exists residuals,
    GroupCost_eval AngleAxisRotatePoint Predict correct group wTv vTl
      pxy pz rxy rz bTh tTh sensors params = Some residuals /\
    List.length residuals = List.length group.
Proof.
  intros correct group wTv vTl pxy pz rxy rz bTh tTh sensors params.
  unfold GroupCost_eval.
  induction group as [|gt group IH]; intros H; simpl.
  - exists []. split; reflexivity.
  - destruct IH as [rs [Hrs Hlen]].
    { intros k Hk. apply H. right; exact Hk. }
    rewrite Hrs. unfold GroupCost_residual at 1.
    destruct (H (fst gt) (or_introl eq_refl)) as [H1 H2].
    replace (6 * N.to_nat (fst (fst gt)) + 2 <? List.length sensors)%nat
      with true by (symmetry; apply Nat.ltb_lt; exact H1).
    replace (N.to_nat (snd (fst gt)) <? 2)%nat
      with true by (symmetry; apply Nat.ltb_lt; exact H2).
    simpl. eexists. split; [reflexivity|]. simpl. rewrite Hlen. reflexivity.
Qed.

(** X21. On the group the bootstrap hands to a bearing block, and a sensor
    array of the declared size [NUM_SENSORS * 6], the cost reads inside
    its arrays and yields two residuals for every point given to the PnP
    solve: the [group.size()] the block was declared with. *)
Theorem GroupCost_defined_on_bootstrap_groups :
  forall E c lh tr sm z correct wTv vTl pxy pz rxy rz bTh tTh sensors params,
  6 * NUM_SENSORS E <= List.length sensors ->
  exists residuals,
    GroupCost_eval AngleAxisRotatePoint Predict correct
      (group (correspondences E c lh tr sm z)) wTv vTl pxy pz rxy rz
      bTh tTh sensors params = Some residuals /\
    List.length residuals = List.length (group (correspondences E c lh tr sm z)) /\
    List.length residuals = 2 * List.length (obj (correspondences E c lh tr sm z)).
Proof.
  intros E c lh tr sm z correct wTv vTl pxy pz rxy rz bTh tTh sensors params
    Hlen.
  pose proof (correspondences_group E c lh tr sm z) as Hk.
  destruct (GroupCost_eval_in_range correct
              (group (correspondences E c lh tr sm z)) wTv vTl pxy pz rxy rz
              bTh tTh sensors params) as [rs [Hrs Hl]].
  - intros k Hin. rewrite Hk in Hin. unfold group_keys in Hin.
    apply in_flat_map in Hin. destruct Hin as [s [Hs Hin]].
    apply filter_In in Hs. destruct Hs as [Hs _]. apply in_seq in Hs.
    destruct Hin as [Hin|[Hin|[]]]; subst k; simpl;
      rewrite Nat2N.id; split; lia.
  - exists rs. split; [exact Hrs|]. split; [exact Hl|].
    rewrite Hl. rewrite correspondences_count. unfold valid_count.
    rewrite <- group_keys_length, <- Hk. unfold StdMap.keys.
    rewrite length_map. reflexivity.
Qed.

End CostFacts.

Lemma GroupCost_defined_on_bootstrap_groups_witness :
  let sm : SensorMap :=
    [(0%N, [(0%N, [0.1%float]); (1%N, [0.2%float])]);
     (1%N, [(0%N, [0.3%float])]);
     (2%N, [(0%N, [0.1%float]); (1%N, [0.4%float])])] in
  let cs := correspondences Demo.env (Demo.config true true false 0.0)
              (Demo.lh 1.0) Demo.tracker sm 0.5 in
  StdMap.keys (group cs) = [(0, 0); (0, 1); (2, 0); (2, 1)]%N /\
  exists residuals,
    GroupCost_eval (fun _ x => x) (fun _ x _ => (fst (fst x), snd x)) false
      (group cs) Demo.zero Demo.zero (0, 0)%float 0%float (0, 0)%float 0%float
      Demo.zero Demo.zero (sensors Demo.tracker) [] = Some residuals /\
    List.length residuals = 4.
Proof.
  intros sm cs. split; [vm_compute; reflexivity|].
  destruct (GroupCost_defined_on_bootstrap_groups (fun _ x => x)
              (fun _ x _ => (fst (fst x), snd x)) Demo.env
              (Demo.config true true false 0.0) (Demo.lh 1.0) Demo.tracker sm 0.5
              false Demo.zero Demo.zero (0, 0)%float 0%float (0, 0)%float 0%float
              Demo.zero Demo.zero (sensors Demo.tracker) [])
    as [rs [H1 [_ H2]]].
  - vm_compute. repeat constructor.
  - exists rs. split; [exact H1|]. rewrite H2. vm_compute. reflexivity.
Defined.

(** ** [std::prev] at the first pose *)

Lemma seed_epoch_fed : forall E g lk lh tk tr t cs rt (b : Builder E),
  exists h, b_fed (seed_epoch g lk lh tk tr t cs rt b) = b_fed b ++ [h].
Proof.
  intros. unfold seed_epoch. eexists.
  destruct (PrimFloat.ltb 0 (smoothing_ (cfg g)));
    try destruct (StdMap.pred_key _ _ _); reflexivity.
Qed.

(** Seeding asks for the predecessor of [wTb.begin()] exactly when the
    smoothing weight is positive and no entry of [wTb] precedes the epoch;
    the outcome is then undefined unless [std::prev] is supposed to hand
    [begin()] back for the map as it is at that moment. *)
Lemma seed_epoch_undefined : forall E g lk lh tk tr t cs rt (b : Builder E),
  b_undefined (seed_epoch g lk lh tk tr t cs rt b) =
  b_undefined b ||
  (PrimFloat.ltb 0 (smoothing_ (cfg g)) &&
   match StdMap.pred_key time_ltb t (b_wTb b) with
   | Some _ => false
   | None =>
       negb (prev_of_begin_is_begin E
               (StdMap.keys (b_wTb (seed_epoch g lk lh tk tr t cs rt b))))
   end).
Proof.
  intros. unfold seed_epoch.
  destruct (PrimFloat.ltb 0 (smoothing_ (cfg g))); simpl;
    [|rewrite orb_false_r; reflexivity].
  destruct (force2d_ (cfg g)); rewrite !pred_key_set;
    destruct (StdMap.pred_key time_ltb t (b_wTb b)); simpl;
    rewrite ?orb_false_r; reflexivity.
Qed.

Lemma bootstrap_defined : forall E g bundle,
  PrimFloat.ltb 0 (smoothing_ (cfg g)) = false \/
  (forall keys, prev_of_begin_is_begin E keys = true) ->
  b_undefined (bootstrap (E := E) g bundle) = false.
Proof.
  intros E g bundle H.
  apply (bootstrap_induction g bundle (fun b => b_undefined b = false)).
  - reflexivity.
  - intros flag blk b Hb. unfold set_constant. destruct flag; exact Hb.
  - intros lk lh tk tr z b bt _ _ _ _ Hb. unfold bootstrap_epoch.
    destruct (3 <? _)%nat; [|exact Hb]. simpl.
    destruct (solvePnPRansac E _ _ z) as [rt|]; [|exact Hb].
    rewrite seed_epoch_undefined. simpl. rewrite Hb. simpl.
    destruct H as [H|H]; [rewrite H; reflexivity|].
    destruct (PrimFloat.ltb 0 (smoothing_ (cfg g))); simpl; [|reflexivity].
    destruct (StdMap.pred_key _ _ _); [reflexivity|].
    rewrite H. reflexivity.
Qed.

(** X22. Where the smoothing weight is not positive, [std::prev] is never
    applied to [wTb.begin()]: the outcome of [Solve] does not depend on
    what that would do (nor does it where [std::prev] hands [begin()]
    back whatever the map holds). *)
Theorem Solve_never_asks_before_begin : forall E now g,
  PrimFloat.ltb 0 (smoothing_ (cfg g)) = false \/
  (forall keys, prev_of_begin_is_begin E keys = true) ->
  Solve E now g <> Undefined.
Proof.
  intros E now g H. unfold Solve.
  destruct (measurements_ g) as [|m ms]; [discriminate|].
  rewrite (bootstrap_defined E g _ H).
  destruct (ceres_Solve E _ _ _) as [new usable]. discriminate.
Qed.

Lemma Solve_never_asks_before_begin_witness :
  exists r,
    Solve Demo.env Demo.now
      (Demo.globals (Demo.config true true false 0.0) Demo.two_epochs_both) =
    Returned r.
Proof.
  destruct (Solve Demo.env Demo.now
              (Demo.globals (Demo.config true true false 0.0)
                 Demo.two_epochs_both)) as [r|] eqn:H.
  - exists r. reflexivity.
  - elim (Solve_never_asks_before_begin Demo.env Demo.now
            (Demo.globals (Demo.config true true false 0.0)
               Demo.two_epochs_both) (or_introl eq_refl) H).
Defined.

(** X23. Under a positive smoothing weight and with nothing supposed about
    [std::prev] at the [begin()] of a map of one entry, a solve has a
    defined outcome only if no PnP solve succeeded: the first pose seeded
    always asks for the predecessor of [wTb.begin()], so a solve that
    returns has no body pose, no residual block and no height. *)
Theorem smoothing_first_pose_undefined : forall E now g r,
  PrimFloat.ltb 0 (smoothing_ (cfg g)) = true ->
  (forall t, prev_of_begin_is_begin E [t] = false) ->
  Solve E now g = Returned r ->
  wTb_after r = [] /\ residual_blocks (problem_built r) = [] /\
  heights_fed r = [].
Proof.
  intros E now g r Hs Hp H.
  destruct (Solve_cases E now g r H)
    as [[_ ->]|(_ & Hu & _ & _ & Hw & Hb & Hf & _)]; [auto|].
  rewrite Hw, Hb, Hf.
  assert (P : b_undefined (bootstrap (E := E) g
                (bundle_measurements E (res_ (cfg g)) (measurements_ g))) = false ->
              b_wTb (bootstrap (E := E) g
                (bundle_measurements E (res_ (cfg g)) (measurements_ g))) = [] /\
              residual_blocks (b_problem (bootstrap (E := E) g
                (bundle_measurements E (res_ (cfg g)) (measurements_ g)))) = [] /\
              b_fed (bootstrap (E := E) g
                (bundle_measurements E (res_ (cfg g)) (measurements_ g))) = []).
  { apply (bootstrap_induction g _
             (fun b => b_undefined b = false ->
                       b_wTb b = [] /\ residual_blocks (b_problem b) = [] /\
                       b_fed b = [])).
    - auto.
    - intros flag blk b Hi. unfold set_constant. destruct flag; exact Hi.
    - intros lk lh tk tr z b bt _ _ _ _ Hi. unfold bootstrap_epoch.
      destruct (3 <? _)%nat; [|exact Hi]. simpl.
      destruct (solvePnPRansac E _ _ z) as [rt|]; [|exact Hi].
      rewrite seed_epoch_undefined. simpl. rewrite Hs. simpl.
      intros X. apply orb_false_iff in X. destruct X as [X1 X2].
      destruct (Hi X1) as (W & _ & _). rewrite W in X2. simpl in X2.
      match type of X2 with
      | context [seed_epoch g lk lh tk tr ?t ?cs rt ?b1] =>
          destruct (seed_epoch_shape E g lk lh tk tr t cs rt b1)
            as [pose [Hshape _]];
          rewrite Hshape in X2
      end.
      simpl in X2. rewrite Hp in X2.
      discriminate X2. }
  destruct (P Hu) as (A & B & C). rewrite A, B, C.
  destruct (force2d_ (cfg g)); auto.
Qed.

Lemma smoothing_first_pose_undefined_witness :
  let g := mkGlobals (Demo.config true true false 10.0) []
             [("T1"%string, Demo.tracker)]
             [(mkTime 10 0, mkMeasurement (Demo.sweep "L1" 0))] [] true
             Demo.zero false in
  exists r, Solve Demo.env Demo.now g = Returned r /\ ret r = true /\
            wTb_after r = [].
Proof.
  intros g. eexists. split; [vm_compute; reflexivity|].
  split; [reflexivity|].
  refine (proj1 (smoothing_first_pose_undefined Demo.env Demo.now g _
                   eq_refl (fun _ => eq_refl) _)).
  vm_compute; reflexivity.
Defined.

(** ** [Solve] without a lighthouse *)

Lemma write_globals_same : forall g w (v : Values),
  sorted String.ltb (lighthouses_ g) ->
  sorted String.ltb (trackers_ g) ->
  (forall b i, v b i = read_values g w b i) ->
  write_globals v g = g.
Proof.
  intros g w v Hl Ht Hv. unfold write_globals.
  assert (A : map (write_lighthouse v) (lighthouses_ g) = lighthouses_ g).
  { rewrite <- (map_id (lighthouses_ g)) at 2. apply map_ext_in.
    intros [k lh] Hin. apply lighthouse_entry_eq; simpl.
    - apply pose_build_get. intros i. rewrite Hv. simpl.
      rewrite (sorted_lookup_lighthouse g k lh Hl Hin). reflexivity.
    - rewrite <- (array_of_nth (params lh)) at 2.
      unfold array_of. apply map_ext. intros i. rewrite Hv. simpl.
      rewrite (sorted_lookup_lighthouse g k lh Hl Hin). reflexivity. }
  assert (B : map (write_tracker v) (trackers_ g) = trackers_ g).
  { rewrite <- (map_id (trackers_ g)) at 2. apply map_ext_in.
    intros [k tr] Hin. apply tracker_entry_eq; simpl.
    - apply pose_build_get. intros i. rewrite Hv. simpl.
      rewrite (sorted_lookup_tracker g k tr Ht Hin). reflexivity.
    - apply pose_build_get. intros i. rewrite Hv. simpl.
      rewrite (sorted_lookup_tracker g k tr Ht Hin). reflexivity.
    - rewrite <- (array_of_nth (sensors tr)) at 2.
      unfold array_of. apply map_ext. intros i. rewrite Hv. simpl.
      rewrite (sorted_lookup_tracker g k tr Ht Hin). reflexivity. }
  assert (C : pose_build (v B_wTv) = wTv_ g).
  { apply pose_build_get. intros i. rewrite Hv. reflexivity. }
  rewrite A, B, C. destruct g; reflexivity.
Qed.

(** X24. With no lighthouse in the table nothing is bootstrapped, whatever was
    measured: a solve that returns built a problem without residual
    blocks, made no PnP call and no body pose, and changed no global. *)
Theorem Solve_without_lighthouses : forall E now g r,
  lighthouses_ g = [] ->
  sorted String.ltb (trackers_ g) ->
  Solve E now g = Returned r ->
  wTb_after r = [] /\ residual_blocks (problem_built r) = [] /\
  pnp_attempts r = [] /\ globals_after r = g.
Proof.
  intros E now g r Hl Ht H.
  destruct (Solve_cases E now g r H)
    as [[_ ->]|(_ & _ & _ & Hg & Hw & Hp & _ & Ha)]; [auto|].
  assert (B : forall bundle,
            b_wTb (bootstrap (E := E) g bundle) = [] /\
            residual_blocks (b_problem (bootstrap (E := E) g bundle)) = [] /\
            b_attempts (bootstrap (E := E) g bundle) = []).
  { intros bundle. unfold bootstrap. rewrite Hl. unfold set_constant.
    destruct (negb (refine_registration_ (cfg g))); auto. }
  destruct (B (bundle_measurements E (res_ (cfg g)) (measurements_ g)))
    as (B1 & B2 & B3).
  rewrite Hw, Hp, Ha, Hg, B1, B2, B3.
  assert (W : (if force2d_ (cfg g)
               then map (flatten (Statistic_Mean E (b_height (bootstrap g
                      (bundle_measurements E (res_ (cfg g)) (measurements_ g))))))
                      []
               else []) = @nil (Time * Pose))
    by (destruct (force2d_ (cfg g)); reflexivity).
  rewrite W. simpl. repeat split.
  apply (write_globals_same g []); [rewrite Hl; exact I | exact Ht|].
  intros b i. unfold solved_values, parameter_blocks. rewrite B2. reflexivity.
Qed.

Lemma Solve_without_lighthouses_witness :
  let g := mkGlobals (Demo.config true true false 0.0) []
             [("T1"%string, Demo.tracker)] Demo.two_epochs_both [] true
             Demo.zero false in
  exists r, Solve Demo.env Demo.now g = Returned r /\ ret r = true /\
            globals_after r = g.
Proof.
  intros g. eexists. split; [vm_compute; reflexivity|].
  split; [reflexivity|].
  refine (proj2 (proj2 (proj2
    (Solve_without_lighthouses Demo.env Demo.now g _ eq_refl _ _)))).
  - vm_compute. repeat constructor.
  - vm_compute; reflexivity.
Defined.

(** ** [Solve]: what the problem counts *)

Lemma set_length_le : forall {K V : Type} (lt : K -> K -> bool) (k : K) (v : V) m,
  List.length (StdMap.set lt k v m) <= S (List.length m).
Proof.
  intros K V lt k v. induction m as [|[k' v'] r IH]; simpl; [lia|].
  destruct (lt k k'); simpl; [lia|]. destruct (lt k' k); simpl; lia.
Qed.

Lemma bootstrap_accounting : forall E g bundle,
  accounted g bundle (bootstrap (E := E) g bundle).
Proof.
  intros E g bundle. apply bootstrap_induction.
  - unfold accounted. simpl. repeat split; auto.
  - intros flag blk b Hb. unfold set_constant. destruct flag; exact Hb.
  - intros lk lh tk tr z b bt Hl Ht _ He (A & B & C & D & F).
    unfold bootstrap_epoch.
    destruct (3 <? _)%nat eqn:Hn; [|repeat split; assumption].
    apply Nat.ltb_lt in Hn.
    assert (F' : Forall (fun a =>
                   4 <= at_points a /\
                   In (at_lighthouse a) (StdMap.keys (lighthouses_ g)) /\
                   In (at_tracker a) (StdMap.keys (trackers_ g)) /\
                   In (at_epoch a) (epochs_of bundle))
                   (b_attempts b ++
                    [mkAttempt lk tk (fst bt)
                       (List.length (obj (correspondences E (cfg g) lh tr
                                            (snd bt) z)))])).
    { apply Forall_app. split; [exact F|]. constructor; [|constructor]. simpl.
      split; [lia|]. split; [apply (in_map fst) in Hl; exact Hl|].
      split; [apply (in_map fst) in Ht; exact Ht | exact He]. }
    destruct (solvePnPRansac E _ _ z) as [rt|].
    + unfold accounted. cbn [b_wTb b_problem b_fed b_attempts].
      match goal with
      | |- context [seed_epoch g lk lh tk tr ?t ?cs rt ?b1] =>
          destruct (seed_epoch_shape E g lk lh tk tr t cs rt b1)
            as [pose [Hw Hr]];
          destruct (seed_epoch_fed E g lk lh tk tr t cs rt b1) as [h Hf];
          pose proof (seed_epoch_attempts E g lk lh tk tr t cs rt b1) as Ha
      end.
      rewrite Hw, Hf, Ha. cbn [b_wTb b_problem b_fed b_attempts] in *.
      pose proof (set_length_le time_ltb (fst bt) pose (b_wTb b)) as Hset.
      rewrite !length_app. simpl List.length.
      destruct Hr as [Hr|[p [_ Hr]]]; rewrite Hr; rewrite !filter_app;
        simpl filter; rewrite !length_app; simpl List.length;
        (repeat split; [lia | lia | lia | lia | exact F']).
    + unfold accounted. cbn [b_wTb b_problem b_fed b_attempts].
      rewrite length_app. simpl List.length.
      repeat split; [exact A | exact B | lia | exact D | exact F'].
Qed.

(** X25. What the problem a solve built counts: one bearing block and one
    height sample for every PnP solve that succeeded; at most one motion
    block for each, and no more body poses than that; every PnP call was
    given at least four points, for a lighthouse and a tracker of the
    tables and the epoch of a stored observation. *)
Theorem Solve_accounting : forall E now g r,
  Solve E now g = Returned r ->
  List.length (filter (fun rb => negb (is_motion rb))
                 (residual_blocks (problem_built r))) =
    List.length (heights_fed r) /\
  List.length (filter is_motion (residual_blocks (problem_built r))) <=
    List.length (heights_fed r) /\
  List.length (heights_fed r) <= List.length (pnp_attempts r) /\
  List.length (wTb_after r) <= List.length (heights_fed r) /\
  Forall (fun a =>
            4 <= at_points a /\
            In (at_lighthouse a) (StdMap.keys (lighthouses_ g)) /\
            In (at_tracker a) (StdMap.keys (trackers_ g)) /\
            exists t, In t (StdMap.keys (measurements_ g)) /\
                      at_epoch a = epoch E (res_ (cfg g)) t)
         (pnp_attempts r).
Proof.
  intros E now g r H.
  destruct (Solve_cases E now g r H)
    as [[_ ->]|(_ & _ & _ & _ & Hw & Hp & Hf & Ha)].
  { simpl. repeat split; auto. }
  destruct (bootstrap_accounting E g
              (bundle_measurements E (res_ (cfg g)) (measurements_ g)))
    as (A & B & C & D & F).
  rewrite Hw, Hp, Hf, Ha. rewrite length_map.
  assert (L : forall h, List.length
                (if force2d_ (cfg g)
                 then map (flatten h)
                        (b_wTb (bootstrap (E := E) g
                           (bundle_measurements E (res_ (cfg g)) (measurements_ g))))
                 else b_wTb (bootstrap (E := E) g
                        (bundle_measurements E (res_ (cfg g)) (measurements_ g)))) =
              List.length (b_wTb (bootstrap (E := E) g
                 (bundle_measurements E (res_ (cfg g)) (measurements_ g))))).
  { intros h. destruct (force2d_ (cfg g)); [apply length_map | reflexivity]. }
  rewrite L. repeat split; try assumption.
  eapply Forall_impl; [|exact F]. intros a (A1 & A2 & A3 & A4).
  repeat split; try assumption.
  unfold bundle_measurements in A4. apply bundle_measurements_epochs in A4.
  destruct A4 as [[]|A4]. exact A4.
Qed.

Lemma Solve_accounting_witness :
  let g := Demo.globals (Demo.config true true false 10.0) Demo.two_epochs_both in
  exists r, Solve Demo.env_lenient Demo.now g = Returned r /\
    List.length (heights_fed r) = 4 /\ List.length (wTb_after r) = 2 /\
    List.length (filter (fun rb => negb (is_motion rb))
                   (residual_blocks (problem_built r))) =
    List.length (heights_fed r).
Proof.
  intros g. eexists. split; [vm_compute; reflexivity|].
  split; [reflexivity|]. split; [reflexivity|].
  refine (proj1 (Solve_accounting Demo.env_lenient Demo.now g _ _)).
  vm_compute; reflexivity.
Defined.

(** ** The performance file and the ground-truth path *)

Lemma with_truth_rows : forall (wTb corr : list (Time * Pose)),
  let has := fun ep : Time * Pose =>
    match StdMap.find time_ltb (fst ep) corr with
    | Some _ => true
    | None => false
    end in
  map fst (with_truth wTb corr) = filter has wTb /\
  map (fun r => fst (snd r)) (with_truth wTb corr) = map fst (filter has wTb) /\
  map (fun r => Some (snd (snd r))) (with_truth wTb corr) =
  map (fun ep => StdMap.find time_ltb (fst ep) corr) (filter has wTb).
Proof.
  intros wTb corr has. unfold with_truth, has.
  induction wTb as [|ep w (A & B & C)]; simpl; [auto|].
  destruct (StdMap.find time_ltb (fst ep) corr) as [c|] eqn:Hf; simpl.
  - rewrite A, B, C, Hf. auto.
  - auto.
Qed.

(** X26. After a successful solve that could open the performance file: the
    file has one row, and the ground-truth path one pose, for every body
    pose whose epoch has a bundled correction, in the order of the
    trajectory and for no other; the row holds the solved pose and the
    correction of that epoch, the path pose is stamped with the epoch. *)
Theorem Solve_performance_rows : forall E now g r,
  Solve E now g = Returned r ->
  ret r = true ->
  is_open E (perfile_ (cfg g)) = true ->
  let corr := bundle_corrections E (res_ (cfg g)) (corrections_ g) in
  let has := fun ep : Time * Pose =>
    match StdMap.find time_ltb (fst ep) corr with
    | Some _ => true
    | None => false
    end in
  exists rows truth,
    performance (outputs r) = Some rows /\
    pub_ekf_ (outputs r) = Some (mkPath (now 1) (frame_world_ (cfg g)) truth) /\
    map row_solved rows = map snd (filter has (wTb_after r)) /\
    map (fun row => Some (row_truth row)) rows =
      map (fun ep => StdMap.find time_ltb (fst ep) corr)
          (filter has (wTb_after r)) /\
    map ps_stamp truth = map fst (filter has (wTb_after r)).
Proof.
  intros E now g r H Hr Ho corr has. unfold Solve in H.
  destruct (measurements_ g) as [|m ms] eqn:Hm.
  { inversion H; subst r. discriminate Hr. }
  destruct (b_undefined _); [discriminate|].
  destruct (ceres_Solve E _ _ _) as [new usable].
  inversion H; subst r; simpl in *. subst usable. clear H.
  unfold publish. simpl. rewrite Ho.
  match goal with
  | |- context [with_truth ?w ?c] =>
      destruct (with_truth_rows w c) as (A & B & C); fold corr in A, B, C;
      fold has in A, B, C
  end.
  eexists _, _. split; [reflexivity|]. split; [reflexivity|].
  rewrite !map_map. simpl. split; [|split].
  - rewrite <- A, map_map. reflexivity.
  - exact C.
  - exact B.
Qed.

Lemma Solve_performance_rows_witness :
  let g0 := Demo.globals (Demo.config true true false 0.0) Demo.two_epochs_both in
  let truth := mkTransformStamped "world" "body" (1, 2, 3)%float
                 (mkQuat 1 0 0 0) in
  let g := with_corrections [(mkTime 10 100000500, truth)] g0 in
  exists r, Solve Demo.env Demo.now g = Returned r /\
    List.length (wTb_after r) = 2 /\
    option_map (map row_truth) (performance (outputs r)) =
    Some [correction_pose Demo.env truth].
Proof.
  intros g0 truth g. eexists. split; [vm_compute; reflexivity|].
  split; [reflexivity|].
  destruct (Solve_performance_rows Demo.env Demo.now g _
              ltac:(vm_compute; reflexivity) eq_refl eq_refl)
    as (rows & path & A & _ & _ & B & _).
  rewrite A. simpl. f_equal.
  assert (X : map (fun row => Some (row_truth row)) rows =
              map Some [correction_pose Demo.env truth]).
  { rewrite B. vm_compute. reflexivity. }
  clear - X. revert X. generalize [correction_pose Demo.env truth].
  induction rows as [|x rows IH]; intros [|y l] X; simpl in X;
    try discriminate X; [reflexivity|].
  inversion X. simpl. f_equal. apply IH. assumption.
Defined.

(** ** The filter node *)

(** X27. Of the trackers of a [/trackers] message with the serial of the node,
    the last one is kept, and the node is ready from then on; a message
    without one changes nothing. *)
Theorem filter_TrackerCallback_last_match :
  forall (L : FilterNode.Lib) msg (g : FilterNode.Globals L),
  FilterNode.TrackerCallback msg g =
  match List.find (fun it => String.eqb (FilterNode.serial it)
                               (FilterNode.serial_ g)) (rev msg) with
  | Some it =>
      FilterNode.mkGlobals (FilterNode.model g) (FilterNode.serial_ g) it
        (FilterNode.frame_ g) (FilterNode.filter_ g) (FilterNode.last_ g)
        true (FilterNode.initialized_ g)
  | None => g
  end.
Proof.
  intros L msg g. unfold FilterNode.TrackerCallback.
  induction msg as [|x msg IH] using rev_ind; [reflexivity|].
  rewrite fold_left_app, rev_app_distr. simpl. rewrite IH. clear IH.
  destruct (List.find _ (rev msg)) as [it|]; simpl;
    destruct (String.eqb (FilterNode.serial x) (FilterNode.serial_ g));
    reflexivity.
Qed.

Lemma filter_TrackerCallback_keeps :
  forall (L : FilterNode.Lib) (P : FilterNode.Globals L -> Prop) msg g,
  (forall g it,
     String.eqb (FilterNode.serial it) (FilterNode.serial_ g) = true ->
     P g ->
     P (FilterNode.mkGlobals (FilterNode.model g) (FilterNode.serial_ g) it
          (FilterNode.frame_ g) (FilterNode.filter_ g) (FilterNode.last_ g)
          true (FilterNode.initialized_ g))) ->
  P g -> P (FilterNode.TrackerCallback msg g).
Proof.
  intros L P msg g H. unfold FilterNode.TrackerCallback.
  apply fold_left_invariant. intros a it Ha.
  destruct (String.eqb (FilterNode.serial it) (FilterNode.serial_ a)) eqn:Hs;
    [apply H; assumption | exact Ha].
Qed.

(** X28. From a start that is neither ready nor initialized, whatever
    calls of [TimerCallback], [LightCallback], [ImuCallback] and
    [TrackerCallback] follow: as long as no tracker with the serial of the
    node was received nothing at all changes, neither the filter nor the
    time of the last update, and nothing is broadcast; the node is never
    initialized without being ready; once ready, the tracker it holds has
    its serial; its serial and frame never change. *)
Theorem filter_idle_until_tracker_known :
  forall (L : FilterNode.Lib) (g0 g : FilterNode.Globals L),
  FilterNode.ready_ g0 = false ->
  FilterNode.initialized_ g0 = false ->
  FilterNode.reaches g0 g ->
  (FilterNode.initialized_ g = true -> FilterNode.ready_ g = true) /\
  (FilterNode.ready_ g = false ->
   g = g0 /\
   forall current_real now,
     FilterNode.TimerCallback current_real now g = (g, None)) /\
  (FilterNode.ready_ g = true ->
   FilterNode.serial (FilterNode.tracker_ g) = FilterNode.serial_ g) /\
  FilterNode.serial_ g = FilterNode.serial_ g0 /\
  FilterNode.frame_ g = FilterNode.frame_ g0.
Proof.
  intros L g0 g Hr0 Hi0 H.
  assert (Inv : (FilterNode.initialized_ g = true -> FilterNode.ready_ g = true) /\
                (FilterNode.ready_ g = false -> g = g0) /\
                (FilterNode.ready_ g = true ->
                 FilterNode.serial (FilterNode.tracker_ g) = FilterNode.serial_ g) /\
                FilterNode.serial_ g = FilterNode.serial_ g0 /\
                FilterNode.frame_ g = FilterNode.frame_ g0).
  { induction H as [|g g' Hreach IH Hs].
    - rewrite Hr0, Hi0. repeat split; auto; congruence.
    - destruct IH as (A & B & C & D & F).
      destruct Hs as [cr now g|msg now lookup g g' Hl|msg now g|msg g].
      + unfold FilterNode.TimerCallback.
        destruct (FilterNode.initialized_ g) eqn:Hi; simpl;
          [|repeat split; auto; congruence].
        specialize (A eq_refl).
        destruct (PrimFloat.ltb 0 _ && PrimFloat.ltb _ 1.0); simpl;
          rewrite A; repeat split; auto; congruence.
      + unfold FilterNode.LightCallback in Hl.
        destruct (FilterNode.ready_ g) eqn:Hrd; simpl in Hl.
        2:{ inversion Hl; subst g'. rewrite Hrd. repeat split; auto. }
        specialize (C eq_refl).
        destruct (negb (String.eqb (header_frame_id msg) (FilterNode.serial_ g))).
        { inversion Hl; subst g'. rewrite Hrd. repeat split; auto. }
        destruct (PrimFloat.ltb 0 _ && PrimFloat.ltb _ 1.0); simpl in Hl.
        2:{ inversion Hl; subst g'. simpl. rewrite Hrd.
            repeat split; auto; congruence. }
        destruct lookup as [[q t]|].
        2:{ inversion Hl; subst g'. simpl. rewrite Hrd.
            repeat split; auto; congruence. }
        destruct (fold_left _ _ _) as [[m' f']|]; [|discriminate].
        inversion Hl; subst g'. simpl. rewrite Hrd.
        repeat split; auto; congruence.
      + unfold FilterNode.ImuCallback.
        destruct (FilterNode.ready_ g) eqn:Hrd; simpl;
          [|rewrite Hrd; repeat split; auto].
        specialize (C eq_refl).
        destruct (negb (String.eqb (FilterNode.imu_frame_id msg)
                          (FilterNode.serial_ g)));
          [rewrite Hrd; repeat split; auto|].
        destruct (PrimFloat.ltb 0 _ && PrimFloat.ltb _ 1.0); simpl;
          rewrite Hrd; repeat split; auto; congruence.
      + apply filter_TrackerCallback_keeps.
        * intros a it Hs (A' & B' & C' & D' & F'). simpl.
          repeat split; auto; try congruence.
          intros _. apply String.eqb_eq. exact Hs.
        * repeat split; auto. }
  destruct Inv as (A & B & C & D & F).
  repeat split; auto.
  intros current_real now. unfold FilterNode.TimerCallback.
  destruct (FilterNode.initialized_ g) eqn:Hi; [|reflexivity].
  rewrite (A eq_refl) in H0. discriminate H0.
Qed.

Lemma filter_idle_until_tracker_known_witness :
  let L := FilterNode.mkLib nat (fun _ _ f => S f) (fun _ _ f => S f)
             (fun _ f => S f) (fun _ => (0, 0, 0)%float)
             (fun _ => mkQuat 1 0 0 0) (fun _ _ => 0.5%float) in
  let zero := (0, 0, 0)%float in
  let g0 : FilterNode.Globals L :=
    FilterNode.mkGlobals (L := L)
      (FilterNode.mkModel zero zero (mkQuat 1 0 0 0) zero 0)
      "T1" (FilterNode.mkTrackerInfo "" [] zero zero zero zero) "body"
      (0 : FilterNode.Filter L) (mkTime 0 0) false false in
  let info := FilterNode.mkTrackerInfo "T1" (repeat zero 5) zero zero zero zero in
  exists g,
    FilterNode.LightCallback (Demo.sweep "L1" 0) (mkTime 1 0)
      (Some (mkQuat 1 0 0 0, zero))
      (FilterNode.TrackerCallback [info] g0) = Some g /\
    FilterNode.initialized_ g = true /\
    FilterNode.filter_ g = (7 : FilterNode.Filter L) /\
    FilterNode.serial (FilterNode.tracker_ g) = "T1"%string.
Proof.
  intros L zero g0 info. eexists. split; [vm_compute; reflexivity|].
  split; [reflexivity|]. split; [reflexivity|].
  match goal with
  | |- FilterNode.serial (FilterNode.tracker_ ?g) = _ =>
      refine (proj1 (proj2 (proj2
        (filter_idle_until_tracker_known L g0 g eq_refl eq_refl _))) eq_refl)
  end.
  eapply FilterNode.reaches_step;
    [eapply FilterNode.reaches_step; [apply FilterNode.reaches_start|]|].
  - apply (FilterNode.step_tracker [info]).
  - apply (FilterNode.step_light (Demo.sweep "L1" 0) (mkTime 1 0)
             (Some (mkQuat 1 0 0 0, zero))).
    vm_compute. reflexivity.
Defined.

(** ** A lighthouse that was never observed *)

Lemma push_sample_other_lighthouse : forall ts ls t s a x b k,
  ls <> k ->
  (forall tk, StdMap.at_or String.ltb [] k (StdMap.at_or String.ltb [] tk b) = []) ->
  forall tk,
    StdMap.at_or String.ltb [] k
      (StdMap.at_or String.ltb [] tk (push_sample ts ls t s a x b)) = [].
Proof.
  intros ts ls t s a x b k Hne Hb tk. unfold push_sample.
  rewrite at_or_upd_string.
  destruct (String.eqb tk ts); [|apply Hb].
  rewrite at_or_upd_string.
  destruct (String.eqb_spec k ls) as [Heq|_]; [elim Hne; symmetry; exact Heq|].
  apply Hb.
Qed.

Lemma bundle_unobserved_lighthouse : forall E r k ms,
  (forall t m, In (t, m) ms -> lighthouse (light m) <> k) ->
  forall tk,
    StdMap.at_or String.ltb [] k
      (StdMap.at_or String.ltb [] tk (bundle_measurements E r ms)) = [].
Proof.
  intros E r k ms H. unfold bundle_measurements.
  apply (fold_left_invariant_in
           (fun b => forall tk,
              StdMap.at_or String.ltb [] k (StdMap.at_or String.ltb [] tk b) = [])).
  - intros b [t m] Hin Hb. unfold bundle_measurement. simpl fst; simpl snd.
    apply fold_left_invariant; [|exact Hb].
    intros b' pt Hb'. apply push_sample_other_lighthouse; [|exact Hb'].
    exact (H t m Hin).
  - intros tk. reflexivity.
Qed.

Lemma bootstrap_unobserved_lighthouse : forall E g bundle k,
  (forall tk, StdMap.at_or String.ltb [] k
                (StdMap.at_or String.ltb [] tk bundle) = []) ->
  forall rb, In rb (residual_blocks (b_problem (bootstrap (E := E) g bundle))) ->
             ~ In (B_vTl k) (blocks rb).
Proof.
  intros E g bundle k Hk.
  apply (bootstrap_induction g bundle
           (fun b => forall rb, In rb (residual_blocks (b_problem b)) ->
                                ~ In (B_vTl k) (blocks rb))).
  - intros rb [].
  - intros flag blk b Hb. unfold set_constant. destruct flag; exact Hb.
  - intros lk lh tk tr z b bt _ _ Hbt _ Hb. unfold bootstrap_epoch.
    destruct (3 <? _)%nat; [|exact Hb]. cbn [b_problem].
    destruct (solvePnPRansac E _ _ z) as [rt|]; [|exact Hb].
    assert (Hne : lk <> k).
    { intros Heq. subst lk. rewrite Hk in Hbt. destruct Hbt. }
    match goal with
    | |- context [seed_epoch g lk lh tk tr ?t ?cs rt ?b1] =>
        destruct (seed_epoch_shape E g lk lh tk tr t cs rt b1) as [pose [_ Hr]]
    end.
    cbn [b_problem] in Hr.
    intros rb Hin.
    assert (Hcase : In rb (residual_blocks (b_problem b)) \/
                    (exists t, blocks rb = group_blocks lk tk t) \/
                    (exists q t, blocks rb = motion_blocks q t)).
    { destruct Hr as [Hr|[q [_ Hr]]]; rewrite Hr in Hin;
        apply in_app_or in Hin; destruct Hin as [Hin|Hin]; auto; right.
      - destruct Hin as [Hin|[]]. subst rb. left. eexists. reflexivity.
      - destruct Hin as [Hin|[Hin|[]]]; subst rb;
          [left | right]; repeat eexists. }
    destruct Hcase as [Hold|[[t Hg]|[q [t Hm]]]].
    + apply Hb. exact Hold.
    + rewrite Hg. unfold group_blocks. simpl.
      intros [X|[X|[X|[X|[X|[X|[X|[X|[X|[X|[]]]]]]]]]]]; try discriminate X.
      inversion X. apply Hne. assumption.
    + rewrite Hm. unfold motion_blocks. simpl.
      intros [X|[X|[X|[X|[X|[X|[X|[X|[]]]]]]]]]; discriminate X.
Qed.

(** X29. The pose of the first lighthouse of the table is set constant even
    when no stored observation names that lighthouse, so that no residual
    block of the problem uses it: the request names a block the problem
    does not know. *)
Theorem unobserved_first_lighthouse_set_constant : forall E now g r k lh rest,
  lighthouses_ g = (k, lh) :: rest ->
  measurements_ g <> [] ->
  (forall t m, In (t, m) (measurements_ g) -> lighthouse (light m) <> k) ->
  Solve E now g = Returned r ->
  In (B_vTl k) (constant_blocks (problem_built r)) /\
  ~ In (B_vTl k) (parameter_blocks (problem_built r)).
Proof.
  intros E now g r k lh rest Hl Hm Hk H.
  destruct (Solve_cases E now g r H)
    as [[Hm' _]|(_ & _ & _ & _ & _ & Hp & _)]; [elim Hm; exact Hm'|].
  rewrite Hp. split.
  - eapply bootstrap_first. exact Hl.
  - unfold parameter_blocks. intros Hin. apply in_flat_map in Hin.
    destruct Hin as [rb [Hrb Hin]].
    revert Hin. eapply bootstrap_unobserved_lighthouse; [|exact Hrb].
    apply bundle_unobserved_lighthouse. exact Hk.
Qed.

Lemma unobserved_first_lighthouse_set_constant_witness :
  let g := mkGlobals (Demo.config true true false 0.0)
             [("L0"%string, Demo.lh 0.0); ("L1"%string, Demo.lh 1.0)]
             [("T1"%string, Demo.tracker)] Demo.two_epochs [] true
             Demo.zero false in
  exists r, Solve Demo.env Demo.now g = Returned r /\
    List.length (residual_blocks (problem_built r)) = 2 /\
    In (B_vTl "L0") (constant_blocks (problem_built r)) /\
    ~ In (B_vTl "L0") (parameter_blocks (problem_built r)).
Proof.
  intros g. eexists. split; [vm_compute; reflexivity|].
  split; [reflexivity|].
  refine (unobserved_first_lighthouse_set_constant Demo.env Demo.now g _
            "L0"%string (Demo.lh 0.0) _ eq_refl _ _ _).
  - discriminate.
  - intros t m Hin. vm_compute in Hin.
    repeat (destruct Hin as [Hin|Hin];
            [inversion Hin; subst; vm_compute; discriminate|]).
    destruct Hin.
  - vm_compute; reflexivity.
Defined.

Lemma no_motion_block_without_smoothing_witness :
  let g := Demo.globals (Demo.config true true false 0.0) Demo.two_epochs_both in
  exists r, Solve Demo.env Demo.now g = Returned r /\
    List.length (residual_blocks (problem_built r)) = 4 /\
    Forall (fun rb => is_motion rb = false) (residual_blocks (problem_built r)).
Proof.
  intros g. eexists. split; [vm_compute; reflexivity|].
  split; [reflexivity|].
  refine (no_motion_block_without_smoothing Demo.env Demo.now g _ eq_refl _).
  vm_compute; reflexivity.
Defined.

Lemma seed_epoch_links_predecessor_witness :
  let g := Demo.globals (Demo.config true true false 10.0) [] in
  let b := mkBuilder (E := Demo.env)
             [(mkTime 10 0, Demo.zero); (mkTime 10 100000000, Demo.zero)]
             (mkProblem [] []) (Statistic_new Demo.env) 0 [] [] false in
  let rt := ((0.1, 0.2, 0.3), (0.0, 0.0, 2.0))%float in
  map blocks
    (residual_blocks
       (b_problem (seed_epoch g "L2" (Demo.lh 2.0) "T1" Demo.tracker
                     (mkTime 10 100000000) (mkCorr [] [] []) rt b))) =
  [group_blocks "L2" "T1" (mkTime 10 100000000);
   motion_blocks (mkTime 10 0) (mkTime 10 100000000)].
Proof.
  intros g b rt.
  rewrite (proj1 (seed_epoch_links_predecessor Demo.env g "L2" (Demo.lh 2.0)
                    "T1" Demo.tracker (mkTime 10 100000000) (mkCorr [] [] [])
                    rt b (mkTime 10 0) eq_refl eq_refl)).
  reflexivity.
Defined.
